(** * Peitho Data spiders: record reconciliation and Spiral Abyss decoding

    A shallow embedding of the pure core of
    - [genshin_impact/character/character_info_cn.py] ([_merge_by_dict_key]),
    - [genshin_impact/character/character_info.py] (release-date stamps,
      grouping and ordering),
    - [genshin_impact/spiral_abyss/period_info.py] (row scanning, enemy
      extraction, period assembly and the period catalogue),
    together with the properties the specification states about them.

    Conventions of the embedding.
    - A Python [str] is the list of its code points ([list N]); comparison,
      equality, slicing and [in] are therefore those of Python.
    - A Python [dict] is a [gmap]; a [set] is a [gset].  Iteration over them
      is a [map_fold]/[set_fold], whose order is as unobservable here as the
      hash order of a Python [set] is to the callers in the source.
    - A raised exception is a value [Raise e] of the result type [res]. *)

From stdpp Require Import gmap list sorting strings fin_maps fin_sets.
From Stdlib Require Import ZArith NArith Lia.

#[local] Open Scope Z_scope.

(** ** Python strings *)

Abbreviation str := (list N) (only parsing).

(** [u "abc"] is the Python string literal ["abc"] (ASCII literals only). *)
Definition u (s : string) : str :=
  (fun c : Ascii.ascii => Ascii.N_of_ascii c) <$> String.list_ascii_of_string s.
Arguments u : simpl never.

(** ** Exceptions and results *)

Inductive exn : Type :=
  | KeyError
  | IndexError
  | ValueError
  | TypeError
  | AttributeError
  | OverflowError.

Inductive res (A : Type) : Type :=
  | Ok (a : A)
  | Raise (e : exn).
Arguments Ok {A} a.
Arguments Raise {A} e.

#[export] Instance res_ret : MRet res := fun A a => Ok a.
#[export] Instance res_bind : MBind res := fun A B k m =>
  match m with
  | Ok a => k a
  | Raise e => Raise e
  end.

#[export] Instance exn_eq_dec : EqDecision exn.
Proof. solve_decision. Defined.
#[export] Instance res_eq_dec {A} `{EqDecision A} : EqDecision (res A).
Proof. solve_decision. Defined.

Definition raises {A} (r : res A) : Prop := exists e, r = Raise e.
Definition succeeds {A} (r : res A) : Prop := exists a, r = Ok a.

#[export] Instance succeeds_dec {A} (r : res A) : Decision (succeeds r).
Proof.
  destruct r as [a|e]; [left; by exists a | right; by intros [a Ha]].
Defined.

(** A list comprehension [[f x for x in l]] whose body may raise. *)
Fixpoint res_map {A B} (f : A -> res B) (l : list A) : res (list B) :=
  match l with
  | [] => Ok []
  | x :: l' => y ← f x; ys ← res_map f l'; Ok (y :: ys)
  end.

(** [l[i]] on a Python list. *)
Definition py_index {A} (l : list A) (i : nat) : res A :=
  match l !! i with
  | Some x => Ok x
  | None => Raise IndexError
  end.

(** [d[k]] on a Python dict. *)
Definition py_getitem {A} (d : gmap (list N) A) (k : str) : res A :=
  match d !! k with
  | Some x => Ok x
  | None => Raise KeyError
  end.

(** ** String primitives of Python used by the source *)

Module PyStr.

(** [str.isspace] on one code point: the white space [str.split()] separates
    on and [str.strip()] strips. *)
Definition isspace (c : N) : bool :=
  ((9 <=? c) && (c <=? 13) || (28 <=? c) && (c <=? 32)
   || (c =? 133) || (c =? 160) || (c =? 5760)
   || (8192 <=? c) && (c <=? 8202)
   || (c =? 8232) || (c =? 8233) || (c =? 8239) || (c =? 8287)
   || (c =? 12288))%N.

(** [s.split()]: the maximal runs of non-space code points, in order. *)
Fixpoint split_aux (cur : list N) (s : list N) : list (list N) :=
  match s with
  | [] => match cur with [] => [] | _ => [reverse cur] end
  | c :: s' =>
      if isspace c
      then match cur with
           | [] => split_aux [] s'
           | _ => reverse cur :: split_aux [] s'
           end
      else split_aux (c :: cur) s'
  end.
Definition split (s : str) : list (list N) := split_aux [] s.

(** [s.split(sep)] for a one-character separator: never empty. *)
Fixpoint split_on_aux (sep : N) (cur : list N) (s : list N) : list (list N) :=
  match s with
  | [] => [reverse cur]
  | c :: s' =>
      if (c =? sep)%N
      then reverse cur :: split_on_aux sep [] s'
      else split_on_aux sep (c :: cur) s'
  end.
Definition split_on (sep : N) (s : str) : list (list N) := split_on_aux sep [] s.

(** [s[:-1]] *)
Definition drop_last (s : str) : str := take (length s - 1)%nat s.

(** [needle in hay] *)
Fixpoint starts_with (needle hay : list N) : bool :=
  match needle, hay with
  | [], _ => true
  | _ :: _, [] => false
  | a :: needle', b :: hay' => (a =? b)%N && starts_with needle' hay'
  end.
Fixpoint contains (needle hay : list N) : bool :=
  starts_with needle hay ||
  match hay with
  | [] => false
  | _ :: hay' => contains needle hay'
  end.

(** [s <= t]: lexicographic by code point. *)
Fixpoint le (s t : list N) : bool :=
  match s, t with
  | [], _ => true
  | _ :: _, [] => false
  | a :: s', b :: t' =>
      if (a <? b)%N then true else if (a =? b)%N then le s' t' else false
  end.

(** [s.strip()] *)
Fixpoint lstrip (s : list N) : list N :=
  match s with
  | c :: s' => if isspace c then lstrip s' else s
  | [] => []
  end.
Definition strip (s : str) : str := reverse (lstrip (reverse (lstrip s))).

(** *** [int(s)]

    CPython first rewrites the string: a code point below 127 is kept, any
    other white space becomes a blank and any other decimal digit its ASCII
    digit; a code point that is none of these ends the conversion with a
    [ValueError].  The rewritten text is then read in base 10: C white space
    (9..13 and 32) is skipped on both sides, one sign may follow, then
    digits with single underscores between them; at most
    [sys.int_info.default_max_str_digits] digits are accepted. *)

(** The code points with a decimal value come in runs of ten, zero to nine:
    the zeros of the 66 runs of the Unicode 14.0 database, which CPython 3.11
    carries. *)
Definition DECIMAL_ZEROS : list N :=
  [ 48; 1632; 1776; 1984; 2406; 2534; 2662; 2790; 2918; 3046; 3174; 3302;
    3430; 3558; 3664; 3792; 3872; 4160; 4240; 6112; 6160; 6470; 6608; 6784;
    6800; 6992; 7088; 7232; 7248; 42528; 43216; 43264; 43472; 43504; 43600;
    44016; 65296; 66720; 68912; 69734; 69872; 69942; 70096; 70384; 70736;
    70864; 71248; 71360; 71472; 71904; 72016; 72784; 73040; 73120; 92768;
    92864; 93008; 120782; 120792; 120802; 120812; 120822; 123200; 123632;
    125264; 130032 ]%N.

(** [Py_UNICODE_TODECIMAL] *)
Definition digit_value (c : N) : option Z :=
  (fun zero => Z.of_N (c - zero))
  <$> List.find (fun zero => (zero <=? c) && (c <=? zero + 9))%N DECIMAL_ZEROS.

(** The white space [int()] skips: that of [str.isspace] except the four
    separators 28..31, which are below 127 and no C white space. *)
Definition int_isspace (c : N) : bool :=
  isspace c && negb ((28 <=? c) && (c <=? 31))%N.

Fixpoint int_lstrip (s : list N) : list N :=
  match s with
  | c :: s' => if int_isspace c then int_lstrip s' else s
  | [] => []
  end.
Definition int_strip (s : str) : str :=
  reverse (int_lstrip (reverse (int_lstrip s))).

(** Decimal digits with single underscores between digits only.
    [after_digit] records whether the previous character was a digit. *)
Fixpoint digits (acc : Z) (after_digit : bool) (s : list N) : option Z :=
  match s with
  | [] => if after_digit then Some acc else None
  | c :: s' =>
      if (c =? 95)%N
      then if after_digit then digits acc false s' else None
      else match digit_value c with
           | Some d => digits (10 * acc + d) true s'
           | None => None
           end
  end.

(** [sys.int_info.default_max_str_digits]: the limit on the number of
    digits (underscores and sign not counted, leading zeros counted) of the
    interpreter as it starts. *)
Definition int_max_str_digits : N := 4300.

Definition digit_count (s : list N) : N :=
  N.of_nat (length (filter (fun c => c ≠ 95%N) s)).

(** Every failure of [int(s)] is a [ValueError]. *)
Definition int (s : str) : res Z :=
  let body (t : list N) : res Z :=
    match digits 0 false t with
    | Some n =>
        if (digit_count t <=? int_max_str_digits)%N
        then Ok n else Raise ValueError
    | None => Raise ValueError
    end in
  match int_strip s with
  | 43%N :: t => body t
  | 45%N :: t => n ← body t; Ok (- n)
  | t => body t
  end.

End PyStr.

(** [sorted(l)] / [l.sort()] with a comparison [le]: insertion from the right,
    which places an element before the later elements it ties with, so the
    sort is stable like Python's (and a stable sort has only one result). *)
Fixpoint insert_by {A} (le : A -> A -> bool) (x : A) (l : list A) : list A :=
  match l with
  | [] => [x]
  | y :: l' => if le x y then x :: l else y :: insert_by le x l'
  end.
Definition py_sort {A} (le : A -> A -> bool) (l : list A) : list A :=
  foldr (insert_by le) [] l.

(** [sorted(l, key=f)]: every key is computed first, then the decorated list
    is sorted on the keys. *)
Definition py_sorted_by_key {A} (f : A -> res (list N)) (l : list A) : res (list A) :=
  keys ← res_map f l;
  Ok ((py_sort (fun p q : list N * A => PyStr.le p.1 q.1) (zip keys l)).*2).

(** * KeyedRecordMerger: [_merge_by_dict_key] *)

Module Merger.

(** [for k, v in src.items(): value_map[k] = v] *)
Definition copy_items (src value_map : gmap (list N) (list N)) : gmap (list N) (list N) :=
  map_fold (fun k v acc => <[k:=v]> acc) value_map src.

Definition merged_value
    (first_info_map second_info_map : gmap (list N) (gmap (list N) (list N)))
    (key : str) : gmap (list N) (list N) :=
  let value_map : gmap (list N) (list N) := ∅ in
  let value_map :=
    match first_info_map !! key with
    | Some attrs => copy_items attrs value_map
    | None => value_map
    end in
  let value_map :=
    match second_info_map !! key with
    | Some attrs => copy_items attrs value_map
    | None => value_map
    end in
  value_map.

Definition _merge_by_dict_key
    (first_info_map second_info_map : gmap (list N) (gmap (list N) (list N)))
    : gmap (list N) (gmap (list N) (list N)) :=
  let key_superset : gset (list N) :=
    list_to_set ((map_to_list first_info_map).*1 ++ (map_to_list second_info_map).*1) in
  set_fold
    (fun key merged_map =>
       <[key := merged_value first_info_map second_info_map key]> merged_map)
    ∅ key_superset.

(** The overlay of one key, as the specification words it: the attributes of
    the first input, then those of the second on top. *)
Definition overlay (oa ob : option (gmap (list N) (list N))) : option (gmap (list N) (list N)) :=
  match oa, ob with
  | Some a, Some b => Some (b ∪ a)
  | Some a, None => Some a
  | None, Some b => Some b
  | None, None => None
  end.

End Merger.

Module MergerExamples.
Import Merger.

Definition titles : gmap (list N) (gmap (list N) (list N)) :=
  {[ u "Amber" := {[ u "titleCn" := u "Gliding Champion"; u "url" := u "old" ]};
     u "Layla" := {[ u "titleCn" := u "Fantastical Evening Star" ]} ]}.

Definition urls : gmap (list N) (gmap (list N) (list N)) :=
  {[ u "Amber" := {[ u "url" := u "/ys/Amber" ]};
     u "Hu Tao" := {[ u "url" := u "/ys/Hu_Tao" ]} ]}.

Definition names : gmap (list N) (gmap (list N) (list N)) :=
  {[ u "Amber" := {[ u "nameCn" := u "Amber" ]} ]}.

End MergerExamples.


(** * ReleaseTimeline: [character_info.py] *)

Module Timeline.

Definition RELEASE_DATE : str := u "releaseDate".

(** [sys.maxsize] of a 64-bit CPython, the value the docstring quotes. *)
Definition maxsize : Z := 9223372036854775807.

(** [calendar.month_name] in the default (C, English) locale. *)
Definition month_name : list (list N) :=
  [ u ""; u "January"; u "February"; u "March"; u "April"; u "May"; u "June";
    u "July"; u "August"; u "September"; u "October"; u "November";
    u "December" ].

(** [{month: index for index, month in enumerate(calendar.month_name) if month}] *)
Definition __MONTH_NAME_TO_NUM : gmap (list N) Z :=
  foldl (fun d (im : nat * list N) =>
           match im.2 with
           | [] => d
           | _ => <[im.2 := Z.of_nat im.1]> d
           end)
        ∅ (imap pair month_name).

(** *** [datetime.datetime(year, month, day)] *)

Record datetime : Type := { dt_year : Z; dt_month : Z; dt_day : Z }.

Definition is_leap (y : Z) : bool :=
  (y mod 4 =? 0) && (negb (y mod 100 =? 0) || (y mod 400 =? 0)).

Definition days_in_month (y m : Z) : Z :=
  if m =? 2 then (if is_leap y then 29 else 28)
  else if (m =? 4) || (m =? 6) || (m =? 9) || (m =? 11) then 30
  else 31.

Definition fits_c_int (n : Z) : bool := (- 2 ^ 31 <=? n) && (n <? 2 ^ 31).

(** The constructor converts its arguments to C [int]s, then checks the
    ranges: [MINYEAR = 1], [MAXYEAR = 9999]. *)
Definition new_datetime (year month day : Z) : res datetime :=
  if negb (fits_c_int year && fits_c_int month && fits_c_int day)
  then Raise OverflowError
  else if negb ((1 <=? year) && (year <=? 9999)) then Raise ValueError
  else if negb ((1 <=? month) && (month <=? 12)) then Raise ValueError
  else if negb ((1 <=? day) && (day <=? days_in_month year month))
  then Raise ValueError
  else Ok {| dt_year := year; dt_month := month; dt_day := day |}.

(** *** [time.mktime(dt.timetuple())] *)

Definition days_before_year (y : Z) : Z :=
  let p := y - 1 in p * 365 + p / 4 - p / 100 + p / 400.

Definition days_before_month (y m : Z) : Z :=
  foldr Z.add 0 (days_in_month y <$> (Z.of_nat <$> seq 1 (Z.to_nat (m - 1)))).

(** Proleptic Gregorian ordinal; 1 January of year 1 is day 1. *)
Definition toordinal (dt : datetime) : Z :=
  days_before_year (dt_year dt) + days_before_month (dt_year dt) (dt_month dt)
  + dt_day dt.

(** Seconds from 1970-01-01 00:00:00 to midnight of [dt], read on the same
    clock: hour, minute and second of the [datetime] are its defaults, 0. *)
Definition wall_seconds (dt : datetime) : Z := (toordinal dt - 719163) * 86400.

(** The time zone of the running process: the offset from UTC, in seconds
    east, that the platform's [mktime] applies to a local wall-clock time.
    Zone data stores offsets in 32 bits. *)
Class LocalZone : Type := {
  utcoffset : Z -> Z;
  utcoffset_range : forall w, - 2 ^ 31 < utcoffset w < 2 ^ 31
}.

(** [int(time.mktime(dt.timetuple()).real)].  The float that [mktime]
    returns is integral and exact at this magnitude, so [int] does not
    change it; every year 1..9999 is taken to be representable, as on a
    platform with a 64-bit [time_t]. *)
Definition mktime `{LocalZone} (dt : datetime) : Z :=
  wall_seconds dt - utcoffset (wall_seconds dt).

Definition __convert_to_local_unix_date_tamp `{LocalZone} (date_string : str) : res Z :=
  year_text ← py_index (PyStr.split date_string) 2;
  year ← PyStr.int year_text;
  month_text ← py_index (PyStr.split date_string) 0;
  month ← py_getitem __MONTH_NAME_TO_NUM month_text;
  day_text ← py_index (PyStr.split date_string) 1;
  day ← PyStr.int (PyStr.drop_last day_text);
  dt ← new_datetime year month day;
  Ok (mktime dt).

Definition get_character_release_date_stamp `{LocalZone}
    (character : gmap (list N) (list N)) : res Z :=
  match character !! RELEASE_DATE with
  | Some date_string => __convert_to_local_unix_date_tamp date_string
  | None => Ok maxsize
  end.

(** One turn of the grouping loop: [new_dict[stamp].append(character)] on a
    [defaultdict(list)]. *)
Definition group_step `{LocalZone}
    (acc : res (gmap Z (list (gmap (list N) (list N)))))
    (character : gmap (list N) (list N))
    : res (gmap Z (list (gmap (list N) (list N)))) :=
  new_dict ← acc;
  stamp ← get_character_release_date_stamp character;
  Ok (<[stamp := default [] (new_dict !! stamp) ++ [character]]> new_dict).

(** The loop runs over the values of the character map, in the order
    [values] lists them. *)
Definition __group_by_release_date_stamp `{LocalZone}
    (values : list (gmap (list N) (list N)))
    : res (gmap Z (list (gmap (list N) (list N)))) :=
  foldl group_step (Ok ∅) values.

Definition __sort_by_character_name_cn (characters : list (gmap (list N) (list N)))
    : res (list (gmap (list N) (list N))) :=
  py_sorted_by_key (fun character => py_getitem character (u "nameCn")) characters.

(** One turn of the loop that replaces every group by its sorted copy. *)
Definition sort_group_step (date_stamp : Z)
    (characters : list (gmap (list N) (list N)))
    (acc : res (gmap Z (list (gmap (list N) (list N)))))
    : res (gmap Z (list (gmap (list N) (list N)))) :=
  d ← acc;
  sorted ← __sort_by_character_name_cn characters;
  Ok (<[date_stamp := sorted]> d).

Definition sort_each_group (groups : gmap Z (list (gmap (list N) (list N))))
    : res (gmap Z (list (gmap (list N) (list N)))) :=
  map_fold sort_group_step (Ok groups) groups.

(** [get_character_info_json] up to the final [json.dumps]: the list it
    serialises, from the values of the character map. *)
Definition ordered_character_list `{LocalZone}
    (values : list (gmap (list N) (list N))) : res (list (gmap (list N) (list N))) :=
  grouped ← __group_by_release_date_stamp values;
  release_date_stamp_to_characters ← sort_each_group grouped;
  let release_date_stamps_in_order :=
    py_sort Z.leb (map_to_list release_date_stamp_to_characters).*1 in
  Ok (foldl (fun ordered release_timestamp =>
               ordered ++ default [] (release_date_stamp_to_characters !! release_timestamp))
            [] release_date_stamps_in_order).

(** [get_character_info_map], given what the two source modules return. *)
Definition get_character_info_map
    (character_info_cn character_info_en : gmap (list N) (gmap (list N) (list N)))
    : gmap (list N) (gmap (list N) (list N)) :=
  Merger._merge_by_dict_key character_info_cn character_info_en.

(** ** The order of the specification *)

(** The records of one release stamp, in the order of the input. *)
Definition members_at `{LocalZone} (stamp : Z)
    (values : list (gmap (list N) (list N))) : list (gmap (list N) (list N)) :=
  filter (fun r => get_character_release_date_stamp r = Ok stamp) values.

(** Ascending by the name attribute, code point by code point. *)
Definition name_le (r1 r2 : gmap (list N) (list N)) : Prop :=
  exists n1 n2, r1 !! u "nameCn" = Some n1 ∧ r2 !! u "nameCn" = Some n2
    ∧ PyStr.le n1 n2 = true.

(** Ascending by release stamp, ties ascending by name. *)
Definition timeline_le `{LocalZone} (r1 r2 : gmap (list N) (list N)) : Prop :=
  exists t1 t2, get_character_release_date_stamp r1 = Ok t1
    ∧ get_character_release_date_stamp r2 = Ok t2
    ∧ (t1 < t2 ∨ (t1 = t2 ∧ name_le r1 r2)).

(** China Standard Time, the zone of the docstrings: UTC+8, no DST. *)
#[global] Program Instance cst : LocalZone := {| utcoffset := fun _ => 28800 |}.
Next Obligation. intros; simpl; lia. Qed.

End Timeline.

(** Sample records for the examples below. *)
Module TimelineExamples.
Import Timeline.

Definition amber : gmap (list N) (list N) :=
  {[ u "nameCn" := u "Amber"; u "releaseDate" := u "September 28, 2020" ]}.
Definition barbara : gmap (list N) (list N) :=
  {[ u "nameCn" := u "Barbara"; u "releaseDate" := u "September 28, 2020" ]}.
Definition shenhe : gmap (list N) (list N) :=
  {[ u "nameCn" := u "Shenhe"; u "releaseDate" := u "January 05, 2022" ]}.
(** Announced, not released: known to the Chinese source only. *)
Definition layla : gmap (list N) (list N) :=
  {[ u "nameCn" := u "Aaa Layla"; u "titleCn" := u "Fantastical Evening Star" ]}.

(** A release date without the comma after the day. *)
Definition no_comma : gmap (list N) (list N) :=
  {[ u "nameCn" := u "Amber"; u "releaseDate" := u "September 28 2020" ]}.

(** What the Chinese and the English source return, keyed alike; the English
    source alone knows "Yae Miko", the Chinese source alone knows "Layla". *)
Definition source_cn : gmap (list N) (gmap (list N) (list N)) :=
  {[ u "Amber" := {[ u "nameCn" := u "Amber" ]};
     u "Layla" := layla ]}.
Definition source_en : gmap (list N) (gmap (list N) (list N)) :=
  {[ u "Amber" := {[ u "nameEn" := u "Amber";
                     u "releaseDate" := u "September 28, 2020" ]} ]}.
Definition yae_miko_en : gmap (list N) (list N) :=
  {[ u "nameEn" := u "Yae Miko"; u "releaseDate" := u "February 16, 2022" ]}.
Definition source_en_more : gmap (list N) (gmap (list N) (list N)) :=
  <[ u "Yae Miko" := yae_miko_en ]> source_en.

End TimelineExamples.

(** * PositionalTableDecoder and PeriodCatalog: [period_info.py] *)

Module Abyss.

Definition ENEMY_PAGE_URL_PREFIX : str := u "https://wiki.biligame.com".

(** The marker texts of the row headers: enemy level, first half, second
    half (the three Chinese literals of the source, as code points). *)
Definition LEVEL_MARKER : str := [24618; 29289; 31561; 32423]%N.
Definition FIRST_HALF : str := [19978; 21322]%N.
Definition SECOND_HALF : str := [19979; 21322]%N.

(** ** What the source reads from the parsed page *)

(** An [<a>] element: [link.get("title")], [link.get("href")] (each [None]
    when the attribute is missing) and [link.get_text()]. *)
Record Link : Type := {
  link_title : option (list N);
  link_href : option (list N);
  link_text : list N
}.

(** A [<td>] element: the text of [td.center] when there is a [<center>],
    and [td.find_all('a')] in document order. *)
Record Cell : Type := {
  cell_center : option (list N);
  cell_links : list Link
}.

(** A [<tr>] element: the text of [row.th] when the row has a header, and
    [row.td] when it has a data cell.  A tag is truthy whatever it holds, so
    [row.th] and [row.td] are true exactly when present. *)
Record Row : Type := {
  row_th : option (list N);
  row_td : option Cell
}.

Record EnemyInfo : Type := { nameCn : list N; biligameUrl : list N }.

Record Half : Type := { enemies : list EnemyInfo }.
Record Chamber : Type := { enemyLevel : Z; firstHalf : Half; secondHalf : Half }.
Record Floor : Type := { chamber1 : Chamber; chamber2 : Chamber; chamber3 : Chamber }.
Record PeriodInfo : Type := {
  floor9 : Floor; floor10 : Floor; floor11 : Floor; floor12 : Floor
}.

#[export] Instance Link_eq_dec : EqDecision Link.
Proof. solve_decision. Defined.
#[export] Instance Cell_eq_dec : EqDecision Cell.
Proof. solve_decision. Defined.
#[export] Instance EnemyInfo_eq_dec : EqDecision EnemyInfo.
Proof. solve_decision. Defined.

(** [obj.attr] where [obj] may be [None]. *)
Definition py_attr {A} (o : option A) : res A :=
  match o with
  | Some x => Ok x
  | None => Raise AttributeError
  end.

Definition header_has (marker : str) (row : Row) : bool :=
  match row_th row with
  | Some header => PyStr.contains marker header
  | None => false
  end.

(** ** Row scans *)

(** ["Lv.95"] becomes [95]: [int(row.td.center.get_text().split(".")[1])] *)
Definition level_of_row (row : Row) : res Z :=
  td ← py_attr (row_td row);
  center ← py_attr (cell_center td);
  piece ← py_index (PyStr.split_on 46 center) 1;
  PyStr.int piece.

Fixpoint __get_enemy_levels_in_order (all_current_period_wikitable_rows : list Row)
    : res (list Z) :=
  match all_current_period_wikitable_rows with
  | [] => Ok []
  | row :: rows =>
      if header_has LEVEL_MARKER row
      then level ← level_of_row row;
           levels ← __get_enemy_levels_in_order rows;
           Ok (level :: levels)
      else __get_enemy_levels_in_order rows
  end.

Fixpoint __get_halves_in_order (half : str)
    (all_current_period_wikitable_rows : list Row) : list Cell :=
  match all_current_period_wikitable_rows with
  | [] => []
  | row :: rows =>
      match row_td row with
      | Some td =>
          if header_has half row
          then td :: __get_halves_in_order half rows
          else __get_halves_in_order half rows
      | None => __get_halves_in_order half rows
      end
  end.

(** ** Enemy extraction *)

Definition __deduplicated_enemy_info (enemy_info : list EnemyInfo) : list EnemyInfo :=
  (foldl (fun (st : gset (list N) * list EnemyInfo) info =>
            let '(existing_name_cn, deduplicated_enemy_info) := st in
            if decide (nameCn info ∈ existing_name_cn)
            then st
            else ({[ nameCn info ]} ∪ existing_name_cn,
                  deduplicated_enemy_info ++ [info]))
         (∅, []) enemy_info).2.

Section Extraction.

(** [urllib.parse.unquote], a total function on strings. *)
Variable unquote : list N -> list N.

(** The dict built for one kept link. *)
Definition enemy_info_of (title : list N) (href : list N) : EnemyInfo :=
  {| nameCn := title; biligameUrl := unquote (ENEMY_PAGE_URL_PREFIX ++ href) |}.

(** The loop over [single_half.find_all('a')]: a link is kept when
    [link.get("title") == link.get_text()], which a missing title ([None])
    never satisfies; [PREFIX + link.get("href")] is a [TypeError] when the
    kept link has no [href]. *)
Fixpoint collect_enemy_info (links : list Link) : res (list EnemyInfo) :=
  match links with
  | [] => Ok []
  | link :: rest =>
      match link_title link with
      | Some title =>
          if decide (title = link_text link)
          then match link_href link with
               | Some href =>
                   infos ← collect_enemy_info rest;
                   Ok (enemy_info_of title href :: infos)
               | None => Raise TypeError
               end
          else collect_enemy_info rest
      | None => collect_enemy_info rest
      end
  end.

Definition __extract_enemy_info (single_half : Cell) : res (list EnemyInfo) :=
  enemy_info ← collect_enemy_info (cell_links single_half);
  Ok (__deduplicated_enemy_info enemy_info).

(** ** Assembly of one period *)

(** One chamber literal of the source: the three subscripts it writes. *)
Definition chamber_of (enemy_levels_in_order : list Z)
    (first_halves_enemy_info_in_order second_halves_enemy_info_in_order : list (list EnemyInfo))
    (i_level i_first i_second : nat) : res Chamber :=
  level ← py_index enemy_levels_in_order i_level;
  first ← py_index first_halves_enemy_info_in_order i_first;
  second ← py_index second_halves_enemy_info_in_order i_second;
  Ok {| enemyLevel := level;
        firstHalf := {| enemies := first |};
        secondHalf := {| enemies := second |} |}.

Definition assemble_period (levels : list Z) (firsts seconds : list (list EnemyInfo))
    : res PeriodInfo :=
  f9c1 ← chamber_of levels firsts seconds 0 0 0;
  f9c2 ← chamber_of levels firsts seconds 1 1 1;
  f9c3 ← chamber_of levels firsts seconds 2 2 2;
  f10c1 ← chamber_of levels firsts seconds 3 3 3;
  f10c2 ← chamber_of levels firsts seconds 4 4 4;
  f10c3 ← chamber_of levels firsts seconds 5 5 5;
  f11c1 ← chamber_of levels firsts seconds 6 6 6;
  f11c2 ← chamber_of levels firsts seconds 7 7 7;
  f11c3 ← chamber_of levels firsts seconds 8 8 8;
  f12c1 ← chamber_of levels firsts seconds 9 9 9;
  f12c2 ← chamber_of levels firsts seconds 10 10 10;
  f12c3 ← chamber_of levels firsts seconds 11 11 11;
  Ok {| floor9 := {| chamber1 := f9c1; chamber2 := f9c2; chamber3 := f9c3 |};
        floor10 := {| chamber1 := f10c1; chamber2 := f10c2; chamber3 := f10c3 |};
        floor11 := {| chamber1 := f11c1; chamber2 := f11c2; chamber3 := f11c3 |};
        floor12 := {| chamber1 := f12c1; chamber2 := f12c2; chamber3 := f12c3 |} |}.

(** [__get_period_info] from the rows of the period on: everything after
    [__get_all_wikitable_rows_by_period_id]. *)
Definition decode (all_wikitable_rows : list Row) : res PeriodInfo :=
  let first_halves_in_order := __get_halves_in_order FIRST_HALF all_wikitable_rows in
  let second_halves_in_order := __get_halves_in_order SECOND_HALF all_wikitable_rows in
  first_halves_enemy_info_in_order ← res_map __extract_enemy_info first_halves_in_order;
  second_halves_enemy_info_in_order ← res_map __extract_enemy_info second_halves_in_order;
  enemy_levels_in_order ← __get_enemy_levels_in_order all_wikitable_rows;
  assemble_period enemy_levels_in_order
    first_halves_enemy_info_in_order second_halves_enemy_info_in_order.

(** ** The period catalogue and its page fetches *)

(** The parsed listing page, as [__get_all_wikitable_rows_by_period_id] reads
    it: the rows of the four floors that follow the [<span>] with a given id;
    [None] when no such [<span>] exists. *)
Definition Page : Type := list N -> option (list Row).

(** The remote site: the page it serves to the [n]-th request. *)
Variable site : nat -> Page.

(** A computation that may issue HTTP requests: it threads the number of
    requests issued so far, which an exception does not roll back. *)
Definition io (A : Type) : Type := nat -> res A * nat.

Definition io_ret {A} (a : A) : io A := fun n => (Ok a, n).
Definition io_bind {A B} (m : io A) (k : A -> io B) : io B :=
  fun n => match m n with
           | (Ok a, n') => k a n'
           | (Raise e, n') => (Raise e, n')
           end.
Definition io_lift {A} (r : res A) : io A := fun n => (r, n).

(** [BeautifulSoup(requests.get(URL).content, "html.parser")] *)
Definition fetch_period_page : io Page := fun n => (Ok (site n), S n).

Definition __get_all_wikitable_rows_by_period_id (period_page : Page)
    (period_id : str) : res (list Row) :=
  py_attr (period_page period_id).

Definition __get_period_info (period_id : str) : io PeriodInfo :=
  io_bind fetch_period_page (fun period_page =>
  io_bind (io_lift (__get_all_wikitable_rows_by_period_id period_page period_id))
    (fun all_wikitable_rows =>
  io_lift (decode all_wikitable_rows))).

(** One entry of [periods.json]. *)
Record PeriodConfig : Type := { period : list N; periodKey : list N }.

(** [{period["period"]: __get_period_info(period["periodKey"]) for period in periods}] *)
Fixpoint build_catalog (periods : list PeriodConfig)
    (acc : gmap (list N) PeriodInfo) : io (gmap (list N) PeriodInfo) :=
  match periods with
  | [] => io_ret acc
  | p :: rest =>
      io_bind (__get_period_info (periodKey p)) (fun info =>
      build_catalog rest (<[period p := info]> acc))
  end.

Definition get_period_info_map (periods : list PeriodConfig)
    : io (gmap (list N) PeriodInfo) :=
  build_catalog periods ∅.

End Extraction.

(** ** The slot order of the specification *)

Definition floor_of (p : PeriodInfo) (floor : nat) : option Floor :=
  match floor with
  | 9%nat => Some (floor9 p)
  | 10%nat => Some (floor10 p)
  | 11%nat => Some (floor11 p)
  | 12%nat => Some (floor12 p)
  | _ => None
  end.

Definition chamber_in (f : Floor) (chamber : nat) : option Chamber :=
  match chamber with
  | 1%nat => Some (chamber1 f)
  | 2%nat => Some (chamber2 f)
  | 3%nat => Some (chamber3 f)
  | _ => None
  end.

(** [period_info["floor<f>"]["chamber<c>"]] *)
Definition slot (p : PeriodInfo) (floor chamber : nat) : option Chamber :=
  f ← floor_of p floor; chamber_in f chamber.

(** The rows that carry the enemy-level marker: one level entry each. *)
Definition level_rows (rows : list Row) : list Row :=
  filter (fun row => header_has LEVEL_MARKER row = true) rows.

(** ** The half enemy list as the specification words it *)

(** A link counts as an entity link when its visible text equals its title. *)
Definition is_entity_link (link : Link) : Prop :=
  link_title link = Some (link_text link).

#[export] Instance is_entity_link_dec link : Decision (is_entity_link link).
Proof. unfold is_entity_link. apply _. Defined.

(** Deduplication by name, first occurrence wins: keep the head, drop every
    later entry of the same name, go on. *)
Fixpoint first_seen (l : list EnemyInfo) : list EnemyInfo :=
  match l with
  | [] => []
  | x :: l' => x :: filter (fun y => nameCn y ≠ nameCn x) (first_seen l')
  end.

End Abyss.

(** Sample pages for the examples below. *)
Module AbyssExamples.
Import Abyss.

Definition enemy_link (name : string) : Link :=
  {| link_title := Some (u name);
     link_href := Some (u "/ys/" ++ u name);
     link_text := u name |}.

Definition enemy_link_info (name : string) : EnemyInfo :=
  {| nameCn := u name; biligameUrl := u "https://wiki.biligame.com/ys/" ++ u name |}.

(** A link whose title differs from its text, as icons and notes have. *)
Definition note_link (title text : string) : Link :=
  {| link_title := Some (u title);
     link_href := Some (u "/ys/" ++ u title);
     link_text := u text |}.

Definition level_row (level : string) : Row :=
  {| row_th := Some LEVEL_MARKER;
     row_td := Some {| cell_center := Some (u level); cell_links := [] |} |}.

Definition half_row (marker : list N) (links : list Link) : Row :=
  {| row_th := Some marker;
     row_td := Some {| cell_center := None; cell_links := links |} |}.

(** A header without a data cell, as the wide layouts of the page render. *)
Definition bare_header (marker : list N) : Row :=
  {| row_th := Some marker; row_td := None |}.

Definition chamber_rows (level : string) : list Row :=
  [ level_row level;
    half_row FIRST_HALF
      [ enemy_link "Hilichurl"; note_link "Hilichurl" "x2"; enemy_link "Hilichurl" ];
    half_row SECOND_HALF [ enemy_link "Slime"; enemy_link "Hilichurl" ] ].

Definition the_levels : list string :=
  [ "Lv.72"; "Lv.74"; "Lv.76"; "Lv.80"; "Lv.82"; "Lv.85";
    "Lv.88"; "Lv.90"; "Lv.92"; "Lv.95"; "Lv.98"; "Lv.100" ]%string.

Definition sample_rows : list Row := concat (chamber_rows <$> the_levels).

(** The same period with one level row too many. *)
Definition rows_13_levels : list Row := sample_rows ++ [level_row "Lv.105"].

(** The same period with a thirteenth first-half cell, whose link has no
    [href]. *)
Definition rows_13th_half_broken : list Row :=
  sample_rows
  ++ [ half_row FIRST_HALF
         [ {| link_title := Some (u "Slime"); link_href := None;
              link_text := u "Slime" |} ] ].

(** The same period with the last level row missing. *)
Definition rows_11_levels : list Row :=
  concat (chamber_rows <$> take 11 the_levels)
  ++ [ half_row FIRST_HALF [enemy_link "Hilichurl"];
       half_row SECOND_HALF [enemy_link "Slime"] ].

Definition duplicated_cell : Cell :=
  {| cell_center := None;
     cell_links := [ enemy_link "Hilichurl"; note_link "Hilichurl" "x2";
                     enemy_link "Slime"; enemy_link "Hilichurl" ] |}.

(** A site that serves the sample period under every id, to every request. *)
Definition sample_site : nat -> Page := fun _ _ => Some sample_rows.

Definition two_periods : list PeriodConfig :=
  [ {| period := u "July 16, 2022 - September 1, 2022"; periodKey := u "p1" |};
    {| period := u "September 1, 2022 - October 16, 2022"; periodKey := u "p2" |} ].

End AbyssExamples.

(** * Further definitions *)

Module AbyssMore.
Import Abyss.

(** A row that one of the three scans looks at. *)
Definition relevant (row : Row) : bool :=
  header_has LEVEL_MARKER row || header_has FIRST_HALF row
  || header_has SECOND_HALF row.

(** What [__get_period_info] makes of one parsed page. *)
Definition period_of_page (unquote : list N -> list N) (page : Page)
    (period_id : list N) : res PeriodInfo :=
  rows ← __get_all_wikitable_rows_by_period_id page period_id;
  decode unquote rows.

(** The text of a decimal numeral from its digits, most significant first,
    and the number it denotes. *)
Definition numeral (ds : list N) : list N := (fun d => (d + 48)%N) <$> ds.
Definition numeral_value (ds : list N) : Z :=
  foldl (fun acc d => 10 * acc + Z.of_N d) 0 ds.

End AbyssMore.

Module AbyssMoreExamples.
Import Abyss AbyssExamples.

(** A site whose page loses the period's anchor after the first request. *)
Definition failing_site : nat -> Page :=
  fun n => match n with
           | O => fun _ => Some sample_rows
           | S _ => fun _ => None
           end.

End AbyssMoreExamples.

(** * The two sources: [character_info_cn.py] and [character_info_en.py] *)

(** A [<td>] of a character listing: its text, and its first link when it
    has one, as the link's [href] ([None] when the attribute is missing). *)
Record Column : Type := {
  column_text : list N;
  column_a : option (option (list N))
}.

Module SourceCn.

Definition CHARACTER_PAGE_URL_PREFIX : str := u "https://wiki.biligame.com".

(** The two header texts of a character page: title and element. *)
Definition TITLE_MARKER : str := [31216; 21495]%N.
Definition VISION_MARKER : str := [20803; 32032; 23646; 24615]%N.

Section PageUrls.

Variable unquote : list N -> list N.

(** One turn of the loop over the listing's rows; [columns] is
    [character.find_all("td")]. *)
Definition page_url_step
    (acc : res (gmap (list N) (gmap (list N) (list N))))
    (columns : list Column) : res (gmap (list N) (gmap (list N) (list N))) :=
  character_page_urls ← acc;
  column ← py_index columns 1;
  let character_name_cn := PyStr.strip (column_text column) in
  match column_a column with
  | Some a =>
      href ← match a with Some href => Ok href | None => Raise TypeError end;
      Ok (<[character_name_cn :=
              {[ u "biligameUrl" := unquote (CHARACTER_PAGE_URL_PREFIX ++ href) ]}]>
            character_page_urls)
  | None => Ok character_page_urls
  end.

(** [listing] is the list of rows of the listing table's body, [None] when
    the page has no such table; [characters.pop(0)] drops the header row and
    raises on an empty list. *)
Definition __get_character_page_urls (listing : option (list (list Column)))
    : res (gmap (list N) (gmap (list N) (list N))) :=
  characters ← Abyss.py_attr listing;
  match characters with
  | [] => Raise IndexError
  | _ :: characters => foldl page_url_step (Ok ∅) characters
  end.

(** [{k: {"nameCn": k} for k, v in urls.items()}] *)
Definition names_of (urls : gmap (list N) (gmap (list N) (list N)))
    : gmap (list N) (gmap (list N) (list N)) :=
  map_imap (fun k _ => Some {[ u "nameCn" := k ]}) urls.

Definition __get_character_names (listing : option (list (list Column)))
    : res (gmap (list N) (gmap (list N) (list N))) :=
  urls ← __get_character_page_urls listing; Ok (names_of urls).

End PageUrls.

(** A row of a character page's tables: [row.th.text] when the row has a
    header, [row.td.get_text()] when it has a data cell. *)
Record InfoRow : Type := {
  info_th : option (list N);
  info_td : option (list N)
}.

(** [row.th and row.th.text and marker in row.th.text] *)
Definition info_header_has (marker : list N) (row : InfoRow) : bool :=
  match info_th row with
  | Some [] => false
  | Some text => PyStr.contains marker text
  | None => false
  end.

Definition identity_step (acc : res (gmap (list N) (list N))) (row : InfoRow)
    : res (gmap (list N) (list N)) :=
  meta_info ← acc;
  meta_info ←
    (if info_header_has TITLE_MARKER row
     then td ← Abyss.py_attr (info_td row);
          Ok (<[u "titleCn" := PyStr.strip td]> meta_info)
     else Ok meta_info);
  if info_header_has VISION_MARKER row
  then td ← Abyss.py_attr (info_td row);
       first ← py_index (PyStr.strip td) 0;
       Ok (<[u "visionCn" := [first]]> meta_info)
  else Ok meta_info.

Definition __get_identity_info (all_wikitable_rows : list InfoRow)
    : res (gmap (list N) (list N)) :=
  foldl identity_step (Ok ∅) all_wikitable_rows.

(** The merge that ends [_get_character_info]. *)
Definition assemble_character_info
    (character_names character_titles character_page_urls
       : gmap (list N) (gmap (list N) (list N)))
    : gmap (list N) (gmap (list N) (list N)) :=
  Merger._merge_by_dict_key
    (Merger._merge_by_dict_key character_names character_titles)
    character_page_urls.

End SourceCn.

Module SourceEn.

Definition WIKI_CHARACTER_PAGE_URL_PREFIX : str :=
  u "https://genshin-impact.fandom.com".

Definition page_url_step
    (acc : res (gmap (list N) (gmap (list N) (list N))))
    (columns : list Column) : res (gmap (list N) (gmap (list N) (list N))) :=
  character_page_urls ← acc;
  column ← py_index columns 1;
  let character_name_en := PyStr.strip (column_text column) in
  match column_a column with
  | Some a =>
      href ← match a with Some href => Ok href | None => Raise TypeError end;
      Ok (<[character_name_en :=
              {[ u "fandomUrl" := WIKI_CHARACTER_PAGE_URL_PREFIX ++ href ]}]>
            character_page_urls)
  | None => Ok character_page_urls
  end.

(** [tables] are the character tables of the listing page, each as the rows
    of its body ([None] without a body).  The loop over the tables ends with
    [break]: only the first table is read. *)
Definition __get_character_page_urls
    (tables : list (option (list (list Column))))
    : res (gmap (list N) (gmap (list N) (list N))) :=
  match tables with
  | [] => Ok ∅
  | table :: _ =>
      characters ← Abyss.py_attr table;
      match characters with
      | [] => Raise IndexError
      | _ :: characters => foldl page_url_step (Ok ∅) characters
      end
  end.

(** [{name: {"nameEn": name} for name in urls.keys()}] *)
Definition names_of (urls : gmap (list N) (gmap (list N) (list N)))
    : gmap (list N) (gmap (list N) (list N)) :=
  map_imap (fun name _ => Some {[ u "nameEn" := name ]}) urls.

(** [__get_character_metadata], from the title and the release date read
    off each character page. *)
Definition metadata_of (facts : gmap (list N) (list N * list N))
    : gmap (list N) (gmap (list N) (list N)) :=
  (fun fact => {[ u "titleEn" := fact.1; u "releaseDate" := fact.2 ]}) <$> facts.

(** One turn of the loop that re-keys the records by Chinese name. *)
Definition rekey_step (character_names_cn : gmap (list N) (list N))
    (name_en : list N) (character_info : gmap (list N) (list N))
    (acc : res (gmap (list N) (gmap (list N) (list N))))
    : res (gmap (list N) (gmap (list N) (list N))) :=
  character_info_with_cn_name_key ← acc;
  name_cn ← py_getitem character_names_cn name_en;
  Ok (<[name_cn := character_info]> character_info_with_cn_name_key).

Definition rekey_by_cn_name (character_names_cn : gmap (list N) (list N))
    (character_info_with_en_name_key : gmap (list N) (gmap (list N) (list N)))
    : res (gmap (list N) (gmap (list N) (list N))) :=
  map_fold (rekey_step character_names_cn) (Ok ∅) character_info_with_en_name_key.

(** The end of [_get_character_info]: merge, then re-key. *)
Definition assemble_character_info
    (character_names character_metadata character_page_urls
       : gmap (list N) (gmap (list N) (list N)))
    (character_names_cn : gmap (list N) (list N))
    : res (gmap (list N) (gmap (list N) (list N))) :=
  rekey_by_cn_name character_names_cn
    (Merger._merge_by_dict_key
       (Merger._merge_by_dict_key character_names character_metadata)
       character_page_urls).

End SourceEn.

Module SourceExamples.

Definition listing_cn : option (list (list Column)) :=
  Some [ [ {| column_text := u "icon"; column_a := None |};
           {| column_text := u "name"; column_a := None |} ];
         [ {| column_text := u ""; column_a := None |};
           {| column_text := u " Amber "; column_a := Some (Some (u "/ys/Amber")) |} ];
         [ {| column_text := u ""; column_a := None |};
           {| column_text := u "Layla"; column_a := Some (Some (u "/ys/Layla")) |} ];
         [ {| column_text := u ""; column_a := None |};
           {| column_text := u "Traveler"; column_a := None |} ] ].

Definition amber_rows : list SourceCn.InfoRow :=
  [ {| SourceCn.info_th := Some SourceCn.TITLE_MARKER;
       SourceCn.info_td := Some (u " Gliding Champion ") |};
    {| SourceCn.info_th := Some SourceCn.VISION_MARKER;
       SourceCn.info_td := Some (u "Pyro element") |};
    {| SourceCn.info_th := None; SourceCn.info_td := Some (u "other") |} ].

Definition urls_en : gmap (list N) (gmap (list N) (list N)) :=
  {[ u "Amber" := {[ u "fandomUrl" := u "https://genshin-impact.fandom.com/wiki/Amber" ]};
     u "Yae Miko" := {[ u "fandomUrl" := u "https://genshin-impact.fandom.com/wiki/Yae_Miko" ]} ]}.

Definition facts_en : gmap (list N) (list N * list N) :=
  {[ u "Amber" := (u "Gliding Champion", u "September 28, 2020");
     u "Yae Miko" := (u "Astute Amusement", u "February 16, 2022") ]}.

Definition tables_en : list (option (list (list Column))) :=
  [ Some [ [ {| column_text := u "icon"; column_a := None |};
             {| column_text := u "name"; column_a := None |} ];
           [ {| column_text := u ""; column_a := None |};
             {| column_text := u "Amber";
                column_a := Some (Some (u "/wiki/Amber")) |} ];
           [ {| column_text := u ""; column_a := None |};
             {| column_text := u "Yae Miko ";
                column_a := Some (Some (u "/wiki/Yae_Miko")) |} ] ];
    None ].

(** What the English source returns for these pages. *)
Definition info_en : gmap (list N) (gmap (list N) (list N)) :=
  {[ u "Anbo" :=
       {[ u "nameEn" := u "Amber"; u "titleEn" := u "Gliding Champion";
          u "releaseDate" := u "September 28, 2020";
          u "fandomUrl" := u "https://genshin-impact.fandom.com/wiki/Amber" ]};
     u "Bachong Shenzi" :=
       {[ u "nameEn" := u "Yae Miko"; u "titleEn" := u "Astute Amusement";
          u "releaseDate" := u "February 16, 2022";
          u "fandomUrl" := u "https://genshin-impact.fandom.com/wiki/Yae_Miko" ]} ]}.

(** The Chinese source lists Amber only. *)
Definition info_cn : gmap (list N) (gmap (list N) (list N)) :=
  {[ u "Anbo" := {[ u "nameCn" := u "Anbo";
                    u "biligameUrl" := u "https://wiki.biligame.com/ys/Anbo" ]} ]}.

(** English name to Chinese name (romanised here). *)
Definition names_cn : gmap (list N) (list N) :=
  {[ u "Amber" := u "Anbo"; u "Yae Miko" := u "Bachong Shenzi" ]}.

End SourceExamples.

(** ** What the listing loops compute, for the statements below *)

Module SourceSpec.

(** The name and the [href] a listing row contributes: those of its second
    cell, when that cell holds a link. *)
Definition linked (columns : list Column) : option (list N * list N) :=
  column ← columns !! 1%nat;
  a ← column_a column;
  href ← a;
  Some (PyStr.strip (column_text column), href).

(** The last entry of a name among the contributions of the rows. *)
Definition last_linked (name : list N) (rows : list (list Column))
    : option (list N * list N) :=
  last (filter (fun p => p.1 = name) (omap linked rows)).

(** The listing loop with the record it stores left open. *)
Definition url_step_with (mk : list N -> gmap (list N) (list N))
    (acc : res (gmap (list N) (gmap (list N) (list N))))
    (columns : list Column) : res (gmap (list N) (gmap (list N) (list N))) :=
  character_page_urls ← acc;
  column ← py_index columns 1;
  match column_a column with
  | Some a =>
      href ← match a with Some href => Ok href | None => Raise TypeError end;
      Ok (<[PyStr.strip (column_text column) := mk href]> character_page_urls)
  | None => Ok character_page_urls
  end.

(** The title and the element a character-page row contributes. *)
Definition title_of (row : SourceCn.InfoRow) : option (list N) :=
  if SourceCn.info_header_has SourceCn.TITLE_MARKER row
  then PyStr.strip <$> SourceCn.info_td row
  else None.

Definition vision_of (row : SourceCn.InfoRow) : option (list N) :=
  if SourceCn.info_header_has SourceCn.VISION_MARKER row
  then td ← SourceCn.info_td row;
       first ← head (PyStr.strip td);
       Some [first]
  else None.

End SourceSpec.

Module TimelineMore.
Import Timeline.

(** Earlier in the calendar: by year, then month, then day. *)
Definition date_lt (a b : datetime) : Prop :=
  dt_year a < dt_year b
  ∨ (dt_year a = dt_year b
     ∧ (dt_month a < dt_month b
        ∨ (dt_month a = dt_month b ∧ dt_day a < dt_day b))).

End TimelineMore.


(** * Enemy base resistance: [genshin_impact/enemy/resistance.py] *)

Module Resistance.

(** A child of a table cell: a text node, or an element of which only the
    text below it matters here. *)
Inductive Node : Type :=
  | Text (s : list N)
  | Element (text : list N).

#[global] Instance Node_eq_dec : EqDecision Node.
Proof. solve_decision. Defined.

Definition node_text (n : Node) : list N :=
  match n with
  | Text s => s
  | Element text => text
  end.

(** A cell is the list of its children; [get_text()] joins the strings
    below it. *)
Definition get_text (cell : list Node) : list N := concat (node_text <$> cell).

(** A [tr]: its [th] cells ([row.find_all("th")]) and its [td] cells
    ([row.find_all("td")]), in document order. *)
Record Tr : Type := {
  tr_th : list (list Node);
  tr_td : list (list Node);
}.

(** A [tbody] is the list [tbody.find_all("tr")] of its rows; a table is the
    list [table.findChildren('tbody')] of its bodies. *)

(** The marker of the resistance table, "抗性". *)
Definition RESISTANCE_MARKER : list N := [25239; 24615]%N.

(** [[item for sublist in nested_tbodies for item in sublist]] over the
    tables of the page classed "wikitable gw-table-kd". *)
Definition __get_all_tbodies_element (all_tables : list (list (list Tr)))
    : list (list Tr) :=
  concat all_tables.

(** [[column.get_text().strip() for column in cells]] *)
Definition stripped_texts (cells : list (list Node)) : list (list N) :=
  (fun column => PyStr.strip (get_text column)) <$> cells.

(** One turn of the loop over [enumerate(tbody.find_all("tr"))]. *)
Definition scan_row (st : list (list N) * list (list N)) (p : nat * Tr)
    : list (list N) * list (list N) :=
  let resistance_types :=
    if bool_decide (p.1 = 1%nat) then stripped_texts (tr_th p.2) else st.1 in
  let base_resistance_values :=
    if bool_decide (p.1 = 2%nat) then stripped_texts (tr_td p.2) else st.2 in
  (resistance_types, base_resistance_values).

(** [dict(pairs)]: the pairs are stored in order, a later one replacing an
    earlier one with the same key. *)
Definition py_dict (pairs : list (list N * list N)) : gmap (list N) (list N) :=
  foldl (fun d p => <[p.1 := p.2]> d) ∅ pairs.

Definition __parse_base_resistance_info (tbody : list Tr) : gmap (list N) (list N) :=
  let st := foldl scan_row ([], []) (imap pair tbody) in
  py_dict (zip st.1 st.2).

(** The test [if "抗性" in tbody.find("tr").th]: [find("tr")] is [None] on a
    body without rows and [None.th] raises; [.th] is [None] on a row without
    header cell and [in None] raises; on a cell, [in] looks for a child equal
    to the string, which only a text node can be. *)
Definition is_resistance_tbody (tbody : list Tr) : res bool :=
  match tbody with
  | [] => Raise AttributeError
  | tr :: _ =>
      match tr_th tr with
      | [] => Raise TypeError
      | th :: _ => Ok (bool_decide (Text RESISTANCE_MARKER ∈ th))
      end
  end.

(** The loop of [get_base_resistance_info]; falling off its end returns
    [None]. *)
Fixpoint first_resistance_info (all_tbody_elements : list (list Tr))
    : res (option (gmap (list N) (list N))) :=
  match all_tbody_elements with
  | [] => Ok None
  | tbody :: rest =>
      found ← is_resistance_tbody tbody;
      if (found : bool) then Ok (Some (__parse_base_resistance_info tbody))
      else first_resistance_info rest
  end.

(** [site url] is the list of the tables classed "wikitable gw-table-kd" of
    the page served at [url]. *)
Definition get_base_resistance_info (site : list N -> list (list (list Tr)))
    (enemy_page_url : list N) : res (option (gmap (list N) (list N))) :=
  first_resistance_info (__get_all_tbodies_element (site enemy_page_url)).

(** The first header cell of the first row of a body, if there is one. *)
Definition first_header (tbody : list Tr) : option (list Node) :=
  tbody !! 0%nat ≫= fun tr => tr_th tr !! 0%nat.

(** The marker is one of the children of the first header cell. *)
Definition marked (tbody : list Tr) : Prop :=
  exists th, first_header tbody = Some th ∧ Text RESISTANCE_MARKER ∈ th.

(** There is a first header cell and the marker is none of its children. *)
Definition unmarked (tbody : list Tr) : Prop :=
  exists th, first_header tbody = Some th ∧ Text RESISTANCE_MARKER ∉ th.

End Resistance.

Module ResistanceExamples.
Import Resistance.

(** The table of the docstring, with three elements and one value short. *)
Definition header_row : Tr :=
  {| tr_th := [[Text RESISTANCE_MARKER; Element (u "[2]")]]; tr_td := [] |}.
Definition types_row : Tr :=
  {| tr_th := [[Element []; Text (u " phys")];
               [Element []; Text (u " "); Element (u "pyro")];
               [Element []; Text (u " "); Element (u "hydro")]];
     tr_td := [] |}.
Definition values_row : Tr :=
  {| tr_th := [];
     tr_td := [[Text (u "10%")]; [Element (u "inf")]] |}.
Definition hidden_row : Tr := {| tr_th := []; tr_td := [[]] |}.

Definition slime_tbody : list Tr := [header_row; types_row; values_row; hidden_row].

(** A body whose header reads " 抗性": the text contains the marker, no
    child is the marker. *)
Definition padded_tbody : list Tr :=
  [{| tr_th := [[Text (32%N :: RESISTANCE_MARKER)]]; tr_td := [] |};
   types_row; values_row].

Definition other_tbody : list Tr :=
  [{| tr_th := [[Text (u "drops")]]; tr_td := [] |}].

End ResistanceExamples.

(** * Theorems *)

Section MergerFacts.
Import Merger.

Implicit Types (a b c : gmap (list N) (list N)).
Implicit Types (A B C : gmap (list N) (gmap (list N) (list N))).

Lemma copy_items_union a b : copy_items a b = a ∪ b.
Proof.
  unfold copy_items.
  apply (map_fold_weak_ind (fun r m => r = m ∪ b)).
  - by rewrite (left_id_L ∅ (∪)).
  - intros k v m r _ ->. by rewrite insert_union_l.
Qed.

Lemma merged_value_overlay A B k :
  is_Some (A !! k) ∨ is_Some (B !! k) ->
  Some (merged_value A B k) = overlay (A !! k) (B !! k).
Proof.
  unfold merged_value, overlay.
  destruct (A !! k) as [a|], (B !! k) as [b|]; rewrite ?copy_items_union.
  - by rewrite (right_id_L ∅ (∪)).
  - by rewrite (right_id_L ∅ (∪)).
  - by rewrite (right_id_L ∅ (∪)).
  - intros [[? [=]]|[? [=]]].
Qed.

Lemma elem_of_key_superset A B k :
  k ∈ (list_to_set ((map_to_list A).*1 ++ (map_to_list B).*1) : gset (list N))
  <-> is_Some (A !! k) ∨ is_Some (B !! k).
Proof.
  assert (Hfst : forall M : gmap (list N) (gmap (list N) (list N)),
            k ∈ (map_to_list M).*1 <-> is_Some (M !! k)).
  { intros M. rewrite list_elem_of_fmap. split.
    - intros [[k' v] [-> Hin]]. apply elem_of_map_to_list in Hin. by exists v.
    - intros [v Hv]. exists (k, v). by rewrite elem_of_map_to_list. }
  by rewrite elem_of_list_to_set, elem_of_app, !Hfst.
Qed.

Lemma merge_fold_lookup A B :
  forall X : gset (list N),
  (forall k, k ∈ X -> is_Some (A !! k) ∨ is_Some (B !! k)) ->
  forall k,
    set_fold (fun key merged_map => <[key := merged_value A B key]> merged_map)
      (∅ : gmap (list N) (gmap (list N) (list N))) X !! k
    = if decide (k ∈ X) then overlay (A !! k) (B !! k) else None.
Proof.
  apply (set_fold_ind_L
    (fun (acc : gmap (list N) (gmap (list N) (list N))) (Y : gset (list N)) =>
       (forall k, k ∈ Y -> is_Some (A !! k) ∨ is_Some (B !! k)) ->
       forall k, acc !! k
         = if decide (k ∈ Y) then overlay (A !! k) (B !! k) else None)).
  - intros _ k. rewrite lookup_empty. case_decide as Hk; [|done].
    by apply not_elem_of_empty in Hk.
  - intros x Y acc Hx IH HY k.
    assert (HY' : forall k, k ∈ Y -> is_Some (A !! k) ∨ is_Some (B !! k)).
    { intros y Hy. by apply HY, elem_of_union_r. }
    destruct (decide (x = k)) as [->|Hne].
    + rewrite lookup_insert_eq.
      rewrite decide_True by (by apply elem_of_union_l, elem_of_singleton).
      apply merged_value_overlay, HY. by apply elem_of_union_l, elem_of_singleton.
    + rewrite lookup_insert_ne by done. rewrite (IH HY').
      apply decide_ext. rewrite elem_of_union, elem_of_singleton.
      split; [auto|]. by intros [->|].
Qed.

Lemma merge_lookup A B k :
  _merge_by_dict_key A B !! k = overlay (A !! k) (B !! k).
Proof.
  unfold _merge_by_dict_key.
  rewrite merge_fold_lookup by (intros k'; apply elem_of_key_superset).
  case_decide as Hk; [done|].
  rewrite elem_of_key_superset in Hk.
  destruct (A !! k), (B !! k); try done; exfalso; apply Hk; eauto.
Qed.

End MergerFacts.

Section MergerClaims.
Import Merger.

Implicit Types (a b c : gmap (list N) (list N)).
Implicit Types (A B C : gmap (list N) (gmap (list N) (list N))).

Lemma overlay_assoc (oa ob oc : option (gmap (list N) (list N))) :
  overlay (overlay oa ob) oc = overlay oa (overlay ob oc).
Proof.
  destruct oa, ob, oc; simpl; try done.
  by rewrite (assoc_L (∪)).
Qed.

(** C1: the merged map has exactly the keys of both inputs; under a key of
    both inputs the attributes of the first are overlaid with those of the
    second, the second winning on a shared attribute name; a key of one input
    only keeps exactly that input's attribute map.  The merge is a total
    function: no input makes it raise. *)
Theorem merge_by_dict_key_spec A B :
  dom (_merge_by_dict_key A B) = dom A ∪ dom B
  ∧ (forall key a b, A !! key = Some a -> B !! key = Some b ->
       exists r, _merge_by_dict_key A B !! key = Some r
         ∧ dom r = dom a ∪ dom b
         ∧ (forall attr v, b !! attr = Some v -> r !! attr = Some v)
         ∧ (forall attr, b !! attr = None -> r !! attr = a !! attr))
  ∧ (forall key a, A !! key = Some a -> B !! key = None ->
       _merge_by_dict_key A B !! key = Some a)
  ∧ (forall key b, A !! key = None -> B !! key = Some b ->
       _merge_by_dict_key A B !! key = Some b).
Proof.
  repeat split.
  - apply set_eq. intros k.
    rewrite elem_of_union, !elem_of_dom, merge_lookup.
    unfold overlay. destruct (A !! k), (B !! k); split; eauto;
      intros [[? [=]]|[? [=]]].
  - intros key a b Ha Hb. exists (b ∪ a).
    rewrite merge_lookup, Ha, Hb. simpl. repeat split.
    + rewrite dom_union_L. apply (comm_L (∪)).
    + intros attr v Hv. by apply lookup_union_Some_l.
    + intros attr Hnone. by apply lookup_union_r.
  - intros key a Ha Hb. by rewrite merge_lookup, Ha, Hb.
  - intros key b Ha Hb. by rewrite merge_lookup, Ha, Hb.
Qed.

(** C10: merging is associative, so the nested three-way merges of names,
    titles/metadata and page URLs do not depend on how they are nested. *)
Theorem merge_by_dict_key_assoc A B C :
  _merge_by_dict_key (_merge_by_dict_key A B) C
  = _merge_by_dict_key A (_merge_by_dict_key B C).
Proof.
  apply map_eq. intros k.
  by rewrite !merge_lookup, overlay_assoc.
Qed.

End MergerClaims.

Lemma merge_by_dict_key_spec_witness :
  Merger._merge_by_dict_key MergerExamples.titles MergerExamples.urls !! u "Amber"
    = Some {[ u "titleCn" := u "Gliding Champion"; u "url" := u "/ys/Amber" ]}
  ∧ Merger._merge_by_dict_key MergerExamples.titles MergerExamples.urls !! u "Layla"
    = Some {[ u "titleCn" := u "Fantastical Evening Star" ]}
  ∧ Merger._merge_by_dict_key MergerExamples.titles MergerExamples.urls !! u "Hu Tao"
    = Some {[ u "url" := u "/ys/Hu_Tao" ]}.
Proof.
  destruct (merge_by_dict_key_spec MergerExamples.titles MergerExamples.urls)
    as (_ & Hboth & Hfirst & Hsecond).
  split; [|split].
  - vm_compute. reflexivity.
  - apply Hfirst; vm_compute; reflexivity.
  - apply Hsecond; vm_compute; reflexivity.
Defined.

(** ** Enemy extraction *)

Section DeduplicationFacts.
Import Abyss.

Lemma filter_first_seen (n : list N) (l : list EnemyInfo) :
  filter (fun y => nameCn y ≠ n) (first_seen l)
  = first_seen (filter (fun y => nameCn y ≠ n) l).
Proof.
  induction l as [|x l IH]; [done|]. simpl.
  destruct (decide (nameCn x = n)) as [Heq|Hne].
  - rewrite filter_cons_False by (intros H; by apply H).
    rewrite (filter_cons_False _ x l) by (intros H; by apply H).
    rewrite <- IH. subst n.
    rewrite list_filter_filter. apply list_filter_iff. intros y. tauto.
  - rewrite filter_cons_True by done.
    rewrite (filter_cons_True _ x l) by done. simpl. f_equal.
    rewrite <- IH. rewrite !list_filter_filter.
    apply list_filter_iff. intros y. tauto.
Qed.

(** The accumulator loop of [__deduplicated_enemy_info], from any state. *)
Lemma dedup_loop (seen : gset (list N)) (acc l : list EnemyInfo) :
  (foldl (fun (st : gset (list N) * list EnemyInfo) info =>
            let '(existing_name_cn, deduplicated_enemy_info) := st in
            if decide (nameCn info ∈ existing_name_cn)
            then st
            else ({[ nameCn info ]} ∪ existing_name_cn,
                  deduplicated_enemy_info ++ [info]))
         (seen, acc) l).2
  = acc ++ first_seen (filter (fun y => nameCn y ∉ seen) l).
Proof.
  revert seen acc. induction l as [|x l IH]; intros seen acc; simpl.
  - by rewrite app_nil_r.
  - destruct (decide (nameCn x ∈ seen)) as [Hin|Hnin].
    + rewrite IH. by rewrite filter_cons_False by (intros H; by apply H).
    + rewrite IH, filter_cons_True by done. simpl.
      rewrite <- app_assoc. simpl. do 2 f_equal.
      rewrite filter_first_seen, list_filter_filter.
      f_equal. apply list_filter_iff. intros y.
      rewrite not_elem_of_union, not_elem_of_singleton. tauto.
Qed.

Lemma deduplicated_first_seen (l : list EnemyInfo) :
  __deduplicated_enemy_info l = first_seen l.
Proof.
  unfold __deduplicated_enemy_info. rewrite dedup_loop. simpl. f_equal.
  induction l as [|x l IH]; [done|].
  rewrite filter_cons_True by apply not_elem_of_empty. by f_equal.
Qed.

Lemma first_seen_names (l : list EnemyInfo) (n : list N) :
  n ∈ nameCn <$> first_seen l <-> n ∈ nameCn <$> l.
Proof.
  induction l as [|x l IH]; [done|]. simpl.
  rewrite !elem_of_cons, <- IH, !list_elem_of_fmap.
  split.
  - intros [->|(y & -> & Hy)]; [by left|].
    apply list_elem_of_filter in Hy as [_ Hy]. right. by exists y.
  - intros [->|(y & -> & Hy)]; [by left|].
    destruct (decide (nameCn y = nameCn x)) as [->|Hne]; [by left|].
    right. exists y. split; [done|]. by apply list_elem_of_filter.
Qed.

Lemma first_seen_NoDup (l : list EnemyInfo) : NoDup (nameCn <$> first_seen l).
Proof.
  induction l as [|x l IH]; simpl; [constructor|].
  apply NoDup_cons. split.
  - rewrite list_elem_of_fmap. intros (y & Hy & Hin).
    apply list_elem_of_filter in Hin as [Hne _]. by apply Hne.
  - revert IH. generalize (first_seen l). intros k Hk.
    induction k as [|y k IHk]; [constructor|].
    inversion Hk as [|?? Hy Hk']; subst.
    destruct (decide (nameCn y ≠ nameCn x)).
    + rewrite filter_cons_True by done. simpl. apply NoDup_cons. split; [|auto].
      rewrite list_elem_of_fmap. intros (z & Hz & Hin).
      apply list_elem_of_filter in Hin as [_ Hin].
      apply Hy. rewrite list_elem_of_fmap. eauto.
    + rewrite filter_cons_False by done. auto.
Qed.

End DeduplicationFacts.

Section ExtractionFacts.
Import Abyss.

Variable unquote : list N -> list N.

(** What the collecting loop returns when no kept link lacks its [href]. *)
Lemma collect_enemy_info_Ok (links : list Link) (infos : list EnemyInfo) :
  collect_enemy_info unquote links = Ok infos ->
  infos = (fun link => enemy_info_of unquote (link_text link) (default [] (link_href link)))
            <$> filter is_entity_link links.
Proof.
  revert infos. induction links as [|link links IH]; intros infos; simpl.
  - by intros [= <-].
  - unfold is_entity_link at 1.
    destruct (link_title link) as [title|] eqn:Ht.
    + destruct (decide (title = link_text link)) as [->|Hne].
      * destruct (link_href link) as [href|] eqn:Hh; [|done].
        destruct (collect_enemy_info unquote links) as [rest|e] eqn:Hrest; [|done].
        simpl. intros [= <-].
        rewrite filter_cons_True by (unfold is_entity_link; by rewrite Ht).
        simpl. rewrite Hh. simpl. f_equal. by apply IH.
      * intros H. rewrite filter_cons_False; [by apply IH|].
        unfold is_entity_link. rewrite Ht. congruence.
    + intros H. rewrite filter_cons_False; [by apply IH|].
      unfold is_entity_link. by rewrite Ht.
Qed.

Lemma collect_enemy_info_total (links : list Link) :
  (exists infos, collect_enemy_info unquote links = Ok infos)
  <-> (forall link, link ∈ links -> is_entity_link link -> is_Some (link_href link)).
Proof.
  induction links as [|link links IH]; simpl.
  - split; [intros _ ? Hin; by apply elem_of_nil in Hin | eauto].
  - assert (Hskip : ¬ is_entity_link link ->
      ((forall l, l ∈ link :: links -> is_entity_link l -> is_Some (link_href l))
       <-> (forall l, l ∈ links -> is_entity_link l -> is_Some (link_href l)))).
    { intros Hn. split; intros H l Hin; [apply H; by right|].
      apply elem_of_cons in Hin as [->|Hin]; [done|by apply H]. }
    destruct (link_title link) as [title|] eqn:Ht.
    + destruct (decide (title = link_text link)) as [->|Hne].
      * destruct (link_href link) as [href|] eqn:Hh.
        -- destruct (collect_enemy_info unquote links) as [rest|e] eqn:Hrest; simpl.
           ++ split; [|eauto]. intros _ l Hin Hl.
              apply elem_of_cons in Hin. destruct Hin as [->|Hin].
              ** rewrite Hh. eauto.
              ** apply (proj1 IH); eauto.
           ++ split; [by intros [? [=]]|]. intros H.
              destruct (proj2 IH) as [? [=]]. intros l Hin. apply H. by right.
        -- split; [by intros [? [=]]|]. intros H.
           assert (is_Some (link_href link)) as [x Hx]; [|congruence].
           apply H; [by left|]. unfold is_entity_link. by rewrite Ht.
      * rewrite IH, Hskip; [done|]. unfold is_entity_link. rewrite Ht. congruence.
    + rewrite IH, Hskip; [done|]. unfold is_entity_link. by rewrite Ht.
Qed.

End ExtractionFacts.

Section ExtractionClaims.
Import Abyss.

Variable unquote : list N -> list N.

(** C7: the enemy list of a half cell has exactly one entry per distinct name
    among the links whose text equals their title, in the order in which the
    names are first seen; links whose title and text differ contribute
    nothing and a later link of a name already seen is dropped, so two
    identical links yield one entry.  The extraction returns a list exactly
    when no kept link lacks its [href]. *)
Theorem extract_enemy_info_first_seen (single_half : Cell) :
  ((exists out, __extract_enemy_info unquote single_half = Ok out)
   <-> (forall link, link ∈ cell_links single_half ->
          is_entity_link link -> is_Some (link_href link)))
  ∧ (forall out, __extract_enemy_info unquote single_half = Ok out ->
       out = first_seen
               ((fun link => enemy_info_of unquote (link_text link)
                               (default [] (link_href link)))
                  <$> filter is_entity_link (cell_links single_half))
       ∧ NoDup (nameCn <$> out)
       ∧ (forall name, name ∈ nameCn <$> out
            <-> exists link, link ∈ cell_links single_half
                  ∧ link_title link = Some name ∧ link_text link = name)
       ∧ (forall l1 l2, cell_links single_half = [l1; l2] ->
            is_entity_link l1 -> is_entity_link l2 ->
            link_text l1 = link_text l2 ->
            out = [enemy_info_of unquote (link_text l1) (default [] (link_href l1))])).
Proof.
  unfold __extract_enemy_info. split.
  - rewrite <- (collect_enemy_info_total unquote). split.
    + intros [out Hout]. revert Hout.
      destruct (collect_enemy_info unquote (cell_links single_half)); [eauto|done].
    + intros [infos ->]. simpl. eauto.
  - intros out Hout.
    destruct (collect_enemy_info unquote (cell_links single_half)) as [infos|e] eqn:Hc;
      [|done].
    simpl in Hout. injection Hout as <-.
    apply collect_enemy_info_Ok in Hc. subst infos.
    rewrite deduplicated_first_seen.
    split; [done|]. split; [apply first_seen_NoDup|]. split.
    + intros name. rewrite first_seen_names, <- list_fmap_compose, list_elem_of_fmap.
      split.
      * intros (link & -> & Hin). apply list_elem_of_filter in Hin as [Hent Hin].
        exists link. by repeat split.
      * intros (link & Hin & Ht & <-). exists link. split; [done|].
        apply list_elem_of_filter. split; [|done].
        unfold is_entity_link. by rewrite Ht.
    + intros l1 l2 -> H1 H2 Heq.
      rewrite filter_cons_True, filter_cons_True by done. simpl.
      rewrite filter_cons_False; [done|]. simpl. intros H. apply H. by rewrite Heq.
Qed.

End ExtractionClaims.

Lemma extract_enemy_info_first_seen_witness :
  Abyss.__extract_enemy_info id AbyssExamples.duplicated_cell
  = Ok [ {| Abyss.nameCn := u "Hilichurl";
            Abyss.biligameUrl := u "https://wiki.biligame.com/ys/Hilichurl" |};
         {| Abyss.nameCn := u "Slime";
            Abyss.biligameUrl := u "https://wiki.biligame.com/ys/Slime" |} ].
Proof.
  destruct (extract_enemy_info_first_seen id AbyssExamples.duplicated_cell)
    as [Htotal Hspec].
  destruct (proj2 Htotal) as [out Hout].
  - intros link Hin _. revert link Hin. apply Forall_forall.
    vm_compute. repeat constructor; eauto.
  - rewrite Hout. destruct (Hspec out Hout) as (-> & _). vm_compute. reflexivity.
Defined.

(** ** Row scans *)

Section ScanClaims.
Import Abyss.

(** C8, as the code has it: for either marker the half list holds, in row
    order, the data cell of exactly the rows whose header text contains the
    marker and that have a data cell, whatever the cell holds; a header row
    without a data cell is passed over for the first half just as for the
    second. *)
Theorem halves_in_order_both_need_cell (half : list N) (rows : list Row) :
  __get_halves_in_order half rows
    = omap row_td (filter (fun row => header_has half row = true) rows)
  ∧ (forall td, td ∈ __get_halves_in_order half rows
       <-> exists row, row ∈ rows ∧ header_has half row = true ∧ row_td row = Some td)
  ∧ (forall row, row_td row = None ->
       __get_halves_in_order half (row :: rows) = __get_halves_in_order half rows).
Proof.
  assert (Heq : __get_halves_in_order half rows
    = omap row_td (filter (fun row => header_has half row = true) rows)).
  { induction rows as [|row rows IH]; [done|]. simpl.
    destruct (header_has half row) eqn:Hh.
    - rewrite filter_cons_True by done. simpl.
      destruct (row_td row); by rewrite IH.
    - rewrite filter_cons_False by congruence.
      destruct (row_td row); by rewrite IH. }
  split; [done|]. split.
  - intros td. rewrite Heq, list_elem_of_omap. split.
    + intros (row & Hin & Htd). apply list_elem_of_filter in Hin as [Hh Hin]. eauto.
    + intros (row & Hin & Hh & Htd). exists row. split; [|done].
      by apply list_elem_of_filter.
  - intros row Hnone. simpl. by rewrite Hnone.
Qed.

(** C8 as stated fails: a first-half header row without a data cell is not
    collected, so the first-half list does not have an entry for every row
    whose header contains the first-half marker. *)
Lemma first_half_filter_counterexample :
  let rows := [AbyssExamples.bare_header FIRST_HALF] in
  Forall (fun row => header_has FIRST_HALF row = true) rows
  ∧ length (__get_halves_in_order FIRST_HALF rows) ≠ length rows.
Proof. split; [by repeat constructor | vm_compute; lia]. Qed.

End ScanClaims.

(** ** Results and their binds *)

Lemma bind_Ok {A B} (m : res A) (k : A -> res B) (b : B) :
  m ≫= k = Ok b -> exists a, m = Ok a ∧ k a = Ok b.
Proof. destruct m as [a|e]; [eauto|done]. Qed.

Lemma bind_raises {A B} (m : res A) (k : A -> res B) :
  raises m -> raises (m ≫= k).
Proof. intros [e ->]. by exists e. Qed.

Lemma raises_not_Ok {A} (r : res A) : raises r <-> forall a, r ≠ Ok a.
Proof.
  split.
  - intros [e ->] a. done.
  - intros H. destruct r as [a|e]; [by destruct (H a)|by exists e].
Qed.

Lemma py_index_Ok {A} (l : list A) (i : nat) (x : A) :
  py_index l i = Ok x <-> l !! i = Some x.
Proof. unfold py_index. destruct (l !! i); split; congruence. Qed.

Lemma py_index_short {A} (l : list A) (i : nat) :
  (length l <= i)%nat -> py_index l i = Raise IndexError.
Proof. intros H. unfold py_index. by rewrite lookup_ge_None_2. Qed.

Lemma res_map_length {A B} (f : A -> res B) (l : list A) (ys : list B) :
  res_map f l = Ok ys -> length ys = length l.
Proof.
  revert ys. induction l as [|x l IH]; intros ys; simpl.
  - by intros [= <-].
  - intros H. apply bind_Ok in H as (y & _ & H).
    apply bind_Ok in H as (ys' & Hys & [= <-]). simpl. f_equal. by apply IH.
Qed.

(** ** Assembly and decoding *)

Section DecodeFacts.
Import Abyss.

Lemma enemy_levels_length (rows : list Row) (levels : list Z) :
  __get_enemy_levels_in_order rows = Ok levels ->
  length levels = length (level_rows rows).
Proof.
  unfold level_rows. revert levels. induction rows as [|row rows IH]; intros levels; simpl.
  - by intros [= <-].
  - destruct (header_has LEVEL_MARKER row) eqn:Hh.
    + intros H. apply bind_Ok in H as (lv & _ & H).
      apply bind_Ok in H as (lvs & Hlvs & [= <-]).
      rewrite filter_cons_True by done. simpl. f_equal. by apply IH.
    + rewrite filter_cons_False by congruence. apply IH.
Qed.

Lemma chamber_of_Ok levels firsts seconds i j k c :
  chamber_of levels firsts seconds i j k = Ok c ->
  exists lv f s, levels !! i = Some lv ∧ firsts !! j = Some f ∧ seconds !! k = Some s
    ∧ c = {| enemyLevel := lv; firstHalf := {| enemies := f |};
             secondHalf := {| enemies := s |} |}.
Proof.
  unfold chamber_of. intros H.
  apply bind_Ok in H as (lv & Hlv%py_index_Ok & H).
  apply bind_Ok in H as (f & Hf%py_index_Ok & H).
  apply bind_Ok in H as (s & Hs%py_index_Ok & [= <-]).
  by exists lv, f, s.
Qed.

Lemma chamber_of_short levels firsts seconds i j k :
  (length levels <= i ∨ length firsts <= j ∨ length seconds <= k)%nat ->
  chamber_of levels firsts seconds i j k = Raise IndexError.
Proof.
  unfold chamber_of, py_index. intros H.
  destruct (levels !! i) eqn:Hl; [|done].
  destruct (firsts !! j) eqn:Hf; [|done].
  destruct (seconds !! k) eqn:Hs; [|done].
  apply lookup_lt_Some in Hl, Hf, Hs. lia.
Qed.

(** The twelve subscripts reach index 11 of each list. *)
Lemma assemble_period_Ok levels firsts seconds p :
  assemble_period levels firsts seconds = Ok p ->
  (12 <= length levels ∧ 12 <= length firsts ∧ 12 <= length seconds)%nat.
Proof.
  unfold assemble_period. intros H.
  do 11 (apply bind_Ok in H as (? & _ & H)).
  apply bind_Ok in H as (c & Hc & _).
  apply chamber_of_Ok in Hc as (lv & f & s & Hl & Hf & Hs & _).
  apply lookup_lt_Some in Hl, Hf, Hs. lia.
Qed.

Lemma assemble_period_short levels firsts seconds :
  (length levels < 12 ∨ length firsts < 12 ∨ length seconds < 12)%nat ->
  assemble_period levels firsts seconds = Raise IndexError.
Proof.
  intros Hshort. unfold assemble_period.
  repeat match goal with
  | |- context [chamber_of ?l ?f ?s ?i ?j ?k ≫= _] =>
      let H := fresh "Hc" in
      destruct (chamber_of l f s i j k) as [?|e] eqn:H;
      [ simpl
      | simpl;
        destruct (Nat.le_gt_cases (length l) i) as [Hl|Hl];
          [by rewrite chamber_of_short in H by auto; injection H as <-|];
        destruct (Nat.le_gt_cases (length f) j) as [Hf|Hf];
          [by rewrite chamber_of_short in H by auto; injection H as <-|];
        destruct (Nat.le_gt_cases (length s) k) as [Hs|Hs];
          [by rewrite chamber_of_short in H by auto; injection H as <-|];
        unfold chamber_of, py_index in H;
        destruct (lookup_lt_is_Some_2 l i Hl) as [? Hl'];
        destruct (lookup_lt_is_Some_2 f j Hf) as [? Hf'];
        destruct (lookup_lt_is_Some_2 s k Hs) as [? Hs'];
        by rewrite Hl', Hf', Hs' in H ]
  end.
  match goal with
  | H : chamber_of _ _ _ 11 11 11 = Ok _ |- _ =>
      apply chamber_of_Ok in H as (? & ? & ? & Hl & Hf & Hs & _)
  end.
  apply lookup_lt_Some in Hl, Hf, Hs. lia.
Qed.

Lemma assemble_period_take levels firsts seconds :
  assemble_period (take 12 levels) (take 12 firsts) (take 12 seconds)
  = assemble_period levels firsts seconds.
Proof.
  unfold assemble_period, chamber_of, py_index.
  by rewrite !lookup_take_lt by lia.
Qed.

(** The extraction of a cell can only fail on a kept link without [href]. *)
Lemma collect_enemy_info_Raise (unquote : list N -> list N) (links : list Link)
    (e : exn) :
  collect_enemy_info unquote links = Raise e -> e = TypeError.
Proof.
  induction links as [|link links IH]; simpl; [done|].
  destruct (link_title link) as [title|]; [|done].
  destruct (decide (title = link_text link)); [|done].
  destruct (link_href link); [|by intros [= <-]].
  destruct (collect_enemy_info unquote links); [done|].
  simpl. intros [= <-]. by apply IH.
Qed.

Lemma extract_enemy_info_Raise (unquote : list N -> list N) (cell : Cell)
    (e : exn) :
  __extract_enemy_info unquote cell = Raise e -> e = TypeError.
Proof.
  unfold __extract_enemy_info.
  destruct (collect_enemy_info unquote (cell_links cell)) eqn:Hc; [done|].
  simpl. intros [= <-]. by eapply collect_enemy_info_Raise.
Qed.

(** A comprehension raises as soon as its body raises on one element, at
    whatever position. *)
Lemma res_map_raises_at {A B} (f : A -> res B) (l : list A) (i : nat) (x : A) :
  l !! i = Some x -> raises (f x) -> raises (res_map f l).
Proof.
  revert i. induction l as [|y l IH]; intros i Hi Hx; [done|].
  simpl. destruct (f y) as [b|e] eqn:Hy; [|by exists e].
  destruct i as [|i].
  - injection Hi as ->. destruct Hx as [e He]. congruence.
  - destruct (IH i Hi Hx) as [e ->]. by exists e.
Qed.

Lemma res_map_Raise_elem {A B} (f : A -> res B) (l : list A) (e : exn) :
  res_map f l = Raise e -> exists x, x ∈ l ∧ f x = Raise e.
Proof.
  induction l as [|y l IH]; simpl; [done|].
  destruct (f y) as [b|e'] eqn:Hy.
  - destruct (res_map f l) as [bs|e'']; [done|]. simpl. intros [= <-].
    destruct (IH eq_refl) as (x & Hx & Hfx). exists x. split; [by right|done].
  - simpl. intros [= <-]. exists y. split; [by left|done].
Qed.

Lemma extract_all_Raise (unquote : list N -> list N) (cells : list Cell) (e : exn) :
  res_map (__extract_enemy_info unquote) cells = Raise e -> e = TypeError.
Proof.
  intros (cell & _ & Hcell)%res_map_Raise_elem.
  by eapply extract_enemy_info_Raise.
Qed.

End DecodeFacts.

Section DecodeClaims.
Import Abyss.

Variable unquote : list N -> list N.

(** C2: when the level list and the two half lists have 12 entries each, the
    decoder returns a period record whose slot for floor [9 + i/3], chamber
    [1 + i mod 3] holds entry [i] of the level list as its enemy level and
    entry [i] of either half list as its enemies, for every [i] in 0..11;
    with the levels 72, 74, 76, 80, 82, 85, 88, 90, 92, 95, 98, 100 the level
    85 is that of floor 10 chamber 3 and 72 that of floor 9 chamber 1. *)
Theorem decode_slot_order (rows : list Row)
    (levels : list Z) (firsts seconds : list (list EnemyInfo)) :
  __get_enemy_levels_in_order rows = Ok levels ->
  res_map (__extract_enemy_info unquote) (__get_halves_in_order FIRST_HALF rows)
    = Ok firsts ->
  res_map (__extract_enemy_info unquote) (__get_halves_in_order SECOND_HALF rows)
    = Ok seconds ->
  length levels = 12%nat -> length firsts = 12%nat -> length seconds = 12%nat ->
  exists p, decode unquote rows = Ok p
    ∧ (forall i, (i < 12)%nat ->
         exists level first second,
           levels !! i = Some level ∧ firsts !! i = Some first
           ∧ seconds !! i = Some second
           ∧ slot p (9 + i / 3) (1 + i mod 3)
             = Some {| enemyLevel := level;
                       firstHalf := {| enemies := first |};
                       secondHalf := {| enemies := second |} |})
    ∧ (levels = [72; 74; 76; 80; 82; 85; 88; 90; 92; 95; 98; 100] ->
         enemyLevel (chamber3 (floor10 p)) = 85
         ∧ enemyLevel (chamber1 (floor9 p)) = 72).
Proof.
  intros Hlevels Hfirsts Hseconds Hl Hf Hs.
  unfold decode. rewrite Hfirsts, Hseconds, Hlevels. simpl.
  clear Hlevels Hfirsts Hseconds.
  do 13 (destruct levels as [|? levels]; try discriminate Hl).
  do 13 (destruct firsts as [|? firsts]; try discriminate Hf).
  do 13 (destruct seconds as [|? seconds]; try discriminate Hs).
  eexists. split; [reflexivity|]. split.
  - intros i Hi.
    do 12 (destruct i as [|i]; [simpl; eauto 10|]). lia.
  - intros [= -> -> -> -> -> -> -> -> -> -> -> ->]. by simpl.
Qed.

(** C3, as the code has it.  With fewer than 12 entries in any of the three
    positional lists the decoder raises and returns no record.  Before any
    subscript is taken, the enemies of every first-half cell, then of every
    second-half cell are extracted and every level row is read, over the
    whole row sequence: a cell whose extraction raises, whatever its
    position, an entry beyond the twelfth included, makes the decoder raise
    [TypeError], and a level scan that raises makes it raise too, with the
    scan's own exception when both extractions succeed.  When the three
    steps succeed, a list of fewer than 12 entries gives [IndexError] from
    the missing subscript, and lists of at least 12 entries give the record
    made of the first 12 entries of each: more than 12 entries are no
    error, and the surplus does not appear in the record. *)
Theorem decode_needs_12_entries (rows : list Row) :
  ((length (level_rows rows) < 12
    ∨ length (__get_halves_in_order FIRST_HALF rows) < 12
    ∨ length (__get_halves_in_order SECOND_HALF rows) < 12)%nat ->
   raises (decode unquote rows))
  ∧ (forall half i cell,
       half = FIRST_HALF ∨ half = SECOND_HALF ->
       __get_halves_in_order half rows !! i = Some cell ->
       raises (__extract_enemy_info unquote cell) ->
       decode unquote rows = Raise TypeError)
  ∧ (forall e, __get_enemy_levels_in_order rows = Raise e ->
       raises (decode unquote rows)
       ∧ (forall firsts seconds,
            res_map (__extract_enemy_info unquote)
              (__get_halves_in_order FIRST_HALF rows) = Ok firsts ->
            res_map (__extract_enemy_info unquote)
              (__get_halves_in_order SECOND_HALF rows) = Ok seconds ->
            decode unquote rows = Raise e))
  ∧ (forall levels firsts seconds,
       __get_enemy_levels_in_order rows = Ok levels ->
       res_map (__extract_enemy_info unquote) (__get_halves_in_order FIRST_HALF rows)
         = Ok firsts ->
       res_map (__extract_enemy_info unquote) (__get_halves_in_order SECOND_HALF rows)
         = Ok seconds ->
       ((length levels < 12 ∨ length firsts < 12 ∨ length seconds < 12)%nat ->
        decode unquote rows = Raise IndexError)
       ∧ ((12 <= length levels)%nat -> (12 <= length firsts)%nat ->
          (12 <= length seconds)%nat ->
          exists p, decode unquote rows = Ok p
            ∧ assemble_period (take 12 levels) (take 12 firsts) (take 12 seconds)
              = Ok p)).
Proof.
  assert (Hstages : forall levels firsts seconds,
    __get_enemy_levels_in_order rows = Ok levels ->
    res_map (__extract_enemy_info unquote) (__get_halves_in_order FIRST_HALF rows)
      = Ok firsts ->
    res_map (__extract_enemy_info unquote) (__get_halves_in_order SECOND_HALF rows)
      = Ok seconds ->
    (length levels < 12 ∨ length firsts < 12 ∨ length seconds < 12)%nat ->
    decode unquote rows = Raise IndexError).
  { intros levels firsts seconds Hlevels Hfirsts Hseconds Hshort.
    unfold decode. rewrite Hfirsts, Hseconds, Hlevels. simpl.
    by apply assemble_period_short. }
  split; [|split; [|split]].
  - intros Hshort.
    destruct (res_map (__extract_enemy_info unquote)
                (__get_halves_in_order FIRST_HALF rows)) as [firsts|e] eqn:Hfirsts;
      [|unfold decode; rewrite Hfirsts; by exists e].
    destruct (res_map (__extract_enemy_info unquote)
                (__get_halves_in_order SECOND_HALF rows)) as [seconds|e] eqn:Hseconds;
      [|unfold decode; rewrite Hfirsts, Hseconds; by exists e].
    destruct (__get_enemy_levels_in_order rows) as [levels|e] eqn:Hlevels;
      [|unfold decode; rewrite Hfirsts, Hseconds, Hlevels; by exists e].
    exists IndexError. eapply Hstages; [done..|].
    apply enemy_levels_length in Hlevels.
    apply res_map_length in Hfirsts, Hseconds. lia.
  - intros half i cell Hhalf Hcell Hraise. unfold decode.
    destruct (res_map (__extract_enemy_info unquote)
                (__get_halves_in_order FIRST_HALF rows)) as [firsts|e] eqn:Hfirsts.
    2: { simpl. f_equal. by eapply extract_all_Raise. }
    destruct (res_map (__extract_enemy_info unquote)
                (__get_halves_in_order SECOND_HALF rows)) as [seconds|e] eqn:Hseconds.
    2: { simpl. f_equal. by eapply extract_all_Raise. }
    exfalso.
    destruct Hhalf as [-> | ->];
      destruct (res_map_raises_at _ _ i cell Hcell Hraise) as [e He]; congruence.
  - intros e Hlevels. split.
    + unfold decode.
      destruct (res_map (__extract_enemy_info unquote)
                  (__get_halves_in_order FIRST_HALF rows)) as [firsts|e1];
        [|by exists e1].
      destruct (res_map (__extract_enemy_info unquote)
                  (__get_halves_in_order SECOND_HALF rows)) as [seconds|e2];
        [|by exists e2].
      rewrite Hlevels. by exists e.
    + intros firsts seconds Hfirsts Hseconds.
      unfold decode. by rewrite Hfirsts, Hseconds, Hlevels.
  - intros levels firsts seconds Hlevels Hfirsts Hseconds. split.
    + by apply Hstages.
    + intros Hl Hf Hs.
      unfold decode. rewrite Hfirsts, Hseconds, Hlevels. simpl.
      rewrite assemble_period_take.
      destruct (assemble_period levels firsts seconds) as [p|e] eqn:Hp; [eauto|].
      exfalso. revert Hp. unfold assemble_period, chamber_of, py_index.
      do 12 (destruct levels as [|? levels]; [simpl in Hl; lia|]).
      do 12 (destruct firsts as [|? firsts]; [simpl in Hf; lia|]).
      do 12 (destruct seconds as [|? seconds]; [simpl in Hs; lia|]).
      by simpl.
Qed.

End DecodeClaims.

Lemma decode_slot_order_witness :
  exists p, Abyss.decode id AbyssExamples.sample_rows = Ok p
    ∧ Abyss.enemyLevel (Abyss.chamber3 (Abyss.floor10 p)) = 85
    ∧ Abyss.enemyLevel (Abyss.chamber1 (Abyss.floor9 p)) = 72
    ∧ (Abyss.nameCn <$> Abyss.enemies (Abyss.firstHalf (Abyss.chamber2 (Abyss.floor12 p))))
      = [u "Hilichurl"].
Proof.
  destruct (decode_slot_order id AbyssExamples.sample_rows
              [72; 74; 76; 80; 82; 85; 88; 90; 92; 95; 98; 100]
              (replicate 12 [AbyssExamples.enemy_link_info "Hilichurl"])
              (replicate 12 [AbyssExamples.enemy_link_info "Slime";
                             AbyssExamples.enemy_link_info "Hilichurl"]))
    as (p & Hp & Hslots & Hscenario);
    [vm_compute; reflexivity .. |].
  exists p. split; [done|].
  destruct (Hscenario eq_refl) as [H85 H72]. split; [done|]. split; [done|].
  destruct (Hslots 10%nat) as (level & first & second & _ & Hfirst & _ & Hslot);
    [lia|].
  simpl in Hslot. injection Hslot as ->. simpl.
  vm_compute in Hfirst. by injection Hfirst as <-.
Defined.

(** C3 as stated fails for the "more than 12" half: a period with 13 level
    rows (and 12 cells for each half) decodes to a record, no error. *)
Lemma decode_13_levels_counterexample :
  exists levels p,
    Abyss.__get_enemy_levels_in_order AbyssExamples.rows_13_levels = Ok levels
    ∧ length levels = 13%nat
    ∧ Abyss.decode id AbyssExamples.rows_13_levels = Ok p.
Proof. vm_compute. eauto. Qed.

Lemma decode_needs_12_entries_witness :
  (length (Abyss.level_rows AbyssExamples.rows_11_levels) = 11%nat
   ∧ Abyss.decode id AbyssExamples.rows_11_levels = Raise IndexError)
  ∧ (length (Abyss.__get_halves_in_order Abyss.FIRST_HALF
               AbyssExamples.rows_13th_half_broken) = 13%nat
     ∧ Abyss.decode id AbyssExamples.rows_13th_half_broken = Raise TypeError).
Proof.
  split.
  - destruct (decode_needs_12_entries id AbyssExamples.rows_11_levels)
      as (_ & _ & _ & Hstages).
    split; [vm_compute; reflexivity|].
    eapply Hstages; [vm_compute; reflexivity ..|].
    left. vm_compute. lia.
  - destruct (decode_needs_12_entries id AbyssExamples.rows_13th_half_broken)
      as (_ & Hcell & _).
    split; [vm_compute; reflexivity|].
    eapply (Hcell Abyss.FIRST_HALF 12%nat); [by left|vm_compute; reflexivity|].
    exists TypeError. vm_compute. reflexivity.
Defined.

(** ** The period catalogue *)

Section CatalogClaims.
Import Abyss.

Variable unquote : list N -> list N.
Variable site : nat -> Page.

Lemma get_period_info_fetches (period_id : list N) (n : nat) :
  (__get_period_info unquote site period_id n).2 = S n.
Proof.
  unfold __get_period_info, io_bind, fetch_period_page, io_lift.
  by destruct (__get_all_wikitable_rows_by_period_id (site n) period_id).
Qed.

Lemma build_catalog_fetches (periods : list PeriodConfig)
    (acc : gmap (list N) PeriodInfo) (n : nat) :
  (n <= (build_catalog unquote site periods acc n).2 <= n + length periods)%nat
  ∧ (forall cat n', build_catalog unquote site periods acc n = (Ok cat, n') ->
       n' = (n + length periods)%nat).
Proof.
  revert acc n. induction periods as [|p periods IH]; intros acc n; simpl.
  - unfold io_ret. simpl. split; [lia|]. intros cat n' [= _ <-]. lia.
  - unfold io_bind.
    pose proof (get_period_info_fetches (periodKey p) n) as Hfetch.
    destruct (__get_period_info unquote site (periodKey p) n) as [[info|e] n1].
    + simpl in Hfetch. subst n1.
      destruct (IH (<[period p := info]> acc) (S n)) as [Hle Heq].
      split; [lia|]. intros cat n' Hrun. apply Heq in Hrun. lia.
    + simpl in Hfetch. subst n1. simpl. split; [lia|]. by intros cat n'.
Qed.

(** C9 against the code: every configured period issues its own request
    for the listing page, so a catalogue of N periods that is built
    successfully has cost exactly N page fetches, not one. *)
Theorem catalog_fetches_once_per_period (periods : list PeriodConfig) (n : nat) :
  forall cat n',
    get_period_info_map unquote site periods n = (Ok cat, n') ->
    n' = (n + length periods)%nat.
Proof. intros cat n'. apply build_catalog_fetches. Qed.

End CatalogClaims.

Lemma catalog_fetches_once_per_period_witness :
  exists cat,
    Abyss.get_period_info_map id AbyssExamples.sample_site
      AbyssExamples.two_periods 0%nat = (Ok cat, 2%nat).
Proof.
  set (run := Abyss.get_period_info_map id AbyssExamples.sample_site
                AbyssExamples.two_periods 0%nat).
  assert (Hcat : exists cat, run.1 = Ok cat).
  { vm_compute. eexists. reflexivity. }
  destruct Hcat as [cat Hcat]. exists cat.
  assert (Hrun : run = (Ok cat, run.2)).
  { rewrite <- Hcat. apply surjective_pairing. }
  rewrite Hrun.
  rewrite (catalog_fetches_once_per_period id AbyssExamples.sample_site
             AbyssExamples.two_periods 0%nat cat run.2 Hrun).
  reflexivity.
Defined.

(** ** Sorting *)

Section SortFacts.
Context {A : Type} (le : A -> A -> bool).

Lemma insert_by_Permutation (x : A) (l : list A) : insert_by le x l ≡ₚ x :: l.
Proof.
  induction l as [|y l IH]; simpl; [done|].
  destruct (le x y); [done|]. rewrite IH. apply Permutation_swap.
Qed.

Lemma py_sort_Permutation (l : list A) : py_sort le l ≡ₚ l.
Proof.
  induction l as [|x l IH]; simpl; [done|].
  fold (py_sort le l). by rewrite insert_by_Permutation, IH.
Qed.

Hypothesis le_total : forall x y, le x y = true ∨ le y x = true.
Hypothesis le_trans : forall x y z, le x y = true -> le y z = true -> le x z = true.

Lemma insert_by_sorted (x : A) (l : list A) :
  StronglySorted (fun a b => le a b = true) l ->
  StronglySorted (fun a b => le a b = true) (insert_by le x l).
Proof.
  induction 1 as [|y l Hl IH Hy]; simpl.
  - repeat constructor.
  - destruct (le x y) eqn:Hxy.
    + constructor; [by constructor|].
      constructor; [done|].
      eapply Forall_impl; [exact Hy|]. intros z Hz. by eapply le_trans.
    + constructor; [done|].
      rewrite insert_by_Permutation. constructor; [|done].
      destruct (le_total x y); congruence.
Qed.

Lemma py_sort_sorted (l : list A) :
  StronglySorted (fun a b => le a b = true) (py_sort le l).
Proof.
  induction l as [|x l IH]; simpl; [constructor|].
  by apply insert_by_sorted.
Qed.

End SortFacts.

Lemma str_le_total (s t : list N) : PyStr.le s t = true ∨ PyStr.le t s = true.
Proof.
  revert t. induction s as [|a s IH]; intros [|b t]; simpl; auto.
  destruct (N.ltb_spec a b), (N.ltb_spec b a), (N.eqb_spec a b), (N.eqb_spec b a);
    auto; lia.
Qed.

Lemma str_le_trans (s t v : list N) :
  PyStr.le s t = true -> PyStr.le t v = true -> PyStr.le s v = true.
Proof.
  revert t v. induction s as [|a s IH]; intros [|b t] [|c v]; simpl; auto; try done.
  destruct (N.ltb_spec a b), (N.ltb_spec b c), (N.ltb_spec a c),
    (N.eqb_spec a b), (N.eqb_spec b c), (N.eqb_spec a c);
    try done; try lia; eauto.
Qed.

Lemma StronglySorted_Forall_both {A} (R : relation A) (P : A -> Prop) (l : list A) :
  StronglySorted R l -> Forall P l ->
  StronglySorted (fun x y => P x ∧ P y ∧ R x y) l.
Proof.
  induction 1 as [|x l Hl IH Hx]; intros HP; [constructor|].
  apply Forall_cons in HP as [Px HP]. constructor; [auto|].
  rewrite Forall_forall in *. intros y Hy. auto.
Qed.

Lemma StronglySorted_impl_elem {A} (R R' : relation A) (l : list A) :
  StronglySorted R l ->
  (forall x y, x ∈ l -> y ∈ l -> R x y -> R' x y) ->
  StronglySorted R' l.
Proof.
  induction 1 as [|x l Hl IH Hx]; intros Himpl; [constructor|].
  constructor.
  - apply IH. intros y z Hy Hz. apply Himpl; by right.
  - rewrite Forall_forall in *. intros y Hy.
    apply Himpl; [by left|by right|by apply Hx].
Qed.

Lemma StronglySorted_lookup {A} (R : relation A) (l : list A) (i j : nat) (x y : A) :
  StronglySorted R l -> l !! i = Some x -> l !! j = Some y -> (i < j)%nat -> R x y.
Proof.
  intros Hl. revert i j. induction Hl as [|z l Hl IH Hz]; intros i j Hi Hj Hij.
  - done.
  - destruct j as [|j]; [lia|]. simpl in Hj. destruct i as [|i].
    + simpl in Hi. injection Hi as ->.
      rewrite Forall_forall in Hz. apply Hz. by eapply list_elem_of_lookup_2.
    + simpl in Hi. apply (IH i j); [done..|lia].
Qed.

Lemma res_map_Forall2 {A B} (f : A -> res B) (l : list A) (ys : list B) :
  res_map f l = Ok ys <-> Forall2 (fun x y => f x = Ok y) l ys.
Proof.
  revert ys. induction l as [|x l IH]; intros ys; simpl.
  - split; [intros [= <-]; constructor | by inversion 1].
  - split.
    + intros H. apply bind_Ok in H as (y & Hy & H).
      apply bind_Ok in H as (ys' & Hys & [= <-]). constructor; [done|by apply IH].
    + inversion 1 as [|? y ? ys' Hy Hys]; subst.
      apply IH in Hys. by rewrite Hy, Hys.
Qed.

(** ** Ordering by name *)

Section NameSortFacts.
Import Timeline.

Lemma Forall2_zip_flip {A B} (Q : A -> B -> Prop) (l : list A) (ks : list B) :
  Forall2 Q l ks -> Forall (fun p => Q p.2 p.1) (zip ks l).
Proof. induction 1; simpl; constructor; auto. Qed.

Lemma sort_by_name_Ok (g s : list (gmap (list N) (list N))) :
  __sort_by_character_name_cn g = Ok s ->
  s ≡ₚ g ∧ StronglySorted name_le s.
Proof.
  unfold __sort_by_character_name_cn, py_sorted_by_key. intros H.
  apply bind_Ok in H as (keys & Hkeys & [= <-]).
  apply res_map_Forall2 in Hkeys.
  pose proof (Forall2_length _ _ _ Hkeys) as Hlen.
  set (cmp := fun p q : list N * gmap (list N) (list N) => PyStr.le p.1 q.1).
  split.
  - rewrite (py_sort_Permutation cmp). rewrite snd_zip by lia. done.
  - apply (StronglySorted_fmap snd
      (fun p q => (p.2 !! u "nameCn" = Some p.1) ∧ (q.2 !! u "nameCn" = Some q.1)
                  ∧ cmp p q = true)).
    + intros [n1 r1] [n2 r2] (H1 & H2 & Hle). by exists n1, n2.
    + apply StronglySorted_Forall_both.
      * apply py_sort_sorted; unfold cmp.
        -- intros p q. apply str_le_total.
        -- intros p q r. apply str_le_trans.
      * rewrite (py_sort_Permutation cmp).
        apply Forall2_zip_flip in Hkeys.
        eapply Forall_impl; [exact Hkeys|]. intros [n r]. simpl.
        unfold py_getitem. destruct (r !! u "nameCn"); congruence.
Qed.

Lemma sort_by_name_Ok_names (g s : list (gmap (list N) (list N))) :
  __sort_by_character_name_cn g = Ok s ->
  Forall (fun r => is_Some (r !! u "nameCn")) g.
Proof.
  unfold __sort_by_character_name_cn, py_sorted_by_key. intros H.
  apply bind_Ok in H as (keys & Hkeys & _).
  apply res_map_Forall2 in Hkeys.
  induction Hkeys as [|r n g keys Hn _ IH]; constructor; [|done].
  unfold py_getitem in Hn. destruct (r !! u "nameCn"); [eauto|done].
Qed.

Lemma sort_by_name_total (g : list (gmap (list N) (list N))) :
  Forall (fun r => is_Some (r !! u "nameCn")) g ->
  exists s, __sort_by_character_name_cn g = Ok s.
Proof.
  intros Hg. unfold __sort_by_character_name_cn, py_sorted_by_key.
  assert (exists keys,
    res_map (fun character => py_getitem character (u "nameCn")) g = Ok keys)
    as [keys ->]; [|simpl; eauto].
  induction Hg as [|r g [n Hn] Hg [keys IH]]; [by exists []|].
  exists (n :: keys). simpl. unfold py_getitem in *. by rewrite Hn, IH.
Qed.

Lemma sort_by_name_KeyError (g : list (gmap (list N) (list N))) r :
  r ∈ g -> r !! u "nameCn" = None ->
  __sort_by_character_name_cn g = Raise KeyError.
Proof.
  intros Hin Hnone. unfold __sort_by_character_name_cn, py_sorted_by_key.
  assert (res_map (fun character => py_getitem character (u "nameCn")) g
          = Raise KeyError) as ->; [|done].
  induction g as [|x g IH]; [by apply elem_of_nil in Hin|]. simpl.
  unfold py_getitem in *. destruct (x !! u "nameCn") as [n|] eqn:Hx; [|done].
  simpl. rewrite IH; [done|].
  apply elem_of_cons in Hin. destruct Hin as [->|Hin]; [congruence|done].
Qed.

End NameSortFacts.

(** ** Grouping by release stamp *)

Lemma concat_Permutation_pointwise {A B} (F G : B -> list A) (l : list B) :
  (forall t, t ∈ l -> F t ≡ₚ G t) -> concat (F <$> l) ≡ₚ concat (G <$> l).
Proof.
  induction l as [|t l IH]; intros H; simpl; [done|].
  rewrite (H t) by (by left). rewrite IH; [done|].
  intros t' Ht'. apply H. by right.
Qed.

Lemma partition_by_key {A} (key : A -> res Z) (ks : list Z) (l : list A) :
  NoDup ks ->
  (forall x, x ∈ l -> exists k, k ∈ ks ∧ key x = Ok k) ->
  concat ((fun k => filter (fun x => key x = Ok k) l) <$> ks) ≡ₚ l.
Proof.
  intros Hnd. revert l. induction Hnd as [|k ks Hk Hnd IH]; intros l Hcov.
  - destruct l as [|x l]; [done|].
    destruct (Hcov x) as (k & Hin & _); [by left|]. by apply elem_of_nil in Hin.
  - simpl.
    transitivity (filter (fun x => key x = Ok k) l
                  ++ filter (fun x => ¬ key x = Ok k) l);
      [|apply filter_app_complement].
    apply Permutation_app_head.
    etransitivity; [|apply (IH (filter (fun x => ¬ key x = Ok k) l))].
    + apply concat_Permutation_pointwise. intros k' Hk'.
      rewrite list_filter_filter.
      erewrite list_filter_iff; [reflexivity|]. intros x. simpl.
      split; [|tauto]. intros Hx. split; [done|]. rewrite Hx. by intros [= ->].
    + intros x Hx. apply list_elem_of_filter in Hx as [Hne Hx].
      destruct (Hcov x Hx) as (k' & Hin & Hkey). exists k'. split; [|done].
      apply elem_of_cons in Hin. destruct Hin as [->|Hin]; [done|done].
Qed.

Lemma foldl_app_concat {A B} (G : B -> list A) (acc : list A) (l : list B) :
  foldl (fun ordered t => ordered ++ G t) acc l = acc ++ concat (G <$> l).
Proof.
  revert acc. induction l as [|t l IH]; intros acc; simpl.
  - by rewrite app_nil_r.
  - by rewrite IH, app_assoc.
Qed.

Lemma sorted_le_NoDup_lt (l : list Z) :
  StronglySorted Z.le l -> NoDup l -> StronglySorted Z.lt l.
Proof.
  induction 1 as [|x l Hl IH Hx]; intros Hnd; [constructor|].
  apply NoDup_cons in Hnd as [Hnin Hnd]. constructor; [auto|].
  rewrite Forall_forall in *. intros y Hy.
  specialize (Hx y Hy). assert (x ≠ y) by (intros ->; done). lia.
Qed.

Section TimelineFacts.
Import Timeline.
Context {zone : LocalZone}.

Implicit Types (r : gmap (list N) (list N)).
Implicit Types (values out : list (gmap (list N) (list N))).
Implicit Types (d : gmap Z (list (gmap (list N) (list N)))).

Lemma group_loop_Raise e values : foldl group_step (Raise e) values = Raise e.
Proof. induction values as [|r values IH]; [done|]. simpl. exact IH. Qed.

Lemma group_step_Ok d0 r :
  group_step (Ok d0) r
  = match get_character_release_date_stamp r with
    | Ok stamp => Ok (<[stamp := default [] (d0 !! stamp) ++ [r]]> d0)
    | Raise e => Raise e
    end.
Proof. reflexivity. Qed.

(** The grouping loop from any dictionary: every group is extended, in
    input order, by the records of its stamp. *)
Lemma group_loop_Ok d0 values d :
  foldl group_step (Ok d0) values = Ok d ->
  Forall (fun r => exists t, get_character_release_date_stamp r = Ok t) values
  ∧ forall t, d !! t = match members_at t values with
                       | [] => d0 !! t
                       | g => Some (default [] (d0 !! t) ++ g)
                       end.
Proof.
  revert d0. induction values as [|r values IH]; intros d0; cbn [foldl].
  - intros [= <-]. split; [constructor|done].
  - rewrite group_step_Ok.
    destruct (get_character_release_date_stamp r) as [tr|e] eqn:Hr.
    + intros H. apply IH in H as [Hall Hd]. split; [constructor; eauto|].
      intros t. rewrite Hd. unfold members_at.
      destruct (decide (t = tr)) as [->|Hne].
      * rewrite (filter_cons_True _ r) by done. rewrite lookup_insert_eq. simpl.
        destruct (filter _ values); simpl; [done|]. by rewrite <- app_assoc.
      * rewrite (filter_cons_False _ r) by congruence.
        by rewrite lookup_insert_ne.
    + by rewrite group_loop_Raise.
Qed.

Lemma group_by_stamp_Ok values d :
  __group_by_release_date_stamp values = Ok d ->
  Forall (fun r => exists t, get_character_release_date_stamp r = Ok t) values
  ∧ forall t, d !! t = match members_at t values with
                       | [] => None
                       | g => Some g
                       end.
Proof.
  intros H. apply group_loop_Ok in H as [Hall Hd]. split; [done|].
  intros t. rewrite Hd, lookup_empty. by destruct (members_at t values).
Qed.

Lemma group_by_stamp_total values :
  Forall (fun r => exists t, get_character_release_date_stamp r = Ok t) values ->
  exists d, __group_by_release_date_stamp values = Ok d.
Proof.
  unfold __group_by_release_date_stamp. intros Hvalues.
  generalize (∅ : gmap Z (list (gmap (list N) (list N)))).
  induction Hvalues as [|r values [t Ht] Hall IH]; intros d0; cbn [foldl]; [eauto|].
  rewrite group_step_Ok, Ht. apply IH.
Qed.

Lemma group_by_stamp_Raise values r e :
  Forall (fun r => exists t, get_character_release_date_stamp r = Ok t) values ->
  get_character_release_date_stamp r = Raise e ->
  forall rest, __group_by_release_date_stamp (values ++ r :: rest) = Raise e.
Proof.
  intros Hall Hr rest. unfold __group_by_release_date_stamp.
  rewrite foldl_app.
  destruct (group_by_stamp_total values Hall) as [d Hd].
  unfold __group_by_release_date_stamp in Hd. rewrite Hd. cbn [foldl].
  rewrite group_step_Ok, Hr. apply group_loop_Raise.
Qed.

(** The loop that sorts every group. *)
Lemma sort_each_group_Ok d d' :
  sort_each_group d = Ok d' ->
  forall t, match d !! t with
            | Some g => exists s, __sort_by_character_name_cn g = Ok s ∧ d' !! t = Some s
            | None => d' !! t = None
            end.
Proof.
  unfold sort_each_group.
  assert (Hgen : forall d',
    map_fold sort_group_step (Ok d) d = Ok d' ->
    forall t, match d !! t with
              | Some g => exists s, __sort_by_character_name_cn g = Ok s
                            ∧ d' !! t = Some s
              | None => d' !! t = d !! t
              end).
  { apply (map_fold_weak_ind (fun acc m => forall d',
      acc = Ok d' ->
      forall t, match m !! t with
                | Some g => exists s, __sort_by_character_name_cn g = Ok s
                              ∧ d' !! t = Some s
                | None => d' !! t = d !! t
                end)).
    - intros d1 [= <-] t. by rewrite lookup_empty.
    - intros i g m acc Hm IH d1 H. unfold sort_group_step in H.
      apply bind_Ok in H as (d2 & -> & H).
      apply bind_Ok in H as (s & Hs & [= <-]).
      intros t. destruct (decide (t = i)) as [->|Hne].
      + rewrite !lookup_insert_eq. eauto.
      + rewrite !lookup_insert_ne by done. by apply IH. }
  intros H t. specialize (Hgen d' H t).
  destruct (d !! t) eqn:Hdt; [done|]. by rewrite Hgen.
Qed.

Lemma sort_each_group_total d :
  (forall t g, d !! t = Some g -> Forall (fun r => is_Some (r !! u "nameCn")) g) ->
  exists d', sort_each_group d = Ok d'.
Proof.
  unfold sort_each_group.
  apply (map_fold_weak_ind (fun acc m =>
    (forall t g, m !! t = Some g -> Forall (fun r => is_Some (r !! u "nameCn")) g) ->
    exists d', acc = Ok d')).
  - eauto.
  - intros i g m acc Hm IH Hall.
    destruct IH as [d1 ->].
    { intros t g' Hg'. apply (Hall t). rewrite lookup_insert_ne; [done|].
      intros ->. congruence. }
    destruct (sort_by_name_total g) as [s Hs].
    { apply (Hall i). by rewrite lookup_insert_eq. }
    unfold sort_group_step. simpl. rewrite Hs. simpl. eauto.
Qed.

End TimelineFacts.

(** ** Release-date stamps *)

Section StampFacts.
Import Timeline.
Context {zone : LocalZone}.

Lemma month_number_range (name : list N) (k : Z) :
  __MONTH_NAME_TO_NUM !! name = Some k -> 1 <= k <= 12.
Proof.
  assert (Hall : map_Forall (fun _ k => 1 <= k <= 12) __MONTH_NAME_TO_NUM).
  { refine (bool_decide_unpack _ _). vm_compute. exact I. }
  intros Hk. exact (Hall name k Hk).
Qed.

Lemma days_in_month_range (y m : Z) : 28 <= days_in_month y m <= 31.
Proof.
  unfold days_in_month.
  destruct (m =? 2); [destruct (is_leap y); lia|].
  destruct ((m =? 4) || (m =? 6) || (m =? 9) || (m =? 11)); lia.
Qed.

Lemma days_before_month_range (y m : Z) :
  1 <= m <= 12 -> 0 <= days_before_month y m <= 335.
Proof.
  intros Hm. unfold days_before_month.
  assert (Hcases : m = 1 ∨ m = 2 ∨ m = 3 ∨ m = 4 ∨ m = 5 ∨ m = 6 ∨ m = 7
                   ∨ m = 8 ∨ m = 9 ∨ m = 10 ∨ m = 11 ∨ m = 12) by lia.
  unfold days_in_month. generalize (is_leap y). intros leap.
  destruct Hcases as [->|[->|[->|[->|[->|[->|[->|[->|[->|[->|[->| ->]]]]]]]]]]];
    destruct leap; vm_compute; split; discriminate.
Qed.

Lemma new_datetime_Ok (year month day : Z) (dt : datetime) :
  new_datetime year month day = Ok dt
  <-> (1 <= year <= 9999 ∧ 1 <= month <= 12 ∧ 1 <= day <= days_in_month year month)
      ∧ dt = {| dt_year := year; dt_month := month; dt_day := day |}.
Proof.
  pose proof (days_in_month_range year month) as Hdim.
  assert (Hfits : forall n, fits_c_int n = true <-> - 2 ^ 31 <= n < 2 ^ 31).
  { intros n. unfold fits_c_int. rewrite andb_true_iff, Z.leb_le, Z.ltb_lt. done. }
  assert (Hbetween : forall a n b, (a <=? n) && (n <=? b) = true <-> a <= n <= b).
  { intros a n b. rewrite andb_true_iff, !Z.leb_le. done. }
  unfold new_datetime.
  destruct (fits_c_int year && fits_c_int month && fits_c_int day) eqn:Hc; simpl.
  - destruct ((1 <=? year) && (year <=? 9999)) eqn:Hy; simpl.
    + apply Hbetween in Hy.
      destruct ((1 <=? month) && (month <=? 12)) eqn:Hm; simpl.
      * apply Hbetween in Hm.
        destruct ((1 <=? day) && (day <=? days_in_month year month)) eqn:Hd; simpl.
        -- apply Hbetween in Hd. split; [by intros [= <-]|by intros [_ ->]].
        -- split; [done|]. intros [(_ & _ & Hd') _].
           apply Hbetween in Hd'. congruence.
      * split; [done|]. intros [(_ & Hm' & _) _]. apply Hbetween in Hm'. congruence.
    + split; [done|]. intros [(Hy' & _ & _) _]. apply Hbetween in Hy'. congruence.
  - split; [done|]. intros [(Hy & Hm & Hd) _].
    assert (fits_c_int year = true) as Hfy by (apply Hfits; lia).
    assert (fits_c_int month = true) as Hfm by (apply Hfits; lia).
    assert (fits_c_int day = true) as Hfd by (apply Hfits; lia).
    rewrite Hfy, Hfm, Hfd in Hc. done.
Qed.

Lemma wall_seconds_range (dt : datetime) :
  1 <= dt_year dt <= 9999 -> 1 <= dt_month dt <= 12 -> 1 <= dt_day dt <= 31 ->
  - 62135596800 <= wall_seconds dt < 1099511627776.
Proof.
  intros Hy Hm Hd. unfold wall_seconds, toordinal, days_before_year.
  pose proof (days_before_month_range (dt_year dt) (dt_month dt) Hm).
  pose proof (Z.div_mod (dt_year dt - 1) 4 ltac:(lia)).
  pose proof (Z.mod_pos_bound (dt_year dt - 1) 4 ltac:(lia)).
  pose proof (Z.div_mod (dt_year dt - 1) 100 ltac:(lia)).
  pose proof (Z.mod_pos_bound (dt_year dt - 1) 100 ltac:(lia)).
  pose proof (Z.div_mod (dt_year dt - 1) 400 ltac:(lia)).
  pose proof (Z.mod_pos_bound (dt_year dt - 1) 400 ltac:(lia)).
  lia.
Qed.

Lemma mktime_lt_maxsize (dt : datetime) :
  1 <= dt_year dt <= 9999 -> 1 <= dt_month dt <= 12 -> 1 <= dt_day dt <= 31 ->
  mktime dt < maxsize.
Proof.
  intros Hy Hm Hd. unfold mktime, maxsize.
  pose proof (wall_seconds_range dt Hy Hm Hd).
  pose proof (utcoffset_range (wall_seconds dt)). lia.
Qed.

(** A date string is converted exactly when its first three words are a
    month name of the table, a word whose all-but-last characters are an
    integer, and an integer, and these make a date of the calendar. *)
Lemma convert_Ok (date_string : list N) (stamp : Z) :
  __convert_to_local_unix_date_tamp date_string = Ok stamp
  <-> exists month_text day_text year_text rest year month day,
        PyStr.split date_string = month_text :: day_text :: year_text :: rest
        ∧ __MONTH_NAME_TO_NUM !! month_text = Some month
        ∧ PyStr.int (PyStr.drop_last day_text) = Ok day
        ∧ PyStr.int year_text = Ok year
        ∧ 1 <= year <= 9999
        ∧ 1 <= day <= days_in_month year month
        ∧ stamp = mktime {| dt_year := year; dt_month := month; dt_day := day |}.
Proof.
  unfold __convert_to_local_unix_date_tamp. split.
  - intros H.
    apply bind_Ok in H as (year_text & Hyt%py_index_Ok & H).
    apply bind_Ok in H as (year & Hyear & H).
    apply bind_Ok in H as (month_text & Hmt%py_index_Ok & H).
    apply bind_Ok in H as (month & Hmonth & H).
    apply bind_Ok in H as (day_text & Hdt%py_index_Ok & H).
    apply bind_Ok in H as (day & Hday & H).
    apply bind_Ok in H as (dt & Hnew & [= <-]).
    apply new_datetime_Ok in Hnew as ((Hy & Hm & Hd) & ->).
    destruct (PyStr.split date_string) as [|w0 [|w1 [|w2 rest]]]; try done.
    simpl in Hyt, Hmt, Hdt. injection Hyt as ->. injection Hmt as ->.
    injection Hdt as ->.
    exists month_text, day_text, year_text, rest, year, month, day.
    repeat split; try done; try lia.
    unfold py_getitem in Hmonth.
    destruct (__MONTH_NAME_TO_NUM !! month_text); congruence.
  - intros (month_text & day_text & year_text & rest & year & month & day
            & Hsplit & Hmonth & Hday & Hyear & Hy & Hd & ->).
    rewrite Hsplit. unfold py_index, py_getitem. simpl.
    rewrite Hyear. simpl. rewrite Hmonth. simpl. rewrite Hday. simpl.
    destruct (new_datetime year month day) as [dt|e] eqn:Hnew.
    + apply new_datetime_Ok in Hnew as [_ ->]. done.
    + exfalso. pose proof (month_number_range _ _ Hmonth).
      assert (Hok : new_datetime year month day
                    = Ok {| dt_year := year; dt_month := month; dt_day := day |})
        by (by apply new_datetime_Ok).
      congruence.
Qed.

Lemma stamp_dated_lt_maxsize (character : gmap (list N) (list N)) (stamp : Z) :
  is_Some (character !! RELEASE_DATE) ->
  get_character_release_date_stamp character = Ok stamp -> stamp < maxsize.
Proof.
  unfold get_character_release_date_stamp. intros [date_string ->] Hstamp.
  apply convert_Ok in Hstamp
    as (mt & dt & yt & rest & year & month & day & _ & Hm & _ & _ & Hy & Hd & ->).
  pose proof (days_in_month_range year month).
  apply mktime_lt_maxsize; simpl; [done| by eapply month_number_range |lia].
Qed.

Lemma stamp_undated (character : gmap (list N) (list N)) :
  character !! RELEASE_DATE = None ->
  get_character_release_date_stamp character = Ok maxsize.
Proof. unfold get_character_release_date_stamp. by intros ->. Qed.

End StampFacts.

(** ** The ordered list *)

Lemma elem_of_concat_fmap {A B} (G : B -> list A) (l : list B) (x : A) :
  x ∈ concat (G <$> l) <-> exists t, t ∈ l ∧ x ∈ G t.
Proof.
  induction l as [|t l IH]; simpl.
  - split; [by intros ?%elem_of_nil | by intros (? & ?%elem_of_nil & _)].
  - rewrite elem_of_app, IH. split.
    + intros [Hx|(t' & Ht' & Hx)]; [exists t; split; [by left|done]|].
      exists t'. split; [by right|done].
    + intros (t' & Ht' & Hx). apply elem_of_cons in Ht'.
      destruct Ht' as [->|Ht']; [by left|]. right. eauto.
Qed.

Section OrderedListFacts.
Import Timeline.
Context {zone : LocalZone}.

Implicit Types (r : gmap (list N) (list N)).
Implicit Types (values out : list (gmap (list N) (list N))).

Lemma concat_groups_sorted (G : Z -> list (gmap (list N) (list N))) (stamps : list Z) :
  StronglySorted Z.lt stamps ->
  (forall t, StronglySorted name_le (G t)) ->
  (forall t r, r ∈ G t -> get_character_release_date_stamp r = Ok t) ->
  StronglySorted timeline_le (concat (G <$> stamps)).
Proof.
  intros Hstamps Hname Hstamp.
  induction Hstamps as [|t stamps Hs IH Ht]; simpl; [constructor|].
  apply StronglySorted_app_2; [| |done].
  - intros r1 r2 H1 H2. apply elem_of_concat_fmap in H2 as (t2 & Ht2 & H2).
    rewrite Forall_forall in Ht. exists t, t2.
    split; [by apply Hstamp|]. split; [by apply Hstamp|]. left. by apply Ht.
  - eapply StronglySorted_impl_elem; [apply Hname|].
    intros r1 r2 H1 H2 Hle. exists t, t. auto.
Qed.

Lemma Z_leb_total (x y : Z) : (x <=? y) = true ∨ (y <=? x) = true.
Proof. destruct (Z.leb_spec x y), (Z.leb_spec y x); auto; lia. Qed.

Lemma Z_leb_trans (x y z : Z) :
  (x <=? y) = true -> (y <=? z) = true -> (x <=? z) = true.
Proof. rewrite !Z.leb_le. lia. Qed.

(** What a successful run returns: the input rearranged, ascending in the
    order of the timeline; it succeeds only when every record has a stamp
    and a name. *)
Lemma ordered_character_list_Ok values out :
  ordered_character_list values = Ok out ->
  out ≡ₚ values
  ∧ StronglySorted timeline_le out
  ∧ Forall (fun r => is_Some (r !! u "nameCn")
                     ∧ exists t, get_character_release_date_stamp r = Ok t) values.
Proof.
  unfold ordered_character_list. intros Hrun.
  apply bind_Ok in Hrun as (d & Hd & Hrun).
  apply bind_Ok in Hrun as (d' & Hd' & [= <-]).
  apply group_by_stamp_Ok in Hd as [Hall Hlook].
  pose proof (sort_each_group_Ok d d' Hd') as Hsorted.
  set (G := fun t : Z => default [] (d' !! t)).
  assert (HG : forall t,
    G t ≡ₚ members_at t values ∧ StronglySorted name_le (G t)
    ∧ Forall (fun r => is_Some (r !! u "nameCn")) (members_at t values)
    ∧ (is_Some (d' !! t) <-> members_at t values ≠ [])).
  { intros t. specialize (Hsorted t). rewrite Hlook in Hsorted. unfold G.
    destruct (members_at t values) as [|r g] eqn:Hg.
    - rewrite Hsorted. simpl. repeat split; try constructor.
      + by intros [? [=]].
      + done.
    - destruct Hsorted as (s & Hs & ->). simpl.
      destruct (sort_by_name_Ok _ _ Hs) as [Hperm Hsort].
      repeat split; try done; eauto using sort_by_name_Ok_names. }
  set (stamps := py_sort Z.leb (map_to_list d').*1).
  assert (Hperm : stamps ≡ₚ (map_to_list d').*1) by apply py_sort_Permutation.
  assert (Hin : forall t, t ∈ stamps <-> members_at t values ≠ []).
  { intros t. rewrite Hperm, <- (proj2 (proj2 (proj2 (HG t)))).
    rewrite list_elem_of_fmap. split.
    - intros ([t' g] & -> & Hg). apply elem_of_map_to_list in Hg. by exists g.
    - intros [g Hg]. exists (t, g). by rewrite elem_of_map_to_list. }
  assert (Hnd : NoDup stamps).
  { rewrite Hperm. apply NoDup_fst_map_to_list. }
  assert (Hmember : forall r t, r ∈ values ->
            get_character_release_date_stamp r = Ok t -> r ∈ members_at t values).
  { intros r t Hr Ht. unfold members_at. by apply list_elem_of_filter. }
  rewrite foldl_app_concat. simpl.
  split; [|split].
  - etransitivity.
    + apply (concat_Permutation_pointwise G (fun t => members_at t values)).
      intros t _. apply HG.
    + apply (partition_by_key get_character_release_date_stamp); [done|].
      intros r Hr. rewrite Forall_forall in Hall.
      destruct (Hall r Hr) as [t Ht]. exists t. split; [|done].
      apply Hin. intros Hnil. pose proof (Hmember r t Hr Ht) as Hm.
      rewrite Hnil in Hm. by apply elem_of_nil in Hm.
  - apply (concat_groups_sorted G).
    + apply sorted_le_NoDup_lt; [|done].
      eapply StronglySorted_impl_elem.
      * apply (py_sort_sorted Z.leb Z_leb_total Z_leb_trans).
      * intros x y _ _. apply Z.leb_le.
    + intros t. apply HG.
    + intros t r Hr. destruct (HG t) as [Hp _].
      assert (Hm : r ∈ members_at t values) by (by rewrite <- Hp).
      unfold members_at in Hm. by apply list_elem_of_filter in Hm as [? _].
  - rewrite Forall_forall in *. intros r Hr.
    destruct (Hall r Hr) as [t Ht]. split; [|eauto].
    destruct (HG t) as (_ & _ & Hnames & _).
    rewrite Forall_forall in Hnames. apply Hnames. by apply Hmember.
Qed.

Lemma ordered_character_list_total values :
  Forall (fun r => is_Some (r !! u "nameCn")
                   ∧ exists t, get_character_release_date_stamp r = Ok t) values ->
  exists out, ordered_character_list values = Ok out.
Proof.
  intros Hall. unfold ordered_character_list.
  destruct (group_by_stamp_total values) as [d Hd].
  { eapply Forall_impl; [exact Hall|]. by intros r [_ ?]. }
  rewrite Hd. simpl.
  destruct (sort_each_group_total d) as [d' Hd'].
  { intros t g Hg. apply group_by_stamp_Ok in Hd as [_ Hlook].
    rewrite Hlook in Hg.
    assert (g = members_at t values) as ->
      by (destruct (members_at t values); congruence).
    unfold members_at. rewrite Forall_forall in *. intros r Hr.
    apply list_elem_of_filter in Hr as [_ Hr]. by apply Hall. }
  rewrite Hd'. simpl. eauto.
Qed.

(** A record placed later than another never precedes it in the order. *)
Lemma undated_after_dated out (i j : nat) r1 r2 :
  StronglySorted timeline_le out ->
  out !! i = Some r1 -> out !! j = Some r2 ->
  r1 !! RELEASE_DATE = None -> is_Some (r2 !! RELEASE_DATE) ->
  (j < i)%nat.
Proof.
  intros Hsorted Hi Hj Hnone Hsome.
  destruct (Nat.lt_trichotomy i j) as [Hlt|[->|Hgt]]; [| |done].
  - exfalso.
    destruct (StronglySorted_lookup _ _ _ _ _ _ Hsorted Hi Hj Hlt)
      as (t1 & t2 & H1 & H2 & Hle).
    rewrite (stamp_undated r1 Hnone) in H1. injection H1 as <-.
    pose proof (stamp_dated_lt_maxsize r2 t2 Hsome H2). lia.
  - exfalso. rewrite Hi in Hj. injection Hj as ->. rewrite Hnone in Hsome.
    by destruct Hsome.
Qed.

(** One record without a name is enough for the whole ordering to raise. *)
Lemma ordered_character_list_needs_names values r :
  r ∈ values -> r !! u "nameCn" = None ->
  raises (ordered_character_list values).
Proof.
  intros Hin Hnone.
  destruct (ordered_character_list values) as [out|e] eqn:Hrun; [|by exists e].
  exfalso. apply ordered_character_list_Ok in Hrun as (_ & _ & Hall).
  rewrite Forall_forall in Hall. destruct (Hall r Hin) as [[n Hn] _]. congruence.
Qed.

(** The only exception of the name sort is the [KeyError] of the missing
    attribute. *)
Lemma sort_by_name_cases (g : list (gmap (list N) (list N))) :
  succeeds (__sort_by_character_name_cn g)
  ∨ __sort_by_character_name_cn g = Raise KeyError.
Proof.
  destruct (decide (Forall (fun r => is_Some (r !! u "nameCn")) g)) as [Hall|Hnot].
  - left. by apply sort_by_name_total.
  - right. apply not_Forall_Exists in Hnot; [|apply _].
    apply Exists_exists in Hnot as (r & Hr & Hnone).
    apply (sort_by_name_KeyError g r Hr).
    destruct (r !! u "nameCn") eqn:Hn; [|done]. destruct Hnone. eauto.
Qed.

Lemma sort_each_group_cases (d : gmap Z (list (gmap (list N) (list N)))) :
  succeeds (sort_each_group d) ∨ sort_each_group d = Raise KeyError.
Proof.
  unfold sort_each_group.
  apply (map_fold_weak_ind (fun acc _ => succeeds acc ∨ acc = Raise KeyError)).
  - left. by exists d.
  - intros t g m acc _ [[d1 ->]| ->]; [|by right].
    unfold sort_group_step. cbn [mbind res_bind].
    destruct (sort_by_name_cases g) as [[s ->]| ->]; [left; by eexists|by right].
Qed.

End OrderedListFacts.

(** ** ReleaseTimeline and the reconciled list *)

Section TimelineClaims.
Import Timeline.
Context {zone : LocalZone}.

(** C4, as the code has it: without a release date the stamp is the
    sentinel [sys.maxsize]; with one whose first three words are a month name
    of the table, a word whose all-but-last characters read as an integer
    day, and an integer year, making a date of the calendar in years
    1..9999, the stamp is local midnight of that date, below the sentinel;
    any other release date raises.  A record with a release date never
    gets the sentinel.  The function checks the words, not the commas. *)
Theorem release_date_stamp_cases (character : gmap (list N) (list N)) :
  (character !! RELEASE_DATE = None ->
     get_character_release_date_stamp character = Ok maxsize)
  ∧ (forall date_string month_text day_text year_text rest year month day,
       character !! RELEASE_DATE = Some date_string ->
       PyStr.split date_string = month_text :: day_text :: year_text :: rest ->
       __MONTH_NAME_TO_NUM !! month_text = Some month ->
       PyStr.int (PyStr.drop_last day_text) = Ok day ->
       PyStr.int year_text = Ok year ->
       1 <= year <= 9999 -> 1 <= day <= days_in_month year month ->
       get_character_release_date_stamp character
         = Ok (mktime {| dt_year := year; dt_month := month; dt_day := day |})
       ∧ mktime {| dt_year := year; dt_month := month; dt_day := day |}
         = wall_seconds {| dt_year := year; dt_month := month; dt_day := day |}
           - utcoffset (wall_seconds {| dt_year := year; dt_month := month;
                                        dt_day := day |}))
  ∧ (forall date_string,
       character !! RELEASE_DATE = Some date_string ->
       (forall stamp, get_character_release_date_stamp character = Ok stamp ->
          stamp < maxsize
          ∧ exists month_text day_text year_text rest year month day,
              PyStr.split date_string = month_text :: day_text :: year_text :: rest
              ∧ __MONTH_NAME_TO_NUM !! month_text = Some month
              ∧ PyStr.int (PyStr.drop_last day_text) = Ok day
              ∧ PyStr.int year_text = Ok year
              ∧ 1 <= year <= 9999
              ∧ 1 <= day <= days_in_month year month
              ∧ stamp = mktime {| dt_year := year; dt_month := month;
                                  dt_day := day |})
       ∧ (raises (get_character_release_date_stamp character)
          ∨ exists stamp, get_character_release_date_stamp character = Ok stamp
                          ∧ stamp ≠ maxsize)).
Proof.
  split; [apply stamp_undated|]. split.
  - intros date_string month_text day_text year_text rest year month day
      Hdate Hsplit Hmonth Hday Hyear Hy Hd.
    split; [|done].
    unfold get_character_release_date_stamp. rewrite Hdate.
    apply convert_Ok.
    by exists month_text, day_text, year_text, rest, year, month, day.
  - intros date_string Hdate.
    assert (Hlt : forall stamp,
      get_character_release_date_stamp character = Ok stamp -> stamp < maxsize).
    { intros stamp. apply stamp_dated_lt_maxsize. rewrite Hdate. eauto. }
    split.
    + intros stamp Hstamp. split; [by apply Hlt|].
      unfold get_character_release_date_stamp in Hstamp. rewrite Hdate in Hstamp.
      by apply convert_Ok.
    + destruct (get_character_release_date_stamp character) as [stamp|e] eqn:Hs.
      * right. exists stamp. split; [done|]. specialize (Hlt stamp eq_refl). lia.
      * left. by exists e.
Qed.

(** C5: the ordered list exists exactly when every record has a name and a
    stamp; it is then the input rearranged, ascending by stamp and, within a
    stamp, ascending by name (code point order), and a record without a
    release date stands after every record that has one. *)
Theorem group_and_order_sorted (values : list (gmap (list N) (list N))) :
  ((exists out, ordered_character_list values = Ok out)
   <-> Forall (fun r => is_Some (r !! u "nameCn")
                        ∧ exists t, get_character_release_date_stamp r = Ok t) values)
  ∧ (forall out, ordered_character_list values = Ok out ->
       out ≡ₚ values
       ∧ StronglySorted timeline_le out
       ∧ (forall i j r1 r2,
            out !! i = Some r1 -> out !! j = Some r2 ->
            r1 !! RELEASE_DATE = None -> is_Some (r2 !! RELEASE_DATE) ->
            (j < i)%nat)).
Proof.
  split.
  - split.
    + intros [out Hout]. by apply ordered_character_list_Ok in Hout as (_ & _ & ?).
    + apply ordered_character_list_total.
  - intros out Hout.
    apply ordered_character_list_Ok in Hout as (Hperm & Hsorted & _).
    split; [done|]. split; [done|].
    intros i j r1 r2. by apply undated_after_dated.
Qed.

(** C6 against the code: the merge hands an entity of one source on with the
    attributes of that source alone, but the ordering reads
    [character["nameCn"]] of every record without a guard.  An entity that
    only the English source knows has no such attribute, so its partial
    record makes the ordered list raise, in whatever order the map lists
    its values: with [KeyError] when every release date parses. *)
Theorem english_only_record_raises
    (character_info_cn character_info_en : gmap (list N) (gmap (list N) (list N)))
    (key : list N) (attrs : gmap (list N) (list N))
    (values : list (gmap (list N) (list N))) :
  character_info_cn !! key = None ->
  character_info_en !! key = Some attrs ->
  attrs !! u "nameCn" = None ->
  values ≡ₚ (map_to_list (get_character_info_map character_info_cn character_info_en)).*2 ->
  get_character_info_map character_info_cn character_info_en !! key = Some attrs
  ∧ raises (ordered_character_list values)
  ∧ (Forall (fun r => succeeds (get_character_release_date_stamp r)) values ->
     ordered_character_list values = Raise KeyError).
Proof.
  intros Hcn Hen Hname Hvalues.
  assert (Hkey : get_character_info_map character_info_cn character_info_en !! key
                 = Some attrs).
  { unfold get_character_info_map. by rewrite merge_lookup, Hcn, Hen. }
  assert (Hin : attrs ∈ values).
  { rewrite Hvalues. apply list_elem_of_fmap. exists (key, attrs).
    split; [done|]. by apply elem_of_map_to_list. }
  split; [done|].
  destruct (ordered_character_list_needs_names values attrs Hin Hname) as [e He].
  split; [by exists e|].
  intros Hall. rewrite He. f_equal. revert He. unfold ordered_character_list.
  destruct (group_by_stamp_total values Hall) as [d ->]. cbn [mbind res_bind].
  destruct (sort_each_group_cases d) as [[d' ->]| ->]; [done|].
  by intros [= <-].
Qed.

End TimelineClaims.

(** The docstring's example: 28 September 2022 in China Standard Time. *)
Example convert_docstring_example :
  Timeline.__convert_to_local_unix_date_tamp (u "September 28, 2022") = Ok 1664294400.
Proof. vm_compute. reflexivity. Qed.

(** [int()] reads the day and the year: a day in the digits of another
    script (here full-width) is a day, underscores between digits and a sign
    are accepted, and a year of more than 4300 digits is refused before the
    month is looked at. *)
Example convert_int_examples :
  Timeline.__convert_to_local_unix_date_tamp
    (u "September " ++ [65298; 65304; 44]%N ++ u " 2020") = Ok 1601222400
  ∧ Timeline.__convert_to_local_unix_date_tamp (u "September +2_8, 2_0_2_0")
    = Ok 1601222400
  ∧ Timeline.__convert_to_local_unix_date_tamp
      (u "Octember 28, " ++ replicate 4304 49%N) = Raise ValueError
  ∧ Timeline.__convert_to_local_unix_date_tamp
      (u "Octember 28, " ++ replicate 4300 49%N) = Raise KeyError
  ∧ Timeline.__convert_to_local_unix_date_tamp
      (u "September 28, " ++ replicate 4300 49%N) = Raise OverflowError.
Proof. repeat split; vm_compute; reflexivity. Qed.

Lemma release_date_stamp_cases_witness :
  Timeline.get_character_release_date_stamp TimelineExamples.layla
    = Ok Timeline.maxsize
  ∧ Timeline.get_character_release_date_stamp TimelineExamples.amber
    = Ok 1601222400.
Proof.
  split.
  - apply (release_date_stamp_cases TimelineExamples.layla).
    vm_compute. reflexivity.
  - destruct (release_date_stamp_cases TimelineExamples.amber) as (_ & Hdated & _).
    assert (Hstamp :
      Timeline.get_character_release_date_stamp TimelineExamples.amber
        = Ok (Timeline.mktime
                {| Timeline.dt_year := 2020; Timeline.dt_month := 9;
                   Timeline.dt_day := 28 |})).
    { apply (Hdated (u "September 28, 2020") (u "September") (u "28,") (u "2020")
               [] 2020 9 28);
        vm_compute; first [reflexivity | split; discriminate]. }
    rewrite Hstamp. vm_compute. reflexivity.
Defined.

(** C4 as stated fails on a date without its comma: ["September 28 2020"]
    does not raise, and the stamp is that of 2 September, not of the 28th. *)
Lemma missing_comma_counterexample :
  Timeline.get_character_release_date_stamp TimelineExamples.no_comma
    = Ok (Timeline.mktime
            {| Timeline.dt_year := 2020; Timeline.dt_month := 9;
               Timeline.dt_day := 2 |})
  ∧ ¬ raises (Timeline.get_character_release_date_stamp TimelineExamples.no_comma)
  ∧ Timeline.get_character_release_date_stamp TimelineExamples.no_comma
    ≠ Ok (Timeline.mktime
            {| Timeline.dt_year := 2020; Timeline.dt_month := 9;
               Timeline.dt_day := 28 |}).
Proof.
  assert (H : Timeline.get_character_release_date_stamp TimelineExamples.no_comma
              = Ok 1598976000) by (vm_compute; reflexivity).
  rewrite H. split; [vm_compute; reflexivity|]. split.
  - by intros [e [=]].
  - vm_compute. discriminate.
Qed.

Lemma group_and_order_sorted_witness :
  exists out,
    Timeline.ordered_character_list
      [ TimelineExamples.layla; TimelineExamples.shenhe;
        TimelineExamples.barbara; TimelineExamples.amber ] = Ok out
    ∧ StronglySorted Timeline.timeline_le out
    ∧ last out = Some TimelineExamples.layla.
Proof.
  set (values := [ TimelineExamples.layla; TimelineExamples.shenhe;
                   TimelineExamples.barbara; TimelineExamples.amber ]).
  destruct (group_and_order_sorted values) as [Htotal Hsorted].
  destruct (proj2 Htotal) as [out Hout].
  - repeat constructor; try (vm_compute; eauto).
  - destruct (Hsorted out Hout) as (_ & Hs & _).
    exists out. split; [done|]. split; [done|].
    assert (Hrun : Timeline.ordered_character_list values
                   = Ok [ TimelineExamples.amber; TimelineExamples.barbara;
                          TimelineExamples.shenhe; TimelineExamples.layla ])
      by (vm_compute; reflexivity).
    rewrite Hrun in Hout. by injection Hout as <-.
Defined.

Lemma english_only_record_raises_witness :
  Timeline.get_character_info_map
    TimelineExamples.source_cn TimelineExamples.source_en_more !! u "Yae Miko"
  = Some TimelineExamples.yae_miko_en
  ∧ Timeline.ordered_character_list
      (map_to_list (Timeline.get_character_info_map
                      TimelineExamples.source_cn TimelineExamples.source_en_more)).*2
    = Raise KeyError.
Proof.
  destruct (english_only_record_raises TimelineExamples.source_cn
              TimelineExamples.source_en_more (u "Yae Miko")
              TimelineExamples.yae_miko_en
              (map_to_list (Timeline.get_character_info_map
                              TimelineExamples.source_cn
                              TimelineExamples.source_en_more)).*2)
    as (Hkey & _ & Herror).
  - vm_compute. reflexivity.
  - vm_compute. reflexivity.
  - vm_compute. reflexivity.
  - done.
  - split; [exact Hkey|]. apply Herror.
    assert (Hall : map_Forall
      (fun _ r => succeeds (Timeline.get_character_release_date_stamp r))
      (Timeline.get_character_info_map
         TimelineExamples.source_cn TimelineExamples.source_en_more)).
    { refine (bool_decide_unpack _ _). vm_compute. exact I. }
    apply Forall_forall. intros r Hr.
    apply list_elem_of_fmap in Hr as ([key attrs] & -> & Hr).
    apply elem_of_map_to_list in Hr. exact (Hall key attrs Hr).
Defined.
(** * Further properties of the code *)

(** ** The merge *)

Section MergerMore.
Import Merger.

Implicit Types (A B : gmap (list N) (gmap (list N) (list N))).

(** X1: merging with an empty map, on either side, returns the other map. *)
Theorem merge_empty A :
  _merge_by_dict_key A ∅ = A ∧ _merge_by_dict_key ∅ A = A.
Proof.
  split; apply map_eq; intros k; rewrite merge_lookup, lookup_empty;
    unfold overlay; by destruct (A !! k).
Qed.

(** X2: merging a map with itself changes nothing. *)
Theorem merge_idempotent A : _merge_by_dict_key A A = A.
Proof.
  apply map_eq. intros k. rewrite merge_lookup. unfold overlay.
  destruct (A !! k) as [a|]; [|done]. by rewrite (idemp_L (∪)).
Qed.

(** X3: the order of the arguments matters only where both maps give the same
    attribute of the same key different values: when they agree on every
    shared attribute (in particular when their attribute names are
    disjoint), the merge commutes. *)
Theorem merge_comm_when_compatible A B :
  (forall key a b attr v w,
     A !! key = Some a -> B !! key = Some b ->
     a !! attr = Some v -> b !! attr = Some w -> v = w) ->
  _merge_by_dict_key A B = _merge_by_dict_key B A.
Proof.
  intros Hagree. apply map_eq. intros k. rewrite !merge_lookup. unfold overlay.
  destruct (A !! k) as [a|] eqn:Ha, (B !! k) as [b|] eqn:Hb; try done.
  f_equal. apply map_eq. intros attr. rewrite !lookup_union.
  destruct (a !! attr) as [v|] eqn:Hv, (b !! attr) as [w|] eqn:Hw; simpl; try done.
  by rewrite (Hagree _ _ _ _ _ _ Ha Hb Hv Hw).
Qed.

(** X4: nothing of the second map is lost or overridden: under each of its
    keys the merged record contains the record the second map had. *)
Theorem merge_keeps_second A B key b :
  B !! key = Some b ->
  exists r, _merge_by_dict_key A B !! key = Some r ∧ b ⊆ r.
Proof.
  intros Hb. rewrite merge_lookup, Hb. unfold overlay.
  destruct (A !! key) as [a|]; eexists; split; try done.
  apply map_union_subseteq_l.
Qed.

End MergerMore.

Lemma merge_comm_when_compatible_witness :
  Merger._merge_by_dict_key MergerExamples.names MergerExamples.urls
  = Merger._merge_by_dict_key MergerExamples.urls MergerExamples.names.
Proof.
  apply merge_comm_when_compatible.
  intros key a b attr v w Ha Hb Hv Hw.
  unfold MergerExamples.names, MergerExamples.urls in *.
  apply lookup_singleton_Some in Ha as [<- <-].
  apply lookup_singleton_Some in Hv as [<- <-].
  rewrite lookup_insert_eq in Hb. injection Hb as <-.
  apply lookup_singleton_Some in Hw as [Hne _]. vm_compute in Hne. discriminate.
Defined.

Lemma merge_keeps_second_witness :
  exists r, Merger._merge_by_dict_key MergerExamples.titles MergerExamples.urls
              !! u "Amber" = Some r
    ∧ r !! u "url" = Some (u "/ys/Amber").
Proof.
  destruct (merge_keeps_second MergerExamples.titles MergerExamples.urls
              (u "Amber") {[ u "url" := u "/ys/Amber" ]}) as (r & Hr & Hsub).
  - vm_compute. reflexivity.
  - exists r. split; [done|].
    eapply lookup_weaken; [|exact Hsub]. apply lookup_singleton_eq.
Defined.

(** ** Row scans and deduplication *)

Section ScanMore.
Import Abyss AbyssMore.

Lemma halves_in_order_app (half : list N) (rows1 rows2 : list Row) :
  __get_halves_in_order half (rows1 ++ rows2)
  = __get_halves_in_order half rows1 ++ __get_halves_in_order half rows2.
Proof.
  induction rows1 as [|row rows1 IH]; [done|]. simpl.
  destruct (row_td row); [|done]. destruct (header_has half row); [|done].
  simpl. by f_equal.
Qed.

Lemma enemy_levels_in_order_app (rows1 rows2 : list Row) :
  __get_enemy_levels_in_order (rows1 ++ rows2)
  = (levels1 ← __get_enemy_levels_in_order rows1;
     levels2 ← __get_enemy_levels_in_order rows2;
     Ok (levels1 ++ levels2)).
Proof.
  induction rows1 as [|row rows1 IH]; simpl.
  - by destruct (__get_enemy_levels_in_order rows2).
  - destruct (header_has LEVEL_MARKER row); [|done].
    destruct (level_of_row row) as [level|e]; [|done]. simpl.
    rewrite IH. destruct (__get_enemy_levels_in_order rows1) as [levels1|e]; [|done].
    simpl. by destruct (__get_enemy_levels_in_order rows2).
Qed.

(** X5: the scans of a concatenation of row lists are the concatenations of the
    scans, so the tables of the four floors, which the period's row list
    strings together, are scanned as if one after the other. *)
Theorem scans_distribute_over_app (half : list N) (rows1 rows2 : list Row) :
  __get_halves_in_order half (rows1 ++ rows2)
    = __get_halves_in_order half rows1 ++ __get_halves_in_order half rows2
  ∧ __get_enemy_levels_in_order (rows1 ++ rows2)
    = (levels1 ← __get_enemy_levels_in_order rows1;
       levels2 ← __get_enemy_levels_in_order rows2;
       Ok (levels1 ++ levels2)).
Proof.
  split; [apply halves_in_order_app|apply enemy_levels_in_order_app].
Qed.

Lemma halves_ignore_irrelevant (half : list N) (rows : list Row) :
  half = FIRST_HALF ∨ half = SECOND_HALF ->
  __get_halves_in_order half (filter (fun row => relevant row = true) rows)
  = __get_halves_in_order half rows.
Proof.
  intros Hhalf. induction rows as [|row rows IH]; [done|].
  destruct (relevant row) eqn:Hrel.
  - rewrite filter_cons_True by done. simpl. rewrite IH. done.
  - rewrite filter_cons_False by congruence. rewrite IH.
    unfold relevant in Hrel. apply orb_false_elim in Hrel as [Hrel Hs].
    apply orb_false_elim in Hrel as [Hl Hf].
    assert (Hh : header_has half row = false) by (by destruct Hhalf as [-> | ->]).
    cbn [__get_halves_in_order]. rewrite Hh. by destruct (row_td row).
Qed.

Lemma levels_ignore_irrelevant (rows : list Row) :
  __get_enemy_levels_in_order (filter (fun row => relevant row = true) rows)
  = __get_enemy_levels_in_order rows.
Proof.
  induction rows as [|row rows IH]; [done|].
  destruct (relevant row) eqn:Hrel.
  - rewrite filter_cons_True by done. simpl. by rewrite IH.
  - rewrite filter_cons_False by congruence. rewrite IH.
    unfold relevant in Hrel. apply orb_false_elim in Hrel as [Hrel Hs].
    apply orb_false_elim in Hrel as [Hl Hf].
    cbn [__get_enemy_levels_in_order]. by rewrite Hl.
Qed.

(** X6: rows whose header carries none of the three markers, and rows without a
    header, never influence the decoded period: the decoder may be given
    the marked rows alone. *)
Theorem decode_ignores_unmarked_rows (unquote : list N -> list N) (rows : list Row) :
  decode unquote (filter (fun row => relevant row = true) rows)
  = decode unquote rows.
Proof.
  unfold decode.
  rewrite !halves_ignore_irrelevant by auto.
  by rewrite levels_ignore_irrelevant.
Qed.

Lemma first_seen_sublist (l : list EnemyInfo) : sublist (first_seen l) l.
Proof.
  induction l as [|x l IH]; simpl; [constructor|].
  apply sublist_skip. etransitivity; [apply sublist_filter|done].
Qed.

Lemma filter_other_names (x : EnemyInfo) (l : list EnemyInfo) :
  nameCn x ∉ nameCn <$> l -> filter (fun y => nameCn y ≠ nameCn x) l = l.
Proof.
  induction l as [|y l IH]; [done|]. csimpl.
  intros [Hne Hx]%not_elem_of_cons.
  rewrite filter_cons_True by congruence. f_equal. auto.
Qed.

Lemma first_seen_NoDup_id (l : list EnemyInfo) :
  NoDup (nameCn <$> l) -> first_seen l = l.
Proof.
  induction l as [|x l IH]; csimpl; [done|].
  intros [Hx Hl]%NoDup_cons. rewrite IH by done. f_equal.
  by apply filter_other_names.
Qed.

(** X7: deduplication only removes entries: its result is a sublist of its
    input, in the same order; it leaves a list of distinct names as it is,
    and applying it twice is the same as applying it once. *)
Theorem deduplicated_enemy_info_sublist_idempotent (enemy_info : list EnemyInfo) :
  sublist (__deduplicated_enemy_info enemy_info) enemy_info
  ∧ (NoDup (nameCn <$> enemy_info) ->
       __deduplicated_enemy_info enemy_info = enemy_info)
  ∧ __deduplicated_enemy_info (__deduplicated_enemy_info enemy_info)
    = __deduplicated_enemy_info enemy_info.
Proof.
  rewrite !deduplicated_first_seen. split; [apply first_seen_sublist|].
  split; [apply first_seen_NoDup_id|].
  apply first_seen_NoDup_id, first_seen_NoDup.
Qed.

End ScanMore.

Lemma deduplicated_enemy_info_sublist_idempotent_witness :
  Abyss.__deduplicated_enemy_info
    [AbyssExamples.enemy_link_info "Slime"; AbyssExamples.enemy_link_info "Hilichurl"]
  = [AbyssExamples.enemy_link_info "Slime"; AbyssExamples.enemy_link_info "Hilichurl"].
Proof.
  destruct (deduplicated_enemy_info_sublist_idempotent
              [AbyssExamples.enemy_link_info "Slime";
               AbyssExamples.enemy_link_info "Hilichurl"]) as (_ & Hid & _).
  apply Hid. refine (bool_decide_unpack _ _). vm_compute. exact I.
Defined.

(** ** The catalogue *)

Section CatalogMore.
Import Abyss AbyssMore.

Variable unquote : list N -> list N.
Variable site : nat -> Page.

Lemma get_period_info_run (period_id : list N) (n : nat) :
  __get_period_info unquote site period_id n
  = (period_of_page unquote (site n) period_id, S n).
Proof.
  unfold __get_period_info, period_of_page, io_bind, fetch_period_page, io_lift.
  by destruct (__get_all_wikitable_rows_by_period_id (site n) period_id).
Qed.

Lemma build_catalog_cons (p : PeriodConfig) (rest : list PeriodConfig)
    (acc : gmap (list N) PeriodInfo) (n : nat) :
  build_catalog unquote site (p :: rest) acc n
  = match period_of_page unquote (site n) (periodKey p) with
    | Ok info => build_catalog unquote site rest (<[period p := info]> acc) (S n)
    | Raise e => (Raise e, S n)
    end.
Proof.
  cbn [build_catalog]. unfold io_bind. rewrite get_period_info_run.
  by destruct (period_of_page unquote (site n) (periodKey p)).
Qed.

Lemma build_catalog_untouched (periods : list PeriodConfig)
    (acc cat : gmap (list N) PeriodInfo) (n n' : nat) (k : list N) :
  build_catalog unquote site periods acc n = (Ok cat, n') ->
  k ∉ period <$> periods -> cat !! k = acc !! k.
Proof.
  revert acc n. induction periods as [|p periods IH]; intros acc n.
  - by intros [= <- _].
  - rewrite build_catalog_cons.
    destruct (period_of_page unquote (site n) (periodKey p)) as [info|e]; [|done].
    intros Hrun [Hne Hk]%not_elem_of_cons.
    rewrite (IH _ _ Hrun Hk). by rewrite lookup_insert_ne.
Qed.

Lemma build_catalog_dom (periods : list PeriodConfig)
    (acc cat : gmap (list N) PeriodInfo) (n n' : nat) :
  build_catalog unquote site periods acc n = (Ok cat, n') ->
  dom cat = dom acc ∪ list_to_set (period <$> periods).
Proof.
  revert acc n. induction periods as [|p periods IH]; intros acc n.
  - intros [= <- _]. csimpl. by rewrite (right_id_L ∅ (∪)).
  - rewrite build_catalog_cons.
    destruct (period_of_page unquote (site n) (periodKey p)) as [info|e]; [|done].
    intros Hrun. rewrite (IH _ _ Hrun), dom_insert_L. csimpl.
    rewrite (assoc_L (∪)). f_equal. apply (comm_L (∪)).
Qed.

Lemma build_catalog_entry (periods : list PeriodConfig)
    (acc cat : gmap (list N) PeriodInfo) (n n' i : nat) (p : PeriodConfig) :
  build_catalog unquote site periods acc n = (Ok cat, n') ->
  periods !! i = Some p ->
  (forall j q, periods !! j = Some q -> (i < j)%nat -> period q ≠ period p) ->
  exists info, period_of_page unquote (site (n + i)) (periodKey p) = Ok info
    ∧ cat !! period p = Some info.
Proof.
  revert acc n i. induction periods as [|q periods IH]; intros acc n i; [done|].
  rewrite build_catalog_cons.
  destruct (period_of_page unquote (site n) (periodKey q)) as [info|e] eqn:Hq; [|done].
  intros Hrun Hi Hlast. destruct i as [|i].
  - injection Hi as ->. exists info. rewrite Nat.add_0_r. split; [done|].
    rewrite (build_catalog_untouched _ _ _ _ _ (period p) Hrun).
    + by rewrite lookup_insert_eq.
    + intros (q & Hq' & Hin)%list_elem_of_fmap.
      apply list_elem_of_lookup in Hin as [j Hj].
      apply (Hlast (S j) q); [done|lia|done].
  - replace (n + S i)%nat with (S n + i)%nat by lia.
    apply (IH _ _ _ Hrun Hi). intros j q' Hj Hij.
    apply (Hlast (S j) q'); [done|lia].
Qed.

(** X8: a catalogue that is built has exactly the configured labels as its
    keys, and under each label, when the labels are distinct, the period
    decoded from the page that was fetched for that very entry. *)
Theorem catalog_keys_and_entries (periods : list PeriodConfig) (n n' : nat)
    (cat : gmap (list N) PeriodInfo) :
  get_period_info_map unquote site periods n = (Ok cat, n') ->
  dom cat = list_to_set (period <$> periods)
  ∧ (NoDup (period <$> periods) ->
     forall i p, periods !! i = Some p ->
       exists info,
         period_of_page unquote (site (n + i)) (periodKey p) = Ok info
         ∧ cat !! period p = Some info).
Proof.
  unfold get_period_info_map. intros Hrun. split.
  - rewrite (build_catalog_dom _ _ _ _ _ Hrun), dom_empty_L.
    by rewrite (left_id_L ∅ (∪)).
  - intros Hnd i p Hi. apply (build_catalog_entry _ _ _ _ _ _ _ Hrun Hi).
    intros j q Hj Hij Heq.
    assert (Hpi : (period <$> periods) !! i = Some (period p))
      by (by rewrite list_lookup_fmap, Hi).
    assert (Hpj : (period <$> periods) !! j = Some (period p))
      by (by rewrite list_lookup_fmap, Hj, <- Heq).
    pose proof (NoDup_lookup _ _ _ _ Hnd Hpi Hpj). lia.
Qed.

Lemma build_catalog_stops (pre post : list PeriodConfig) (p : PeriodConfig)
    (acc : gmap (list N) PeriodInfo) (n : nat) (e : exn) :
  (forall i q, pre !! i = Some q ->
     succeeds (period_of_page unquote (site (n + i)) (periodKey q))) ->
  period_of_page unquote (site (n + length pre)) (periodKey p) = Raise e ->
  build_catalog unquote site (pre ++ p :: post) acc n
  = (Raise e, S (n + length pre)).
Proof.
  revert acc n. induction pre as [|q pre IH]; intros acc n Hpre Hp.
  - cbn [app length] in *. rewrite Nat.add_0_r in *.
    by rewrite build_catalog_cons, Hp.
  - cbn [app]. rewrite build_catalog_cons.
    destruct (Hpre 0%nat q eq_refl) as [info Hq]. rewrite Nat.add_0_r in Hq.
    rewrite Hq. simpl length.
    replace (S (n + S (length pre))) with (S (S n + length pre)) by lia.
    apply IH.
    + intros i q' Hi. replace (S n + i)%nat with (n + S i)%nat by lia.
      by apply (Hpre (S i)).
    + by replace (S n + length pre)%nat with (n + S (length pre))%nat by lia.
Qed.

(** X9: the first period that fails to decode ends the build: its exception
    is the result, the page has been requested once for it and once for
    each period before it, and no period after it is fetched. *)
Theorem catalog_stops_at_first_failure (pre post : list PeriodConfig)
    (p : PeriodConfig) (n : nat) (e : exn) :
  (forall i q, pre !! i = Some q ->
     succeeds (period_of_page unquote (site (n + i)) (periodKey q))) ->
  period_of_page unquote (site (n + length pre)) (periodKey p) = Raise e ->
  get_period_info_map unquote site (pre ++ p :: post) n
  = (Raise e, S (n + length pre)).
Proof. apply build_catalog_stops. Qed.

End CatalogMore.

Lemma catalog_keys_and_entries_witness :
  exists cat,
    (Abyss.get_period_info_map id AbyssExamples.sample_site
       AbyssExamples.two_periods 0%nat).1 = Ok cat
    ∧ dom cat = list_to_set (Abyss.period <$> AbyssExamples.two_periods).
Proof.
  set (run := Abyss.get_period_info_map id AbyssExamples.sample_site
                AbyssExamples.two_periods 0%nat).
  assert (Hcat : exists cat, run.1 = Ok cat).
  { vm_compute. eexists. reflexivity. }
  destruct Hcat as [cat Hcat]. exists cat. split; [done|].
  assert (Hrun : run = (Ok cat, run.2)).
  { rewrite <- Hcat. apply surjective_pairing. }
  exact (proj1 (catalog_keys_and_entries id AbyssExamples.sample_site
                  AbyssExamples.two_periods 0%nat run.2 cat Hrun)).
Defined.

Lemma catalog_stops_at_first_failure_witness :
  Abyss.get_period_info_map id AbyssMoreExamples.failing_site
    AbyssExamples.two_periods 0%nat = (Raise AttributeError, 2%nat).
Proof.
  apply (catalog_stops_at_first_failure id AbyssMoreExamples.failing_site
           [ {| Abyss.period := u "July 16, 2022 - September 1, 2022";
                Abyss.periodKey := u "p1" |} ]
           []
           {| Abyss.period := u "September 1, 2022 - October 16, 2022";
              Abyss.periodKey := u "p2" |} 0%nat AttributeError).
  - intros [|i] q Hq; [|done]. injection Hq as <-.
    refine (bool_decide_unpack _ _). vm_compute. exact I.
  - vm_compute. reflexivity.
Defined.

(** ** Enemy levels *)

Section LevelMore.
Import Abyss AbyssMore.

Lemma split_on_aux_no_sep (sep : N) (cur s : list N) :
  sep ∉ s -> PyStr.split_on_aux sep cur s = [reverse cur ++ s].
Proof.
  revert cur. induction s as [|c s IH]; intros cur; simpl.
  - by rewrite app_nil_r.
  - intros [Hne Hs]%not_elem_of_cons.
    destruct (N.eqb_spec c sep) as [->|_]; [done|].
    rewrite IH by done. by rewrite reverse_cons, <- app_assoc.
Qed.

Lemma int_lstrip_nonspace (s : list N) :
  match s with c :: _ => PyStr.int_isspace c = false | [] => True end ->
  PyStr.int_lstrip s = s.
Proof. destruct s as [|c s]; [done|]. simpl. by intros ->. Qed.

Lemma int_strip_no_space (s : list N) :
  Forall (fun c => PyStr.int_isspace c = false) s -> PyStr.int_strip s = s.
Proof.
  intros Hs. unfold PyStr.int_strip.
  rewrite (int_lstrip_nonspace s) by (by destruct Hs).
  rewrite int_lstrip_nonspace; [apply reverse_involutive|].
  apply Forall_reverse in Hs. by destruct Hs.
Qed.

Lemma digit_char (d : N) :
  (d < 10)%N ->
  PyStr.digit_value (d + 48) = Some (Z.of_N d)
  ∧ ((d + 48 =? 95)%N = false) ∧ PyStr.int_isspace (d + 48) = false
  ∧ (d + 48)%N ≠ 46%N ∧ (d + 48)%N ≠ 95%N.
Proof.
  intros Hd.
  assert (Hcases : (d = 0 ∨ d = 1 ∨ d = 2 ∨ d = 3 ∨ d = 4 ∨ d = 5 ∨ d = 6
                    ∨ d = 7 ∨ d = 8 ∨ d = 9)%N) by lia.
  destruct Hcases as [->|[->|[->|[->|[->|[->|[->|[->|[->| ->]]]]]]]]];
    by vm_compute.
Qed.

Lemma digits_numeral (ds : list N) (acc : Z) (after_digit : bool) :
  Forall (fun d => (d < 10)%N) ds ->
  ds ≠ [] ∨ after_digit = true ->
  PyStr.digits acc after_digit (numeral ds)
  = Some (foldl (fun acc d => 10 * acc + Z.of_N d) acc ds).
Proof.
  intros Hds. revert acc after_digit.
  induction Hds as [|d ds Hd Hds IH]; intros acc after_digit Hne.
  - by destruct Hne as [?| ->].
  - destruct (digit_char d Hd) as (Hv & H95 & _ & _).
    cbn [numeral fmap list_fmap PyStr.digits foldl].
    fold (numeral ds). rewrite H95, Hv. apply IH. by right.
Qed.

Lemma digit_count_numeral (ds : list N) :
  Forall (fun d => (d < 10)%N) ds ->
  PyStr.digit_count (numeral ds) = N.of_nat (length ds).
Proof.
  intros Hds. unfold PyStr.digit_count. f_equal.
  induction Hds as [|d ds Hd Hds IH]; [done|].
  destruct (digit_char d Hd) as (_ & _ & _ & _ & H95).
  cbn [numeral fmap list_fmap]. fold (numeral ds).
  rewrite filter_cons_True by done. simpl. by rewrite IH.
Qed.

(** [int()] on an ASCII numeral: its value, unless it has more digits than
    the interpreter accepts. *)
Lemma int_numeral (ds : list N) :
  ds ≠ [] -> Forall (fun d => (d < 10)%N) ds ->
  PyStr.int (numeral ds)
  = if (N.of_nat (length ds) <=? PyStr.int_max_str_digits)%N
    then Ok (numeral_value ds) else Raise ValueError.
Proof.
  intros Hne Hds. unfold PyStr.int.
  rewrite int_strip_no_space.
  2: { unfold numeral. apply Forall_fmap. eapply Forall_impl; [exact Hds|].
       intros d Hd. by destruct (digit_char d Hd) as (_ & _ & ? & _). }
  pose proof (digits_numeral ds 0 false Hds (or_introl Hne)) as Hdigits.
  pose proof (digit_count_numeral ds Hds) as Hcount.
  destruct ds as [|d ds]; [done|]. apply Forall_cons in Hds as [Hd _].
  assert (Hcases : (d = 0 ∨ d = 1 ∨ d = 2 ∨ d = 3 ∨ d = 4 ∨ d = 5 ∨ d = 6
                    ∨ d = 7 ∨ d = 8 ∨ d = 9)%N) by lia.
  unfold numeral_value.
  destruct Hcases as [->|[->|[->|[->|[->|[->|[->|[->|[->| ->]]]]]]]]];
    cbn [numeral fmap list_fmap] in *; fold (numeral ds) in *;
    match goal with
    | |- context [(?a + 48)%N] =>
        let c := eval vm_compute in (a + 48)%N in
        change (a + 48)%N with c in *
    end;
    cbv beta iota zeta; by rewrite Hdigits, Hcount.
Qed.

(** [int()] on strings that are no plain numerals: digits of another script
    count as digits; the separators 28..31, which [str.split()] and
    [str.strip()] treat as white space, are not skipped; one digit more than
    the limit is refused. *)
Example int_examples :
  PyStr.int [65298; 65304]%N = Ok 28
  ∧ PyStr.int (160%N :: u "-1_0" ++ [12288%N]) = Ok (- 10)
  ∧ PyStr.int (u "95" ++ [31%N]) = Raise ValueError
  ∧ PyStr.int (replicate 4300 48%N) = Ok 0
  ∧ PyStr.int (replicate 4301 48%N) = Raise ValueError.
Proof. repeat split; vm_compute; reflexivity. Qed.

(** X10: a level cell reading ["Lv."] followed by a numeral of ASCII digits
    yields the number the numeral denotes, leading zeros included, as long
    as the numeral has at most [sys.int_info.default_max_str_digits] (4300)
    digits; a longer one raises [ValueError]. *)
Theorem level_of_row_numeral (ds : list N) (header : option (list N))
    (links : list Link) :
  ds ≠ [] -> Forall (fun d => (d < 10)%N) ds ->
  ((N.of_nat (length ds) <= PyStr.int_max_str_digits)%N ->
   level_of_row {| row_th := header;
                   row_td := Some {| cell_center := Some (u "Lv." ++ numeral ds);
                                     cell_links := links |} |}
   = Ok (numeral_value ds))
  ∧ ((PyStr.int_max_str_digits < N.of_nat (length ds))%N ->
     level_of_row {| row_th := header;
                     row_td := Some {| cell_center := Some (u "Lv." ++ numeral ds);
                                       cell_links := links |} |}
     = Raise ValueError).
Proof.
  intros Hne Hds.
  assert (Hsplit : PyStr.split_on 46 (u "Lv." ++ numeral ds)
                   = [u "Lv"; numeral ds]).
  { unfold PyStr.split_on. change (u "Lv." ++ numeral ds)
      with (76%N :: 118%N :: 46%N :: numeral ds).
    cbn [PyStr.split_on_aux N.eqb Pos.eqb]. f_equal.
    rewrite split_on_aux_no_sep; [done|].
    unfold numeral. intros (d & Hd & Hin)%list_elem_of_fmap.
    rewrite Forall_forall in Hds.
    by destruct (digit_char d (Hds d Hin)) as (_ & _ & _ & ? & _). }
  assert (Hrow :
    level_of_row {| row_th := header;
                    row_td := Some {| cell_center := Some (u "Lv." ++ numeral ds);
                                      cell_links := links |} |}
    = PyStr.int (numeral ds)).
  { unfold level_of_row, py_attr.
    cbn [row_td cell_center mbind res_bind]. by rewrite Hsplit. }
  rewrite Hrow, int_numeral by done. split; intros Hlen.
  - by rewrite (proj2 (N.leb_le _ _) Hlen).
  - by rewrite (proj2 (N.leb_gt _ _) Hlen).
Qed.

(** X11: how a level row fails: without a data cell or without a [<center>] in
    it the attribute access raises [AttributeError]; with a text that has no
    full stop there is no second piece and the subscript raises
    [IndexError]. *)
Theorem level_of_row_failures (row : Row) :
  (row_td row = None -> level_of_row row = Raise AttributeError)
  ∧ (forall td, row_td row = Some td -> cell_center td = None ->
       level_of_row row = Raise AttributeError)
  ∧ (forall td text, row_td row = Some td -> cell_center td = Some text ->
       46%N ∉ text -> level_of_row row = Raise IndexError).
Proof.
  unfold level_of_row. split; [by intros ->|]. split.
  - intros td Htd Hcenter. rewrite Htd. unfold py_attr.
    cbn [mbind res_bind]. by rewrite Hcenter.
  - intros td text Htd Hcenter Hdot. rewrite Htd. unfold py_attr.
    cbn [mbind res_bind]. rewrite Hcenter. cbn [mbind res_bind].
    unfold PyStr.split_on. by rewrite split_on_aux_no_sep.
Qed.

(** X12: the level scan stops at the first marked row that fails, with that
    row's exception; rows before it that parse do not matter. *)
Theorem enemy_levels_first_failure (pre post : list Row) (row : Row)
    (levels : list Z) (e : exn) :
  __get_enemy_levels_in_order pre = Ok levels ->
  header_has LEVEL_MARKER row = true ->
  level_of_row row = Raise e ->
  __get_enemy_levels_in_order (pre ++ row :: post) = Raise e.
Proof.
  intros Hpre Hmark Hrow.
  rewrite (enemy_levels_in_order_app pre (row :: post)), Hpre.
  simpl. by rewrite Hmark, Hrow.
Qed.

End LevelMore.

Lemma level_of_row_numeral_witness :
  Abyss.level_of_row (AbyssExamples.level_row "Lv.095") = Ok 95
  ∧ Abyss.level_of_row
      {| Abyss.row_th := Some Abyss.LEVEL_MARKER;
         Abyss.row_td :=
           Some {| Abyss.cell_center :=
                     Some (u "Lv." ++ AbyssMore.numeral (replicate 4301 1%N));
                   Abyss.cell_links := [] |} |}
    = Raise ValueError.
Proof.
  split.
  - apply (level_of_row_numeral [0; 9; 5]%N (Some Abyss.LEVEL_MARKER) []).
    + done.
    + repeat constructor.
    + vm_compute. discriminate.
  - apply (level_of_row_numeral (replicate 4301 1%N) (Some Abyss.LEVEL_MARKER) []).
    + done.
    + apply Forall_replicate. lia.
    + rewrite length_replicate. vm_compute. reflexivity.
Defined.

Lemma level_of_row_failures_witness :
  Abyss.level_of_row (AbyssExamples.level_row "Level 95") = Raise IndexError.
Proof.
  destruct (level_of_row_failures (AbyssExamples.level_row "Level 95"))
    as (_ & _ & Hdot).
  eapply Hdot; [reflexivity|reflexivity|].
  refine (bool_decide_unpack _ _). vm_compute. exact I.
Defined.

Lemma enemy_levels_first_failure_witness :
  Abyss.__get_enemy_levels_in_order
    ([AbyssExamples.level_row "Lv.72"]
     ++ AbyssExamples.bare_header Abyss.LEVEL_MARKER
     :: [AbyssExamples.level_row "Lv.74"])
  = Raise AttributeError.
Proof.
  apply (enemy_levels_first_failure _ _ _ [72]); vm_compute; reflexivity.
Defined.

(** ** Grouping and ordering: invariants and failures *)

Section TimelineMore.
Import Timeline.
Context {zone : LocalZone}.

Implicit Types (r : gmap (list N) (list N)).
Implicit Types (values out : list (gmap (list N) (list N))).

(** X13: the dictionary of groups has exactly the release stamps of the records
    as its keys, no group is empty, and each group lists the records of its
    stamp in the order of the input. *)
Theorem group_by_release_date_stamp_partition values
    (d : gmap Z (list (gmap (list N) (list N)))) :
  __group_by_release_date_stamp values = Ok d ->
  (forall t, t ∈ dom d
     <-> exists r, r ∈ values ∧ get_character_release_date_stamp r = Ok t)
  ∧ (forall t g, d !! t = Some g ->
       g ≠ []
       ∧ g = filter (fun r => get_character_release_date_stamp r = Ok t) values).
Proof.
  intros Hd. apply group_by_stamp_Ok in Hd as [_ Hlook]. split.
  - intros t. rewrite elem_of_dom, Hlook. unfold members_at.
    destruct (filter _ values) as [|r g] eqn:Hg.
    + split; [by intros [? [=]]|]. intros (r & Hr & Ht).
      assert (r ∈ filter (fun r => get_character_release_date_stamp r = Ok t) values)
        as Hin by (by apply list_elem_of_filter).
      rewrite Hg in Hin. by apply elem_of_nil in Hin.
    + split; [|eauto]. intros _. exists r.
      assert (r ∈ filter (fun r => get_character_release_date_stamp r = Ok t) values)
        as Hin by (rewrite Hg; by left).
      apply list_elem_of_filter in Hin as [? ?]. eauto.
  - intros t g. rewrite Hlook. unfold members_at.
    destruct (filter _ values); [done|]. by intros [= <-].
Qed.

(** X14: the first record whose release date does not parse decides the
    outcome of the whole ordering: its exception is raised, whatever
    follows it. *)
Theorem ordered_list_first_bad_date values r rest (e : exn) :
  Forall (fun r => succeeds (get_character_release_date_stamp r)) values ->
  get_character_release_date_stamp r = Raise e ->
  ordered_character_list (values ++ r :: rest) = Raise e.
Proof.
  intros Hall Hr. unfold ordered_character_list.
  by rewrite (group_by_stamp_Raise values r e Hall Hr rest).
Qed.

(** X15: when every release date parses, a single record without the name
    attribute makes the ordering raise [KeyError], wherever it stands. *)
Theorem ordered_list_missing_name values r :
  Forall (fun r => succeeds (get_character_release_date_stamp r)) values ->
  r ∈ values -> r !! u "nameCn" = None ->
  ordered_character_list values = Raise KeyError.
Proof.
  intros Hall Hin Hnone.
  destruct (ordered_character_list_needs_names values r Hin Hnone) as [e He].
  rewrite He. f_equal. revert He. unfold ordered_character_list.
  destruct (group_by_stamp_total values Hall) as [d ->]. cbn [mbind res_bind].
  destruct (sort_each_group_cases d) as [[d' ->]| ->]; [done|].
  by intros [= <-].
Qed.

Lemma split_blank (s : list N) :
  Forall (fun c => PyStr.isspace c = true) s -> PyStr.split s = [].
Proof.
  unfold PyStr.split. induction 1 as [|c s Hc _ IH]; [done|].
  cbn [PyStr.split_aux]. by rewrite Hc.
Qed.

(** X16: how a release date fails to convert.  The year is read first: with
    fewer than three words (a blank string among them) the subscript raises
    [IndexError]; a third word that is no integer raises [ValueError]
    before the month is looked at; only then an unknown month name raises
    [KeyError]. *)
Theorem convert_failures (date_string : list N) :
  ((length (PyStr.split date_string) < 3)%nat ->
     __convert_to_local_unix_date_tamp date_string = Raise IndexError)
  ∧ (Forall (fun c => PyStr.isspace c = true) date_string ->
     __convert_to_local_unix_date_tamp date_string = Raise IndexError)
  ∧ (forall month_text day_text year_text rest e,
       PyStr.split date_string = month_text :: day_text :: year_text :: rest ->
       PyStr.int year_text = Raise e ->
       __convert_to_local_unix_date_tamp date_string = Raise e)
  ∧ (forall month_text day_text year_text rest year,
       PyStr.split date_string = month_text :: day_text :: year_text :: rest ->
       PyStr.int year_text = Ok year ->
       __MONTH_NAME_TO_NUM !! month_text = None ->
       __convert_to_local_unix_date_tamp date_string = Raise KeyError).
Proof.
  assert (Hshort : (length (PyStr.split date_string) < 3)%nat ->
    __convert_to_local_unix_date_tamp date_string = Raise IndexError).
  { intros Hlen. unfold __convert_to_local_unix_date_tamp.
    by rewrite (py_index_short (PyStr.split date_string) 2) by lia. }
  split; [done|]. split; [|split].
  - intros Hblank. apply Hshort.
    rewrite split_blank by done. simpl. lia.
  - intros month_text day_text year_text rest e Hsplit Hyear.
    unfold __convert_to_local_unix_date_tamp. rewrite Hsplit.
    unfold py_index. cbn [lookup list_lookup mbind res_bind]. by rewrite Hyear.
  - intros month_text day_text year_text rest year Hsplit Hyear Hmonth.
    unfold __convert_to_local_unix_date_tamp. rewrite Hsplit.
    unfold py_index, py_getitem. cbn [lookup list_lookup mbind res_bind].
    rewrite Hyear. cbn [mbind res_bind]. by rewrite Hmonth.
Qed.

End TimelineMore.

Lemma group_by_release_date_stamp_partition_witness :
  exists d,
    Timeline.__group_by_release_date_stamp
      [TimelineExamples.barbara; TimelineExamples.layla; TimelineExamples.amber]
    = Ok d
    ∧ d !! 1601222400
      = Some [TimelineExamples.barbara; TimelineExamples.amber].
Proof.
  set (values := [TimelineExamples.barbara; TimelineExamples.layla;
                  TimelineExamples.amber]).
  destruct (group_by_stamp_total values) as [d Hd].
  { repeat constructor; eexists; vm_compute; reflexivity. }
  exists d. split; [done|].
  destruct (group_by_release_date_stamp_partition values d Hd) as [Hdom Hgroups].
  assert (Hin : 1601222400 ∈ dom d).
  { apply Hdom. exists TimelineExamples.amber. split; [|vm_compute; reflexivity].
    apply list_elem_of_further, list_elem_of_further, list_elem_of_here. }
  apply elem_of_dom in Hin as [g Hg]. rewrite Hg.
  destruct (Hgroups _ _ Hg) as [_ ->]. vm_compute. reflexivity.
Defined.

Lemma ordered_list_first_bad_date_witness :
  Timeline.ordered_character_list
    ([TimelineExamples.amber]
     ++ {[ u "nameCn" := u "Klee"; u "releaseDate" := u "Octember 20, 2020" ]}
     :: [TimelineExamples.layla])
  = Raise KeyError.
Proof.
  apply ordered_list_first_bad_date.
  - repeat constructor. eexists. vm_compute. reflexivity.
  - vm_compute. reflexivity.
Defined.

Lemma ordered_list_missing_name_witness :
  Timeline.ordered_character_list
    [TimelineExamples.amber; TimelineExamples.yae_miko_en; TimelineExamples.layla]
  = Raise KeyError.
Proof.
  apply (ordered_list_missing_name _ TimelineExamples.yae_miko_en).
  - repeat constructor; eexists; vm_compute; reflexivity.
  - apply list_elem_of_further, list_elem_of_here.
  - vm_compute. reflexivity.
Defined.

Lemma convert_failures_witness :
  Timeline.__convert_to_local_unix_date_tamp (u "  ") = Raise IndexError
  ∧ Timeline.__convert_to_local_unix_date_tamp (u "September 2020")
    = Raise IndexError
  ∧ Timeline.__convert_to_local_unix_date_tamp (u "Octember 20, MMXX")
    = Raise ValueError
  ∧ Timeline.__convert_to_local_unix_date_tamp (u "Octember 20, 2020")
    = Raise KeyError
  ∧ Timeline.__convert_to_local_unix_date_tamp
      (u "Octember 20, " ++ replicate 4301 50%N) = Raise ValueError.
Proof.
  split; [|split; [|split; [|split]]].
  - destruct (convert_failures (u "  ")) as (_ & Hblank & _).
    apply Hblank. repeat constructor.
  - destruct (convert_failures (u "September 2020")) as (Hshort & _).
    apply Hshort. vm_compute. repeat constructor.
  - destruct (convert_failures (u "Octember 20, MMXX")) as (_ & _ & Hyear & _).
    apply (Hyear (u "Octember") (u "20,") (u "MMXX") []); vm_compute; reflexivity.
  - destruct (convert_failures (u "Octember 20, 2020")) as (_ & _ & _ & Hmonth).
    apply (Hmonth (u "Octember") (u "20,") (u "2020") [] 2020);
      vm_compute; reflexivity.
  - destruct (convert_failures (u "Octember 20, " ++ replicate 4301 50%N))
      as (_ & _ & Hyear & _).
    apply (Hyear (u "Octember") (u "20,") (replicate 4301 50%N) []);
      vm_compute; reflexivity.
Defined.

(** ** The character listings *)

Section ListingFacts.
Import SourceSpec.

Variable mk : list N -> gmap (list N) (list N).

Lemma url_loop_Raise (e : exn) (rows : list (list Column)) :
  foldl (url_step_with mk) (Raise e) rows = Raise e.
Proof. induction rows as [|columns rows IH]; [done|]. exact IH. Qed.

Lemma url_step_Ok (d0 d1 : gmap (list N) (gmap (list N) (list N)))
    (columns : list Column) :
  url_step_with mk (Ok d0) columns = Ok d1 ->
  (2 <= length columns)%nat
  ∧ d1 = match linked columns with
         | Some p => <[p.1 := mk p.2]> d0
         | None => d0
         end.
Proof.
  unfold url_step_with, linked, py_index. cbn [mbind res_bind].
  destruct (columns !! 1%nat) as [column|] eqn:Hc; [|done].
  apply lookup_lt_Some in Hc. cbn [mbind res_bind option_bind].
  destruct (column_a column) as [[href|]|]; cbn; intros [= <-]; by split.
Qed.

Lemma last_linked_cons (name : list N) (columns : list Column)
    (rows : list (list Column)) :
  last_linked name (columns :: rows)
  = match last_linked name rows with
    | Some p => Some p
    | None => match linked columns with
              | Some p => if decide (p.1 = name) then Some p else None
              | None => None
              end
    end.
Proof.
  unfold last_linked. cbn [omap list_omap].
  destruct (linked columns) as [p|]; [|by destruct (last _)].
  rewrite filter_cons. destruct (decide (p.1 = name)); [|by destruct (last _)].
  destruct (filter _ (omap linked rows)) as [|q l]; [done|].
  rewrite last_cons. by destruct (last (q :: l)).
Qed.

Lemma url_loop_Ok (rows : list (list Column))
    (d0 d : gmap (list N) (gmap (list N) (list N))) :
  foldl (url_step_with mk) (Ok d0) rows = Ok d ->
  Forall (fun columns => 2 <= length columns)%nat rows
  ∧ forall name, d !! name = match last_linked name rows with
                             | Some p => Some (mk p.2)
                             | None => d0 !! name
                             end.
Proof.
  revert d0. induction rows as [|columns rows IH]; intros d0; cbn [foldl].
  - intros [= <-]. split; [constructor|done].
  - destruct (url_step_with mk (Ok d0) columns) as [d1|e] eqn:Hstep;
      [|by rewrite url_loop_Raise].
    apply url_step_Ok in Hstep as [Hlen ->].
    intros Hrun. apply IH in Hrun as [Hall Hd]. split; [by constructor|].
    intros name. rewrite Hd, last_linked_cons.
    destruct (last_linked name rows); [done|].
    destruct (linked columns) as [p|]; [|done].
    destruct (decide (p.1 = name)) as [<-|Hne].
    + by rewrite lookup_insert_eq.
    + by rewrite lookup_insert_ne.
Qed.

End ListingFacts.

Section ListingClaims.
Import SourceSpec.

(** X17: the Chinese listing: the result maps every name that a linked row after
    the header row carries (its second cell's text, stripped) to a record of
    the single attribute ["biligameUrl"], made from the link of the last
    such row; rows without a link contribute nothing, and every row that was
    read had at least two cells. *)
Theorem cn_page_urls_last_linked_row (unquote : list N -> list N)
    (header : list Column) (characters : list (list Column))
    (urls : gmap (list N) (gmap (list N) (list N))) :
  SourceCn.__get_character_page_urls unquote (Some (header :: characters)) = Ok urls ->
  Forall (fun columns => 2 <= length columns)%nat characters
  ∧ forall name,
      urls !! name
      = (fun p : list N * list N =>
           {[ u "biligameUrl" :=
                unquote (SourceCn.CHARACTER_PAGE_URL_PREFIX ++ p.2) ]})
        <$> last_linked name characters.
Proof.
  intros Hrun.
  apply (url_loop_Ok (fun href =>
    {[ u "biligameUrl" := unquote (SourceCn.CHARACTER_PAGE_URL_PREFIX ++ href) ]}))
    in Hrun as [Hall Hd].
  split; [done|]. intros name. rewrite Hd, lookup_empty.
  by destruct (last_linked name characters).
Qed.

(** X18: the English listing: only the first table is read, in the same way as
    the Chinese listing, storing ["fandomUrl"]; a page without a table gives
    the empty map. *)
Theorem en_page_urls_first_table_only
    (tables : list (option (list (list Column))))
    (urls : gmap (list N) (gmap (list N) (list N))) :
  SourceEn.__get_character_page_urls tables = Ok urls ->
  match tables with
  | [] => urls = ∅
  | table :: _ =>
      exists header characters,
        table = Some (header :: characters)
        ∧ forall name,
            urls !! name
            = (fun p : list N * list N =>
                 {[ u "fandomUrl" :=
                      SourceEn.WIKI_CHARACTER_PAGE_URL_PREFIX ++ p.2 ]})
              <$> last_linked name characters
  end
  ∧ SourceEn.__get_character_page_urls (take 1 tables) = Ok urls.
Proof.
  intros Hrun. split; [|by destruct tables].
  destruct tables as [|[[|header characters]|] tables]; try done.
  - by injection Hrun as <-.
  - exists header, characters. split; [done|].
    apply (url_loop_Ok (fun href =>
      {[ u "fandomUrl" := SourceEn.WIKI_CHARACTER_PAGE_URL_PREFIX ++ href ]}))
      in Hrun as [_ Hd].
    intros name. rewrite Hd, lookup_empty.
    by destruct (last_linked name characters).
Qed.

End ListingClaims.

Lemma cn_page_urls_last_linked_row_witness :
  exists urls,
    SourceCn.__get_character_page_urls id SourceExamples.listing_cn = Ok urls
    ∧ urls !! u "Amber"
      = Some {[ u "biligameUrl" := u "https://wiki.biligame.com/ys/Amber" ]}
    ∧ urls !! u "Traveler" = None.
Proof.
  assert (Hrun : succeeds
    (SourceCn.__get_character_page_urls id SourceExamples.listing_cn)).
  { refine (bool_decide_unpack _ _). vm_compute. exact I. }
  destruct Hrun as [urls Hrun]. exists urls. split; [done|].
  destruct (cn_page_urls_last_linked_row id _ _ urls Hrun) as [_ Hurls].
  rewrite !Hurls. split; vm_compute; reflexivity.
Defined.

Lemma en_page_urls_first_table_only_witness :
  exists urls,
    SourceEn.__get_character_page_urls
      [SourceExamples.listing_cn; None] = Ok urls
    ∧ SourceEn.__get_character_page_urls [SourceExamples.listing_cn] = Ok urls.
Proof.
  assert (Hrun : succeeds
    (SourceEn.__get_character_page_urls [SourceExamples.listing_cn; None])).
  { refine (bool_decide_unpack _ _). vm_compute. exact I. }
  destruct Hrun as [urls Hrun]. exists urls. split; [done|].
  exact (proj2 (en_page_urls_first_table_only _ urls Hrun)).
Defined.

(** ** Titles and elements of the Chinese pages *)

Section IdentityFacts.
Import SourceCn SourceSpec.

Lemma identity_loop_Raise (e : exn) (rows : list InfoRow) :
  foldl identity_step (Raise e) rows = Raise e.
Proof. induction rows as [|row rows IH]; [done|]. exact IH. Qed.

Lemma identity_step_Ok (m0 m1 : gmap (list N) (list N)) (row : InfoRow) :
  identity_step (Ok m0) row = Ok m1 ->
  m1 = (let m := match title_of row with
                 | Some title => <[u "titleCn" := title]> m0
                 | None => m0
                 end in
        match vision_of row with
        | Some vision => <[u "visionCn" := vision]> m
        | None => m
        end)
  ∧ (info_header_has TITLE_MARKER row = true -> is_Some (title_of row))
  ∧ (info_header_has VISION_MARKER row = true -> is_Some (vision_of row)).
Proof.
  unfold identity_step, title_of, vision_of, Abyss.py_attr, py_index.
  cbn [mbind res_bind].
  destruct (info_header_has TITLE_MARKER row),
    (info_header_has VISION_MARKER row), (info_td row) as [td|];
    cbn; try done; try (intros [= <-]; by eauto).
  - rewrite <- head_lookup.
    destruct (head (PyStr.strip td)) as [c|]; cbn; [|done].
    intros [= <-]. repeat split; eauto.
  - rewrite <- head_lookup.
    destruct (head (PyStr.strip td)) as [c|]; cbn; [|done].
    intros [= <-]. repeat split; eauto. done.
Qed.

Lemma identity_loop_Ok (rows : list InfoRow) (m0 info : gmap (list N) (list N)) :
  foldl identity_step (Ok m0) rows = Ok info ->
  info !! u "titleCn"
    = match last (omap title_of rows) with
      | Some title => Some title
      | None => m0 !! u "titleCn"
      end
  ∧ info !! u "visionCn"
    = match last (omap vision_of rows) with
      | Some vision => Some vision
      | None => m0 !! u "visionCn"
      end
  ∧ forall k, k ≠ u "titleCn" -> k ≠ u "visionCn" -> info !! k = m0 !! k.
Proof.
  assert (Hneq : u "titleCn" ≠ u "visionCn") by (vm_compute; discriminate).
  assert (Hlast : forall (x : list N) (l : list (list N)) (o : option (list N)),
    match last (x :: l) with Some y => Some y | None => o end
    = match last l with Some y => Some y | None => Some x end).
  { intros x l o. destruct l as [|y l]; [done|].
    rewrite last_cons. by destruct (last (y :: l)). }
  revert m0. induction rows as [|row rows IH]; intros m0; cbn [foldl].
  - by intros [= <-].
  - destruct (identity_step (Ok m0) row) as [m1|e] eqn:Hstep;
      [|by rewrite identity_loop_Raise].
    apply identity_step_Ok in Hstep as (-> & _ & _).
    intros Hrun. apply IH in Hrun as (Ht & Hv & Hk). cbn [omap list_omap].
    split; [|split].
    + rewrite Ht. destruct (title_of row) as [title|], (vision_of row) as [vision|];
        rewrite ?Hlast; destruct (last (omap title_of rows)); try done;
        by rewrite ?lookup_insert_ne, ?lookup_insert_eq by done.
    + rewrite Hv. destruct (title_of row) as [title|], (vision_of row) as [vision|];
        rewrite ?Hlast; destruct (last (omap vision_of rows)); try done;
        by rewrite ?lookup_insert_eq, ?lookup_insert_ne by done.
    + intros k Hkt Hkv. rewrite (Hk k Hkt Hkv).
      destruct (title_of row), (vision_of row);
        by rewrite ?lookup_insert_ne by done.
Qed.

(** X19: the identity info of a character page holds at most a title and an
    element: ["titleCn"] is the stripped text of the last row whose header
    contains the title marker, ["visionCn"] the first character of the
    stripped text of the last row whose header contains the element marker,
    and no other attribute ever appears. *)
Theorem identity_info_last_row_wins (rows : list InfoRow)
    (info : gmap (list N) (list N)) :
  __get_identity_info rows = Ok info ->
  info !! u "titleCn" = last (omap title_of rows)
  ∧ info !! u "visionCn" = last (omap vision_of rows)
  ∧ dom info ⊆ {[ u "titleCn"; u "visionCn" ]}.
Proof.
  intros Hrun. apply identity_loop_Ok in Hrun as (Ht & Hv & Hk).
  rewrite lookup_empty in Ht, Hv.
  split; [by destruct (last (omap title_of rows))|].
  split; [by destruct (last (omap vision_of rows))|].
  intros k Hin. apply elem_of_dom in Hin as [v Hin].
  destruct (decide (k = u "titleCn")) as [->|Hkt];
    [apply elem_of_union_l; by apply elem_of_singleton|].
  destruct (decide (k = u "visionCn")) as [->|Hkv];
    [apply elem_of_union_r; by apply elem_of_singleton|].
  rewrite (Hk k Hkt Hkv), lookup_empty in Hin. done.
Qed.

(** X20: a marked row without a data cell, or an element row whose text is
    blank, makes the whole extraction fail: with [AttributeError] and
    [IndexError] respectively, when it is the first row to fail. *)
Theorem identity_info_failures (pre post : list InfoRow) (row : InfoRow)
    (m : gmap (list N) (list N)) :
  foldl identity_step (Ok ∅) pre = Ok m ->
  ((info_header_has TITLE_MARKER row = true
    ∨ info_header_has VISION_MARKER row = true) ->
   info_td row = None ->
   __get_identity_info (pre ++ row :: post) = Raise AttributeError)
  ∧ (forall td, info_header_has VISION_MARKER row = true ->
       info_td row = Some td -> PyStr.strip td = [] ->
       __get_identity_info (pre ++ row :: post) = Raise IndexError).
Proof.
  intros Hpre. unfold __get_identity_info. rewrite !foldl_app, Hpre. cbn [foldl].
  split.
  - intros Hmark Htd.
    assert (identity_step (Ok m) row = Raise AttributeError) as ->;
      [|apply identity_loop_Raise].
    unfold identity_step, Abyss.py_attr. cbn [mbind res_bind]. rewrite Htd.
    destruct (info_header_has TITLE_MARKER row); [done|].
    by destruct Hmark as [?| ->].
  - intros td Hmark Htd Hblank.
    assert (identity_step (Ok m) row = Raise IndexError) as ->;
      [|apply identity_loop_Raise].
    unfold identity_step, Abyss.py_attr, py_index. cbn [mbind res_bind].
    rewrite Htd, Hmark.
    destruct (info_header_has TITLE_MARKER row); cbn [mbind res_bind];
      by rewrite Hblank.
Qed.

End IdentityFacts.

Lemma identity_info_last_row_wins_witness :
  exists info,
    SourceCn.__get_identity_info SourceExamples.amber_rows = Ok info
    ∧ info !! u "titleCn" = Some (u "Gliding Champion")
    ∧ info !! u "visionCn" = Some (u "P").
Proof.
  assert (Hrun : succeeds (SourceCn.__get_identity_info SourceExamples.amber_rows)).
  { refine (bool_decide_unpack _ _). vm_compute. exact I. }
  destruct Hrun as [info Hrun]. exists info. split; [done|].
  destruct (identity_info_last_row_wins _ _ Hrun) as (-> & -> & _).
  split; vm_compute; reflexivity.
Defined.

Lemma identity_info_failures_witness :
  SourceCn.__get_identity_info
    ([ {| SourceCn.info_th := Some SourceCn.TITLE_MARKER;
          SourceCn.info_td := Some (u "Gliding Champion") |} ]
     ++ {| SourceCn.info_th := Some SourceCn.VISION_MARKER;
           SourceCn.info_td := Some (u "  ") |} :: [])
  = Raise IndexError.
Proof.
  assert (Hpre : foldl SourceCn.identity_step (Ok ∅)
            [ {| SourceCn.info_th := Some SourceCn.TITLE_MARKER;
                 SourceCn.info_td := Some (u "Gliding Champion") |} ]
          = Ok {[ u "titleCn" := u "Gliding Champion" ]})
    by (vm_compute; reflexivity).
  apply (proj2 (identity_info_failures _ [] _ _ Hpre) (u "  "));
    vm_compute; reflexivity.
Defined.

(** ** The records of the two sources *)

Section SourceRecords.
Import SourceSpec.

(** X21: every record of the Chinese source carries its own key as ["nameCn"] and
    the URL of its page as ["biligameUrl"], whatever the character pages
    contributed: the identity info of a page cannot override either, and its
    title and element are taken over unchanged. *)
Theorem cn_info_carries_name_and_url (unquote : list N -> list N)
    (listing : option (list (list Column)))
    (urls titles : gmap (list N) (gmap (list N) (list N))) :
  SourceCn.__get_character_page_urls unquote listing = Ok urls ->
  (forall name info, titles !! name = Some info ->
     exists rows, SourceCn.__get_identity_info rows = Ok info) ->
  forall name, is_Some (urls !! name) ->
    exists record url,
      SourceCn.assemble_character_info (SourceCn.names_of urls) titles urls !! name
        = Some record
      ∧ record !! u "nameCn" = Some name
      ∧ record !! u "biligameUrl" = Some url
      ∧ urls !! name = Some {[ u "biligameUrl" := url ]}
      ∧ (forall info, titles !! name = Some info ->
           record !! u "titleCn" = info !! u "titleCn"
           ∧ record !! u "visionCn" = info !! u "visionCn").
Proof.
  assert (Hnu : u "nameCn" ≠ u "biligameUrl") by (vm_compute; discriminate).
  assert (Hnt : u "nameCn" ≠ u "titleCn") by (vm_compute; discriminate).
  assert (Hnv : u "nameCn" ≠ u "visionCn") by (vm_compute; discriminate).
  assert (Hut : u "biligameUrl" ≠ u "titleCn") by (vm_compute; discriminate).
  assert (Huv : u "biligameUrl" ≠ u "visionCn") by (vm_compute; discriminate).
  intros Hurls Htitles name [url_map Hname].
  destruct listing as [[|header characters]|]; try done.
  apply (url_loop_Ok (fun href =>
    {[ u "biligameUrl" := unquote (SourceCn.CHARACTER_PAGE_URL_PREFIX ++ href) ]}))
    in Hurls as [_ Hd].
  pose proof (Hd name) as Hshape. rewrite Hname, lookup_empty in Hshape.
  destruct (last_linked name characters) as [p|]; [|done].
  injection Hshape as ->.
  set (url := unquote (SourceCn.CHARACTER_PAGE_URL_PREFIX ++ p.2)) in *.
  unfold SourceCn.assemble_character_info, SourceCn.names_of.
  rewrite !merge_lookup, map_lookup_imap, Hname. cbn [mbind option_bind].
  destruct (titles !! name) as [info|] eqn:Hinfo; cbn [Merger.overlay].
  - destruct (Htitles name info Hinfo) as [rows Hrows].
    apply identity_loop_Ok in Hrows as (_ & _ & Hk).
    assert (Hother : forall k, k ≠ u "biligameUrl" ->
      ({[u "biligameUrl" := url]} ∪ (info ∪ {[u "nameCn" := name]})
         : gmap (list N) (list N)) !! k
      = (info ∪ {[u "nameCn" := name]}) !! k).
    { intros k Hne. apply lookup_union_r. by apply lookup_singleton_ne. }
    eexists _, url. split; [done|].
    split; [|split; [|split; [done|]]].
    + rewrite Hother by done.
      rewrite lookup_union_r by (by rewrite (Hk _ Hnt Hnv)).
      apply lookup_singleton_eq.
    + apply lookup_union_Some_l, lookup_singleton_eq.
    + intros info' [= <-]. rewrite !Hother by done.
      rewrite !lookup_union, !lookup_singleton_ne by done.
      split; by destruct (info !! _).
  - eexists _, url. split; [done|].
    split; [|split; [|split; [done|done]]].
    + rewrite lookup_union_r by (by apply lookup_singleton_ne).
      apply lookup_singleton_eq.
    + apply lookup_union_Some_l, lookup_singleton_eq.
Qed.

Lemma rekey_cases (names_cn : gmap (list N) (list N))
    (info : gmap (list N) (gmap (list N) (list N))) :
  succeeds (SourceEn.rekey_by_cn_name names_cn info)
  ∨ SourceEn.rekey_by_cn_name names_cn info = Raise KeyError.
Proof.
  unfold SourceEn.rekey_by_cn_name.
  apply (map_fold_weak_ind (fun acc _ => succeeds acc ∨ acc = Raise KeyError)).
  - left. by eexists.
  - intros en record m acc _ [[out ->]| ->]; [|by right].
    unfold SourceEn.rekey_step, py_getitem. cbn [mbind res_bind].
    destruct (names_cn !! en); [left; by eexists|by right].
Qed.

Lemma rekey_Ok (names_cn : gmap (list N) (list N))
    (info out : gmap (list N) (gmap (list N) (list N))) :
  SourceEn.rekey_by_cn_name names_cn info = Ok out ->
  dom info ⊆ dom names_cn
  ∧ (forall cn record, out !! cn = Some record ->
       exists en, names_cn !! en = Some cn ∧ info !! en = Some record)
  ∧ ((forall e1 e2 cn, is_Some (info !! e1) -> is_Some (info !! e2) ->
        names_cn !! e1 = Some cn -> names_cn !! e2 = Some cn -> e1 = e2) ->
     forall en record cn, info !! en = Some record -> names_cn !! en = Some cn ->
       out !! cn = Some record).
Proof.
  unfold SourceEn.rekey_by_cn_name. revert out.
  apply (map_fold_weak_ind (fun acc m => forall out, acc = Ok out ->
    dom m ⊆ dom names_cn
    ∧ (forall cn record, out !! cn = Some record ->
         exists en, names_cn !! en = Some cn ∧ m !! en = Some record)
    ∧ ((forall e1 e2 cn, is_Some (m !! e1) -> is_Some (m !! e2) ->
          names_cn !! e1 = Some cn -> names_cn !! e2 = Some cn -> e1 = e2) ->
       forall en record cn, m !! en = Some record -> names_cn !! en = Some cn ->
         out !! cn = Some record))).
  - intros out [= <-]. split; [by rewrite dom_empty_L|]. split.
    + intros cn record Hcn. by rewrite lookup_empty in Hcn.
    + intros _ en record cn Hen. by rewrite lookup_empty in Hen.
  - intros i x m acc Hm IH out Hstep.
    unfold SourceEn.rekey_step in Hstep.
    apply bind_Ok in Hstep as (out0 & -> & Hstep).
    apply bind_Ok in Hstep as (c & Hc & [= <-]).
    unfold py_getitem in Hc. destruct (names_cn !! i) as [c'|] eqn:Hi; [|done].
    injection Hc as ->.
    destruct (IH out0 eq_refl) as (Hdom & Hfrom & Hto). split; [|split].
    + rewrite dom_insert_L. intros k [->%elem_of_singleton|Hk]%elem_of_union.
      * apply elem_of_dom. eauto.
      * by apply Hdom.
    + intros cn record Hcn. destruct (decide (cn = c)) as [->|Hne].
      * rewrite lookup_insert_eq in Hcn. injection Hcn as <-.
        exists i. by rewrite lookup_insert_eq.
      * rewrite lookup_insert_ne in Hcn by done.
        destruct (Hfrom cn record Hcn) as (en & Hen & Hrec). exists en.
        split; [done|]. rewrite lookup_insert_ne; [done|]. intros ->. congruence.
    + intros Hinj en record cn Hen Hcn.
      destruct (decide (en = i)) as [->|Hne].
      * rewrite lookup_insert_eq in Hen. injection Hen as <-.
        assert (cn = c) as -> by congruence. apply lookup_insert_eq.
      * rewrite lookup_insert_ne in Hen by done.
        assert (cn ≠ c) as Hcne.
        { intros ->. apply Hne. apply (Hinj en i c); [| |done|done].
          - rewrite lookup_insert_ne by done. eauto.
          - rewrite lookup_insert_eq. eauto. }
        rewrite lookup_insert_ne by done. eapply Hto; [|exact Hen|exact Hcn].
        intros e1 e2 cn' [r1 H1] [r2 H2]. apply Hinj.
        -- rewrite lookup_insert_ne; [eauto|]. intros ->. congruence.
        -- rewrite lookup_insert_ne; [eauto|]. intros ->. congruence.
Qed.

Lemma rekey_total (names_cn : gmap (list N) (list N))
    (info : gmap (list N) (gmap (list N) (list N))) :
  dom info ⊆ dom names_cn -> succeeds (SourceEn.rekey_by_cn_name names_cn info).
Proof.
  unfold SourceEn.rekey_by_cn_name.
  apply (map_fold_weak_ind (fun acc m => dom m ⊆ dom names_cn -> succeeds acc)).
  - intros _. by eexists.
  - intros i x m acc Hm IH Hdom. rewrite dom_insert_L in Hdom.
    destruct IH as [out ->].
    { intros k Hk. apply Hdom. by apply elem_of_union_r. }
    assert (i ∈ dom names_cn) as [c Hc]%elem_of_dom.
    { apply Hdom. by apply elem_of_union_l, elem_of_singleton. }
    unfold SourceEn.rekey_step, py_getitem. cbn [mbind res_bind]. rewrite Hc.
    by eexists.
Qed.

(** X22: re-keying the English records by Chinese name succeeds exactly when
    every English name has a Chinese name, and raises [KeyError] otherwise.
    Each record of the result is a record of the input, found under the
    Chinese name of its English name; when no two English names share a
    Chinese name, no record is lost. *)
Theorem rekey_by_cn_name_lossless (names_cn : gmap (list N) (list N))
    (info : gmap (list N) (gmap (list N) (list N))) :
  (succeeds (SourceEn.rekey_by_cn_name names_cn info) <-> dom info ⊆ dom names_cn)
  ∧ (¬ dom info ⊆ dom names_cn ->
     SourceEn.rekey_by_cn_name names_cn info = Raise KeyError)
  ∧ (forall out, SourceEn.rekey_by_cn_name names_cn info = Ok out ->
       (forall cn record, out !! cn = Some record ->
          exists en, names_cn !! en = Some cn ∧ info !! en = Some record)
       ∧ ((forall e1 e2 cn, is_Some (info !! e1) -> is_Some (info !! e2) ->
             names_cn !! e1 = Some cn -> names_cn !! e2 = Some cn -> e1 = e2) ->
          forall en record cn,
            info !! en = Some record -> names_cn !! en = Some cn ->
            out !! cn = Some record)).
Proof.
  split; [|split].
  - split; [|apply rekey_total]. intros [out Hout]. by apply rekey_Ok in Hout as [? _].
  - intros Hnot. destruct (rekey_cases names_cn info) as [[out Hout]|Hraise]; [|done].
    by apply rekey_Ok in Hout as [? _].
  - intros out Hout. by apply rekey_Ok in Hout as (_ & ? & ?).
Qed.

Lemma en_record_has_no_cn_name
    (tables : list (option (list (list Column))))
    (urls : gmap (list N) (gmap (list N) (list N)))
    (facts : gmap (list N) (list N * list N))
    (en : list N) (record : gmap (list N) (list N)) :
  SourceEn.__get_character_page_urls tables = Ok urls ->
  Merger._merge_by_dict_key
    (Merger._merge_by_dict_key (SourceEn.names_of urls) (SourceEn.metadata_of facts))
    urls !! en = Some record ->
  record !! u "nameCn" = None.
Proof.
  assert (H1 : u "nameEn" ≠ u "nameCn") by (vm_compute; discriminate).
  assert (H2 : u "titleEn" ≠ u "nameCn") by (vm_compute; discriminate).
  assert (H3 : u "releaseDate" ≠ u "nameCn") by (vm_compute; discriminate).
  assert (H4 : u "fandomUrl" ≠ u "nameCn") by (vm_compute; discriminate).
  intros Hurls.
  assert (Hshape : forall url_map, urls !! en = Some url_map ->
            url_map !! u "nameCn" = None).
  { intros url_map Hen.
    destruct tables as [|[[|header characters]|] tables]; try done.
    - injection Hurls as <-. by rewrite lookup_empty in Hen.
    - apply (url_loop_Ok (fun href =>
        {[ u "fandomUrl" := SourceEn.WIKI_CHARACTER_PAGE_URL_PREFIX ++ href ]}))
        in Hurls as [_ Hd].
      rewrite Hd, lookup_empty in Hen.
      destruct (last_linked en characters); [|done].
      injection Hen as <-. by apply lookup_singleton_ne. }
  rewrite !merge_lookup. unfold SourceEn.names_of, SourceEn.metadata_of.
  rewrite map_lookup_imap, lookup_fmap.
  destruct (urls !! en) as [url_map|] eqn:Hen;
    destruct (facts !! en) as [fact|]; cbn; intros [= <-];
    rewrite ?lookup_union_None, ?lookup_insert_ne, ?lookup_singleton_ne,
      ?lookup_empty by done; auto.
Qed.

End SourceRecords.

Section SourcePipeline.
Import Timeline.
Context {zone : LocalZone}.

(** X23: no record of the English source carries ["nameCn"].  So a character that
    the English source knows and the Chinese source does not list makes
    [get_character_info_json] raise, in whatever order the merged map lists
    its values. *)
Theorem english_only_character_breaks_ordering
    (tables : list (option (list (list Column))))
    (urls : gmap (list N) (gmap (list N) (list N)))
    (facts : gmap (list N) (list N * list N))
    (names_cn : gmap (list N) (list N))
    (info_cn info_en : gmap (list N) (gmap (list N) (list N)))
    (key : list N) (values : list (gmap (list N) (list N))) :
  SourceEn.__get_character_page_urls tables = Ok urls ->
  SourceEn.assemble_character_info (SourceEn.names_of urls)
    (SourceEn.metadata_of facts) urls names_cn = Ok info_en ->
  is_Some (info_en !! key) -> info_cn !! key = None ->
  values ≡ₚ (map_to_list (get_character_info_map info_cn info_en)).*2 ->
  raises (ordered_character_list values).
Proof.
  intros Hurls Hassemble [record Hrecord] Hcn Hvalues.
  unfold SourceEn.assemble_character_info in Hassemble.
  apply rekey_Ok in Hassemble as (_ & Hfrom & _).
  destruct (Hfrom key record Hrecord) as (en & _ & Hen).
  apply (ordered_character_list_needs_names values record).
  - rewrite Hvalues. apply list_elem_of_fmap. exists (key, record).
    split; [done|]. apply elem_of_map_to_list.
    unfold get_character_info_map. by rewrite merge_lookup, Hcn, Hrecord.
  - by eapply en_record_has_no_cn_name.
Qed.

End SourcePipeline.

Lemma cn_info_carries_name_and_url_witness :
  exists urls record,
    SourceCn.__get_character_page_urls id SourceExamples.listing_cn = Ok urls
    ∧ SourceCn.assemble_character_info (SourceCn.names_of urls) ∅ urls !! u "Layla"
      = Some record
    ∧ record !! u "nameCn" = Some (u "Layla").
Proof.
  assert (Hrun : succeeds
    (SourceCn.__get_character_page_urls id SourceExamples.listing_cn)).
  { refine (bool_decide_unpack _ _). vm_compute. exact I. }
  destruct Hrun as [urls Hrun].
  destruct (cn_info_carries_name_and_url id _ urls ∅ Hrun) with (name := u "Layla")
    as (record & url & Hrecord & Hname & _).
  - intros name info Hinfo. by rewrite lookup_empty in Hinfo.
  - assert (Hin : bool_decide (is_Some
      (default ∅ (match SourceCn.__get_character_page_urls id
                          SourceExamples.listing_cn with
                  | Ok m => Some m | Raise _ => None end) !! u "Layla")) = true)
      by (vm_compute; reflexivity).
    rewrite Hrun in Hin. by apply bool_decide_eq_true in Hin.
  - by exists urls, record.
Defined.

Lemma rekey_by_cn_name_lossless_witness :
  succeeds (SourceEn.rekey_by_cn_name SourceExamples.names_cn SourceExamples.urls_en)
  ∧ SourceEn.rekey_by_cn_name ∅ SourceExamples.urls_en = Raise KeyError.
Proof.
  split.
  - apply (rekey_by_cn_name_lossless SourceExamples.names_cn SourceExamples.urls_en).
    refine (bool_decide_unpack _ _). vm_compute. exact I.
  - apply (rekey_by_cn_name_lossless ∅ SourceExamples.urls_en).
    intros Hsub. assert (u "Amber" ∈ dom (∅ : gmap (list N) (list N))) as Hin.
    { apply Hsub. apply elem_of_dom. eexists. vm_compute. reflexivity. }
    by rewrite dom_empty_L in Hin.
Defined.

Lemma english_only_character_breaks_ordering_witness :
  raises (Timeline.ordered_character_list
            (map_to_list (Timeline.get_character_info_map
                            SourceExamples.info_cn SourceExamples.info_en)).*2).
Proof.
  apply (english_only_character_breaks_ordering SourceExamples.tables_en
           SourceExamples.urls_en SourceExamples.facts_en SourceExamples.names_cn
           SourceExamples.info_cn SourceExamples.info_en (u "Bachong Shenzi")).
  - refine (bool_decide_unpack _ _). vm_compute. exact I.
  - refine (bool_decide_unpack _ _). vm_compute. exact I.
  - refine (bool_decide_unpack _ _). vm_compute. exact I.
  - refine (bool_decide_unpack _ _). vm_compute. exact I.
  - done.
Defined.

(** ** Decoded periods *)

Section DecodedPeriod.
Import Abyss.

Variable unquote : list N -> list N.

Lemma extract_enemy_info_NoDup (cell : Cell) (out : list EnemyInfo) :
  __extract_enemy_info unquote cell = Ok out -> NoDup (nameCn <$> out).
Proof.
  unfold __extract_enemy_info. intros H.
  apply bind_Ok in H as (infos & _ & [= <-]).
  rewrite deduplicated_first_seen. apply first_seen_NoDup.
Qed.

Lemma res_map_Forall_out {A B} (f : A -> res B) (P : B -> Prop)
    (l : list A) (ys : list B) :
  (forall x y, f x = Ok y -> P y) -> res_map f l = Ok ys -> Forall P ys.
Proof.
  intros HP Hmap. apply res_map_Forall2 in Hmap.
  induction Hmap; constructor; eauto.
Qed.

(** X24: in a decoded period every half lists each enemy name at most once, in
    every chamber of every floor. *)
Theorem decoded_halves_have_distinct_names (rows : list Row) (p : PeriodInfo) :
  decode unquote rows = Ok p ->
  forall floor chamber c, slot p floor chamber = Some c ->
    NoDup (nameCn <$> enemies (firstHalf c))
    ∧ NoDup (nameCn <$> enemies (secondHalf c)).
Proof.
  unfold decode. intros H.
  apply bind_Ok in H as (firsts & Hfirsts & H).
  apply bind_Ok in H as (seconds & Hseconds & H).
  apply bind_Ok in H as (levels & _ & H).
  apply (res_map_Forall_out _ (fun out => NoDup (nameCn <$> out)))
    in Hfirsts; [|apply extract_enemy_info_NoDup].
  apply (res_map_Forall_out _ (fun out => NoDup (nameCn <$> out)))
    in Hseconds; [|apply extract_enemy_info_NoDup].
  rewrite Forall_lookup in Hfirsts, Hseconds.
  unfold assemble_period in H.
  repeat match goal with
  | Hrun : (chamber_of _ _ _ _ _ _ ≫= _) = Ok _ |- _ =>
      let c := fresh "c" in
      let Hc := fresh "Hc" in
      apply bind_Ok in Hrun; destruct Hrun as (c & Hc & Hrun);
      apply chamber_of_Ok in Hc as (? & ? & ? & _ & ?%Hfirsts & ?%Hseconds & ->)
  end.
  injection H as <-.
  intros floor chamber c Hslot. unfold slot in Hslot.
  destruct floor as [|[|[|[|[|[|[|[|[|[|[|[|[|floor]]]]]]]]]]]]];
    simpl in Hslot; try done;
    destruct chamber as [|[|[|[|chamber]]]]; simpl in Hslot; try done;
    injection Hslot as <-; by split.
Qed.

End DecodedPeriod.

Lemma decoded_halves_have_distinct_names_witness :
  exists p, Abyss.decode id AbyssExamples.sample_rows = Ok p
    ∧ NoDup (Abyss.nameCn
               <$> Abyss.enemies (Abyss.firstHalf (Abyss.chamber1 (Abyss.floor9 p)))).
Proof.
  assert (Hrun : succeeds (Abyss.decode id AbyssExamples.sample_rows)).
  { refine (bool_decide_unpack _ _). vm_compute. exact I. }
  destruct Hrun as [p Hrun]. exists p. split; [done|].
  by destruct (decoded_halves_have_distinct_names id _ p Hrun 9%nat 1%nat
                 (Abyss.chamber1 (Abyss.floor9 p)) eq_refl).
Defined.

(** ** Stamps and the calendar *)

Section Calendar.
Import Timeline TimelineMore.

Lemma days_before_year_succ (y : Z) :
  1 <= y ->
  days_before_year (y + 1)
  = days_before_year y + (if is_leap y then 366 else 365).
Proof.
  intros Hy. unfold days_before_year, is_leap.
  replace (y + 1 - 1) with y by lia.
  pose proof (Z.div_mod y 4 ltac:(lia)).
  pose proof (Z.mod_pos_bound y 4 ltac:(lia)).
  pose proof (Z.div_mod y 100 ltac:(lia)).
  pose proof (Z.mod_pos_bound y 100 ltac:(lia)).
  pose proof (Z.div_mod y 400 ltac:(lia)).
  pose proof (Z.mod_pos_bound y 400 ltac:(lia)).
  pose proof (Z.div_mod (y - 1) 4 ltac:(lia)).
  pose proof (Z.mod_pos_bound (y - 1) 4 ltac:(lia)).
  pose proof (Z.div_mod (y - 1) 100 ltac:(lia)).
  pose proof (Z.mod_pos_bound (y - 1) 100 ltac:(lia)).
  pose proof (Z.div_mod (y - 1) 400 ltac:(lia)).
  pose proof (Z.mod_pos_bound (y - 1) 400 ltac:(lia)).
  destruct (Z.eqb_spec (y mod 4) 0), (Z.eqb_spec (y mod 100) 0),
    (Z.eqb_spec (y mod 400) 0); cbn [andb orb negb]; lia.
Qed.

Lemma days_before_year_mono (y1 y2 : Z) :
  1 <= y1 <= y2 ->
  days_before_year y1 + 365 * (y2 - y1) <= days_before_year y2.
Proof.
  intros [H1 H12].
  assert (Hnat : forall n : nat,
    days_before_year y1 + 365 * Z.of_nat n <= days_before_year (y1 + Z.of_nat n)).
  { induction n as [|n IH];
      [replace (y1 + Z.of_nat 0) with y1 by lia; lia|].
    replace (y1 + Z.of_nat (S n)) with (y1 + Z.of_nat n + 1) by lia.
    rewrite days_before_year_succ by lia.
    destruct (is_leap (y1 + Z.of_nat n)); lia. }
  specialize (Hnat (Z.to_nat (y2 - y1))).
  rewrite Z2Nat.id in Hnat by lia.
  by replace (y1 + (y2 - y1)) with y2 in Hnat by lia.
Qed.

Ltac month_cases m :=
  let H := fresh in
  assert (H : m = 1 ∨ m = 2 ∨ m = 3 ∨ m = 4 ∨ m = 5 ∨ m = 6 ∨ m = 7
              ∨ m = 8 ∨ m = 9 ∨ m = 10 ∨ m = 11 ∨ m = 12) by lia;
  destruct H as [->|[->|[->|[->|[->|[->|[->|[->|[->|[->|[->| ->]]]]]]]]]]].

Ltac month_sums :=
  repeat match goal with
  | |- context [foldr Z.add 0 ?l] =>
      let v := eval cbv in (foldr Z.add 0 l) in
      change (foldr Z.add 0 l) with v
  end; cbn.

Lemma day_of_year_range (y m d : Z) :
  1 <= m <= 12 -> 1 <= d <= days_in_month y m ->
  1 <= days_before_month y m + d <= (if is_leap y then 366 else 365).
Proof.
  intros Hm. unfold days_before_month, days_in_month.
  generalize (is_leap y). intros leap.
  month_cases m; destruct leap; month_sums; lia.
Qed.

Lemma days_before_month_next (y m1 m2 : Z) :
  1 <= m1 -> m1 < m2 -> m2 <= 12 ->
  days_before_month y m1 + days_in_month y m1 <= days_before_month y m2.
Proof.
  intros H1 H12 H2. unfold days_before_month, days_in_month.
  generalize (is_leap y). intros leap.
  assert (1 <= m1 <= 12) as Hm1 by lia. assert (1 <= m2 <= 12) as Hm2 by lia.
  month_cases m1; month_cases m2; try lia; destruct leap; month_sums; lia.
Qed.

Lemma toordinal_lt (a b : datetime) :
  1 <= dt_year a -> 1 <= dt_month a <= 12 ->
  1 <= dt_day a <= days_in_month (dt_year a) (dt_month a) ->
  1 <= dt_month b <= 12 ->
  1 <= dt_day b <= days_in_month (dt_year b) (dt_month b) ->
  date_lt a b -> toordinal a < toordinal b.
Proof.
  intros Hya Hma Hda Hmb Hdb Hlt. unfold toordinal.
  pose proof (day_of_year_range _ _ _ Hma Hda) as Ha.
  pose proof (day_of_year_range _ _ _ Hmb Hdb) as Hb.
  destruct Hlt as [Hy|[Hy [Hm|[Hm Hd]]]].
  - pose proof (days_before_year_succ (dt_year a) Hya) as Hsucc.
    pose proof (days_before_year_mono (dt_year a + 1) (dt_year b) ltac:(lia)).
    destruct (is_leap (dt_year a)); lia.
  - rewrite <- Hy in *.
    pose proof (days_before_month_next (dt_year a) (dt_month a) (dt_month b)
                  ltac:(lia) Hm ltac:(lia)).
    lia.
  - rewrite <- Hy, <- Hm in *. lia.
Qed.

(** X25: in a zone whose offset from UTC never changes, a later calendar date
    has a larger stamp: ordering by stamp is ordering by release date. *)
Theorem stamps_follow_the_calendar {zone : LocalZone} (offset : Z)
    (y1 m1 d1 y2 m2 d2 : Z) (a b : datetime) :
  (forall w, utcoffset w = offset) ->
  new_datetime y1 m1 d1 = Ok a -> new_datetime y2 m2 d2 = Ok b ->
  date_lt a b -> mktime a < mktime b.
Proof.
  intros Hoffset Ha Hb Hlt.
  apply new_datetime_Ok in Ha as ((Hya & Hma & Hda) & ->).
  apply new_datetime_Ok in Hb as ((Hyb & Hmb & Hdb) & ->).
  unfold mktime, wall_seconds. rewrite !Hoffset.
  assert (Hord : toordinal {| dt_year := y1; dt_month := m1; dt_day := d1 |}
                 < toordinal {| dt_year := y2; dt_month := m2; dt_day := d2 |}).
  { apply toordinal_lt; simpl; try done; lia. }
  lia.
Qed.

End Calendar.

Lemma stamps_follow_the_calendar_witness :
  @Timeline.mktime Timeline.cst
    {| Timeline.dt_year := 2020; Timeline.dt_month := 2; Timeline.dt_day := 29 |}
  < @Timeline.mktime Timeline.cst
      {| Timeline.dt_year := 2020; Timeline.dt_month := 3; Timeline.dt_day := 1 |}.
Proof.
  apply (@stamps_follow_the_calendar Timeline.cst 28800 2020 2 29 2020 3 1).
  - reflexivity.
  - vm_compute. reflexivity.
  - vm_compute. reflexivity.
  - right. split; [reflexivity|]. left. simpl. lia.
Defined.

(** ** Enemy base resistance *)

Section BaseResistance.
Import Resistance.

Lemma scan_row_other (st : list (list N) * list (list N)) (idx : nat) (row : Tr) :
  idx ≠ 1%nat -> idx ≠ 2%nat -> scan_row st (idx, row) = st.
Proof.
  intros H1 H2. unfold scan_row. simpl.
  rewrite !bool_decide_eq_false_2 by done. by destruct st.
Qed.

Lemma scan_rows_late (f : nat -> nat) (rows : list Tr)
    (st : list (list N) * list (list N)) :
  (forall i, (3 <= f i)%nat) ->
  foldl scan_row st (imap (fun i row => (f i, row)) rows) = st.
Proof.
  revert f st. induction rows as [|row rows IH]; intros f st Hf; [done|].
  simpl. rewrite scan_row_other by (specialize (Hf 0%nat); lia).
  apply (IH (f ∘ S)). intros i. apply Hf.
Qed.

(** The loop in closed form: the headers of row 1 paired with the cells of
    row 2, a missing row counting as one without cells. *)
Lemma parse_base_resistance_info_rows (tbody : list Tr) :
  __parse_base_resistance_info tbody
  = py_dict (zip (stripped_texts (default [] (tr_th <$> tbody !! 1%nat)))
                 (stripped_texts (default [] (tr_td <$> tbody !! 2%nat)))).
Proof.
  unfold __parse_base_resistance_info.
  destruct tbody as [|a [|b [|c rest]]]; try done.
  cbn [imap foldl].
  change (imap _ rest) with (imap (fun i row => (S (S (S i)), row)) rest).
  rewrite scan_rows_late by (intros i; lia). done.
Qed.

Lemma py_dict_snoc (pairs : list (list N * list N)) (k v : list N) :
  py_dict (pairs ++ [(k, v)]) = <[k:=v]> (py_dict pairs).
Proof. unfold py_dict. by rewrite foldl_app. Qed.

Lemma py_dict_lookup_last (pairs : list (list N * list N)) (i : nat) (k v : list N) :
  pairs !! i = Some (k, v) ->
  (forall j v', (i < j)%nat -> pairs !! j ≠ Some (k, v')) ->
  py_dict pairs !! k = Some v.
Proof.
  revert i. induction pairs as [|[k' v'] pairs IH] using rev_ind;
    intros i Hi Hlater; [done|].
  rewrite py_dict_snoc.
  destruct (decide (i = length pairs)) as [->|Hne].
  - rewrite lookup_app_r, Nat.sub_diag in Hi by lia. simpl in Hi.
    injection Hi as -> ->. by rewrite lookup_insert_eq.
  - assert (i < length pairs)%nat as Hlt.
    { apply lookup_lt_Some in Hi. rewrite length_app in Hi. simpl in Hi. lia. }
    rewrite lookup_app_l in Hi by done.
    assert (k' ≠ k) as Hk.
    { intros ->. apply (Hlater (length pairs) v'); [done|].
      by rewrite lookup_app_r, Nat.sub_diag by lia. }
    rewrite lookup_insert_ne by done. apply (IH i Hi).
    intros j v'' Hj Hlook. apply (Hlater j v'' Hj).
    rewrite lookup_app_l; [done|]. by eapply lookup_lt_Some.
Qed.

Lemma py_dict_lookup_None (pairs : list (list N * list N)) (k : list N) :
  py_dict pairs !! k = None <-> k ∉ pairs.*1.
Proof.
  induction pairs as [|[k' v'] pairs IH] using rev_ind.
  - split; [intros _; apply not_elem_of_nil|done].
  - rewrite py_dict_snoc, fmap_app, not_elem_of_app. simpl.
    destruct (decide (k' = k)) as [->|Hk].
    + rewrite lookup_insert_eq. split; [done|].
      intros [_ Hnot]. destruct Hnot. apply list_elem_of_here.
    + rewrite lookup_insert_ne, IH by done. split; [|tauto].
      intros Hnot. split; [done|]. intros Hin.
      apply list_elem_of_singleton in Hin. congruence.
Qed.

Lemma fst_zip_take {A B} (l : list A) (k : list B) :
  (zip l k).*1 = take (length k) l.
Proof.
  revert k. induction l as [|x l IH]; intros [|y k]; simpl; try done.
  by rewrite IH.
Qed.

(** X26: the parser reads the header cells of the second row and the data cells
    of the third row, and nothing else of the table body. *)
Theorem base_resistance_reads_two_rows (t1 t2 : list Tr) :
  tr_th <$> t1 !! 1%nat = tr_th <$> t2 !! 1%nat ->
  tr_td <$> t1 !! 2%nat = tr_td <$> t2 !! 2%nat ->
  __parse_base_resistance_info t1 = __parse_base_resistance_info t2.
Proof.
  intros H1 H2. by rewrite !parse_base_resistance_info_rows, H1, H2.
Qed.

(** X27: a resistance type is mapped to the value in its own column, provided no
    later column that has a value carries the same type name: of two columns
    with one name the later one wins. *)
Theorem base_resistance_column_value (tbody : list Tr) (types values : Tr)
    (i : nat) (k v : list N) :
  tbody !! 1%nat = Some types -> tbody !! 2%nat = Some values ->
  stripped_texts (tr_th types) !! i = Some k ->
  stripped_texts (tr_td values) !! i = Some v ->
  (forall j, (i < j < length (tr_td values))%nat ->
             stripped_texts (tr_th types) !! j ≠ Some k) ->
  __parse_base_resistance_info tbody !! k = Some v.
Proof.
  intros H1 H2 Hk Hv Hlater.
  rewrite parse_base_resistance_info_rows, H1, H2. simpl.
  apply (py_dict_lookup_last _ i).
  - apply lookup_zip_with_Some. by exists k, v.
  - intros j v' Hj Hlook.
    apply lookup_zip_with_Some in Hlook as (k0 & v0 & Heq & Hk0 & Hv0).
    injection Heq as <- <-.
    apply (Hlater j); [|done]. split; [done|].
    apply lookup_lt_Some in Hv0. unfold stripped_texts in Hv0.
    by rewrite length_fmap in Hv0.
Qed.

(** X28: the keys of the result are the type names of the columns that have a
    value: headers beyond the last value are dropped without an error, and a
    body of fewer than three rows gives the empty map. *)
Theorem base_resistance_keys (tbody : list Tr) (k : list N) :
  is_Some (__parse_base_resistance_info tbody !! k)
  <-> exists types values,
        tbody !! 1%nat = Some types ∧ tbody !! 2%nat = Some values
        ∧ k ∈ take (length (tr_td values)) (stripped_texts (tr_th types)).
Proof.
  rewrite parse_base_resistance_info_rows, <- not_eq_None_Some,
    py_dict_lookup_None, fst_zip_take.
  unfold stripped_texts at 1. rewrite length_fmap.
  destruct (tbody !! 1%nat) as [types|], (tbody !! 2%nat) as [values|]; simpl;
    rewrite ?take_nil.
  - split.
    + intros Hin. exists types, values. split; [done|]. split; [done|].
      by apply dec_stable.
    + intros (? & ? & [= <-] & [= <-] & Hin) Hnot. by apply Hnot.
  - split; [intros Hnot; destruct Hnot; apply not_elem_of_nil|].
    by intros (? & ? & _ & ? & _).
  - split; [intros Hnot; destruct Hnot; apply not_elem_of_nil|].
    by intros (? & ? & ? & _).
  - split; [intros Hnot; destruct Hnot; apply not_elem_of_nil|].
    by intros (? & ? & ? & _).
Qed.

Lemma is_resistance_tbody_marked (tbody : list Tr) :
  marked tbody <-> is_resistance_tbody tbody = Ok true.
Proof.
  unfold marked, first_header, is_resistance_tbody.
  destruct tbody as [|tr rest]; simpl.
  { split; [by intros (? & ? & _)|done]. }
  destruct (tr_th tr) as [|th ths]; simpl.
  { split; [by intros (? & ? & _)|done]. }
  split.
  - intros (? & [= <-] & Hin). by rewrite bool_decide_eq_true_2.
  - intros [= Hin]. apply bool_decide_eq_true_1 in Hin. by exists th.
Qed.

Lemma is_resistance_tbody_unmarked (tbody : list Tr) :
  unmarked tbody <-> is_resistance_tbody tbody = Ok false.
Proof.
  unfold unmarked, first_header, is_resistance_tbody.
  destruct tbody as [|tr rest]; simpl.
  { split; [by intros (? & ? & _)|done]. }
  destruct (tr_th tr) as [|th ths]; simpl.
  { split; [by intros (? & ? & _)|done]. }
  split.
  - intros (? & [= <-] & Hin). by rewrite bool_decide_eq_false_2.
  - intros [= Hin]. apply bool_decide_eq_false_1 in Hin. by exists th.
Qed.

Lemma is_resistance_tbody_headless (tbody : list Tr) :
  first_header tbody = None <-> raises (is_resistance_tbody tbody).
Proof.
  unfold first_header, is_resistance_tbody, raises.
  destruct tbody as [|tr rest]; simpl; [by split; [eauto|]|].
  destruct (tr_th tr) as [|th ths]; simpl; [by split; [eauto|]|].
  split; [done|]. by intros [e ?].
Qed.

Lemma first_resistance_info_skip (pre rest : list (list Tr)) :
  Forall unmarked pre ->
  first_resistance_info (pre ++ rest) = first_resistance_info rest.
Proof.
  induction 1 as [|tbody pre Hun _ IH]; [done|].
  apply is_resistance_tbody_unmarked in Hun. simpl. by rewrite Hun.
Qed.

(** X29: the bodies are tried in page order and the first one that is not
    unmarked decides: if it is marked its table is returned, whatever
    follows; if it has no row, or its first row no header cell, the call
    raises. *)
Theorem resistance_info_first_decisive (site : list N -> list (list (list Tr)))
    (url : list N) (pre post : list (list Tr)) (tbody : list Tr) :
  __get_all_tbodies_element (site url) = pre ++ tbody :: post ->
  Forall unmarked pre ->
  (marked tbody ->
   get_base_resistance_info site url
   = Ok (Some (__parse_base_resistance_info tbody)))
  ∧ (first_header tbody = None -> raises (get_base_resistance_info site url)).
Proof.
  intros Hall Hpre. unfold get_base_resistance_info.
  rewrite Hall, first_resistance_info_skip by done. simpl. split.
  - intros Hm. apply is_resistance_tbody_marked in Hm. by rewrite Hm.
  - intros Hh. apply is_resistance_tbody_headless in Hh as [e He].
    rewrite He. by exists e.
Qed.

(** X30: the call returns [None] exactly when every body of the page has a first
    header cell of which the marker is no child; that the text of the cell
    contains the marker does not count. *)
Theorem resistance_info_none_iff (site : list N -> list (list (list Tr)))
    (url : list N) :
  get_base_resistance_info site url = Ok None
  <-> Forall unmarked (__get_all_tbodies_element (site url)).
Proof.
  unfold get_base_resistance_info.
  induction (__get_all_tbodies_element (site url)) as [|tbody rest IH]; simpl.
  { split; [by constructor|done]. }
  rewrite Forall_cons, is_resistance_tbody_unmarked, <- IH.
  destruct (is_resistance_tbody tbody) as [[|]|e]; simpl.
  - split; [done|]. by intros [? _].
  - split; [done|]. by intros [_ ?].
  - split; [done|]. by intros [? _].
Qed.

End BaseResistance.

Lemma base_resistance_reads_two_rows_witness :
  Resistance.__parse_base_resistance_info ResistanceExamples.slime_tbody
  = Resistance.__parse_base_resistance_info
      [ResistanceExamples.hidden_row; ResistanceExamples.types_row;
       ResistanceExamples.values_row].
Proof.
  apply (base_resistance_reads_two_rows ResistanceExamples.slime_tbody
           [ResistanceExamples.hidden_row; ResistanceExamples.types_row;
            ResistanceExamples.values_row]); reflexivity.
Defined.

Lemma base_resistance_column_value_witness :
  Resistance.__parse_base_resistance_info ResistanceExamples.slime_tbody
    !! u "pyro" = Some (u "inf").
Proof.
  apply (base_resistance_column_value ResistanceExamples.slime_tbody
           ResistanceExamples.types_row ResistanceExamples.values_row 1%nat).
  - reflexivity.
  - reflexivity.
  - reflexivity.
  - reflexivity.
  - simpl. intros j Hj. lia.
Defined.

Lemma resistance_info_first_decisive_witness :
  Resistance.get_base_resistance_info
    (fun _ => [[ResistanceExamples.other_tbody; ResistanceExamples.padded_tbody];
               [ResistanceExamples.slime_tbody]]) (u "slime")
  = Ok (Some (Resistance.__parse_base_resistance_info
                ResistanceExamples.slime_tbody)).
Proof.
  refine (proj1 (resistance_info_first_decisive
            (fun _ => [[ResistanceExamples.other_tbody;
                        ResistanceExamples.padded_tbody];
                       [ResistanceExamples.slime_tbody]]) (u "slime")
            [ResistanceExamples.other_tbody; ResistanceExamples.padded_tbody]
            [] ResistanceExamples.slime_tbody eq_refl _) _).
  - repeat constructor.
    + eexists. split; [reflexivity|]. refine (bool_decide_unpack _ _).
      vm_compute. exact I.
    + eexists. split; [reflexivity|]. refine (bool_decide_unpack _ _).
      vm_compute. exact I.
  - eexists. split; [reflexivity|]. apply list_elem_of_here.
Defined.
